(** * GdScript2All: the recursive-descent parser of [src/Parser.py]

    A shallow embedding of the [Parser] class.  The parser object is a record
    that is threaded through a state-and-exception monad; Python generators
    (the two-phase expression producers) are functions that run up to the
    first [yield] and return the yielded type together with the rest of the
    generator as a suspended computation.  Recursion between the grammar
    rules is tied by a fuel-indexed record of the recursive entry points. *)

From Stdlib Require Import String Ascii List ZArith Bool Arith Lia.
From Stdlib Require SpecFloat.
Import ListNotations.

Local Open Scope string_scope.
Local Open Scope list_scope.
Local Open Scope Z_scope.

(** ** Python values and helpers *)

(** A value that is either [None] or a [str]: inferred types, table entries. *)
Definition PyVal := option string.

(** Python truthiness of such a value: [None] and [''] are falsy. *)
Definition truthy (v : PyVal) : bool :=
  match v with
  | Some EmptyString => false
  | Some _ => true
  | None => false
  end.

(** [a or b] *)
Definition py_or (a b : PyVal) : PyVal := if truthy a then a else b.

Definition str_truthy (s : string) : bool :=
  match s with EmptyString => false | _ => true end.

Definition in_values (v : string) (l : list string) : bool :=
  existsb (String.eqb v) l.

(** [str.replace(old, new)]: every non-overlapping occurrence, left to right. *)
Fixpoint replace_from (skip : nat) (old new s : string) : string :=
  match s with
  | EmptyString => EmptyString
  | String c s' =>
      match skip with
      | S k => replace_from k old new s'
      | O =>
          if String.prefix old s
          then (new ++ replace_from (Nat.pred (String.length old)) old new s')%string
          else String c (replace_from O old new s')
      end
  end.

Fixpoint intersperse (new s : string) : string :=
  match s with
  | EmptyString => new
  | String c s' => (new ++ String c (intersperse new s'))%string
  end.

Definition replace (old new s : string) : string :=
  match old with
  | EmptyString => intersperse new s
  | _ => replace_from O old new s
  end.

(** [sub in s] *)
Fixpoint contains (sub s : string) : bool :=
  String.prefix sub s ||
  match s with
  | EmptyString => false
  | String _ s' => contains sub s'
  end.

(** ** Reading numbers

    A [str] is modelled by the sequence of its code points, each below 256.
    [int(text)] and [float(text)] raise [ValueError] on a text they do not
    accept; the functions below return [None] there. *)

(** The blanks that [int] and [float] drop at both ends of their argument:
    tab to carriage return, the space and, above 127, the next-line and the
    no-break space characters. *)
Definition is_space (c : ascii) : bool :=
  let n := nat_of_ascii c in
  ((Nat.leb 9 n && Nat.leb n 13) || Nat.eqb n 32 || Nat.eqb n 133 ||
   Nat.eqb n 160)%bool.

Fixpoint lstrip (s : string) : string :=
  match s with
  | EmptyString => EmptyString
  | String c r => if is_space c then lstrip r else s
  end.

Fixpoint rstrip (s : string) : string :=
  match s with
  | EmptyString => EmptyString
  | String c r =>
      match rstrip r with
      | EmptyString => if is_space c then EmptyString else String c EmptyString
      | r' => String c r'
      end
  end.

Definition strip (s : string) : string := rstrip (lstrip s).

Definition digit_val (c : ascii) : option Z :=
  let n := nat_of_ascii c in
  if (Nat.leb 48 n && Nat.leb n 57)%bool then Some (Z.of_nat (n - 48)) else None.

Definition is_digit (c : ascii) : bool :=
  match digit_val c with Some _ => true | None => false end.

(** A sign, if there is one, and what follows it. *)
Definition signed (s : string) : bool * string :=
  match s with
  | String c r =>
      if Ascii.eqb c "-" then (true, r)
      else if Ascii.eqb c "+" then (false, r)
      else (false, s)
  | EmptyString => (false, s)
  end.

(** What follows a digit of an integer: more digits, each of which one
    underscore may precede.  The value read so far is [acc], the number of
    digits read so far is [count]. *)
Fixpoint digits (s : string) (acc : Z) (count : nat) : option (Z * nat) :=
  match s with
  | EmptyString => Some (acc, count)
  | String c r =>
      if Ascii.eqb c "_"
      then match r with
           | String c' r' =>
               match digit_val c' with
               | Some d => digits r' (10 * acc + d) (S count)
               | None => None
               end
           | EmptyString => None
           end
      else match digit_val c with
           | Some d => digits r (10 * acc + d) (S count)
           | None => None
           end
  end.

(** [sys.int_max_str_digits], as it is set when the interpreter starts:
    [int] refuses a text of more digits. *)
Definition int_max_str_digits : nat := 4300.

(** [int(text)]: blanks at both ends, an optional sign, then digits with
    single underscores between them. *)
Definition py_int (s : string) : option Z :=
  let '(negative, body) := signed (strip s) in
  match body with
  | String c r =>
      match digit_val c with
      | Some d =>
          match digits r d 1 with
          | Some (z, count) =>
              if Nat.leb count int_max_str_digits
              then Some (if negative then (- z)%Z else z)
              else None
          | None => None
          end
      | None => None
      end
  | EmptyString => None
  end.

(** An underscore of a number stands between two digits; [prev] is the
    character before [s]. *)
Fixpoint underscores_ok (prev : ascii) (s : string) : bool :=
  match s with
  | EmptyString => negb (Ascii.eqb prev "_")
  | String c r =>
      (if Ascii.eqb c "_" then is_digit prev
       else negb (Ascii.eqb prev "_") || is_digit c)
      && underscores_ok c r
  end.

Fixpoint without_underscores (s : string) : string :=
  match s with
  | EmptyString => EmptyString
  | String c r =>
      if Ascii.eqb c "_" then without_underscores r
      else String c (without_underscores r)
  end.

Definition lower (c : ascii) : ascii :=
  let n := nat_of_ascii c in
  if (Nat.leb 65 n && Nat.leb n 90)%bool then ascii_of_nat (n + 32) else c.

Fixpoint lowercase (s : string) : string :=
  match s with
  | EmptyString => EmptyString
  | String c r => String (lower c) (lowercase r)
  end.

(** A float of Python: an IEEE 754 double. *)
Definition float := SpecFloat.spec_float.

(** The leading digits of [s]: their value after [acc], how many they are,
    and what follows them. *)
Fixpoint span_digits (s : string) (acc : Z) : Z * nat * string :=
  match s with
  | EmptyString => (acc, O, EmptyString)
  | String c r =>
      match digit_val c with
      | Some d => let '(z, n, rest) := span_digits r (10 * acc + d) in (z, S n, rest)
      | None => (acc, O, s)
      end
  end.

(** The double nearest to [m * 2^e], ties to even. *)
Definition round_to_double (negative : bool) (m e : Z) : float :=
  match m with
  | Zpos p => SpecFloat.binary_round 53 1024 negative p e
  | _ => SpecFloat.S754_zero negative
  end.

(** The double nearest to [n * 10^e10], ties to even, for [0 <= n] written
    with [nd] digits.  Beyond the exponents of the first two tests the
    result is an infinity or a zero whatever the digits are; between them
    the number is rounded, for a negative [e10] from a quotient of at least
    64 bits and one bit more that tells whether the division was exact. *)
Definition decimal_to_double (negative : bool) (n nd e10 : Z) : float :=
  if n =? 0 then SpecFloat.S754_zero negative
  else if 310 <? e10 then SpecFloat.S754_infinity negative
  else if nd + e10 <? -330 then SpecFloat.S754_zero negative
  else if 0 <=? e10 then round_to_double negative (n * 10 ^ e10) 0
  else
    let den := 10 ^ (- e10) in
    let sh := Z.max 0 (Z.log2 den - Z.log2 n + 64) in
    let num := n * 2 ^ sh in
    round_to_double negative
      (2 * (num / den) + (if num mod den =? 0 then 0 else 1)) (- sh - 1).

(** Nothing, or [e] or [E], an optional sign and at least one digit: the
    exponent. *)
Definition float_exponent (s : string) : option Z :=
  match s with
  | EmptyString => Some 0
  | String c r =>
      if (Ascii.eqb c "e" || Ascii.eqb c "E")%bool
      then let '(negative, digits) := signed r in
           match span_digits digits 0 with
           | (_, O, _) => None
           | (z, _, EmptyString) => Some (if negative then - z else z)
           | _ => None
           end
      else None
  end.

(** Digits, an optional point and more digits, with a digit on at least one
    side of the point, then the exponent. *)
Definition decimal_float (negative : bool) (s : string) : option float :=
  let '(int, ni, rest) := span_digits s 0 in
  let '(n, nf, rest) :=
    match rest with
    | String c r => if Ascii.eqb c "." then span_digits r int else (int, O, rest)
    | EmptyString => (int, O, rest)
    end in
  match (ni + nf)%nat, float_exponent rest with
  | S _, Some e =>
      Some (decimal_to_double negative n (Z.of_nat (ni + nf)) (e - Z.of_nat nf))
  | _, _ => None
  end.

(** [float(text)]: blanks at both ends, an optional sign, then an infinity,
    a nan or a decimal number, with single underscores between digits. *)
Definition py_float (s : string) : option float :=
  let t := strip s in
  if underscores_ok "000" t then
    let '(negative, body) := signed (without_underscores t) in
    let l := lowercase body in
    if (String.eqb l "inf" || String.eqb l "infinity")%bool
    then Some (SpecFloat.S754_infinity negative)
    else if String.eqb l "nan" then Some SpecFloat.S754_nan
    else decimal_float negative body
  else None.

(** ['\n' * n] *)
Fixpoint newlines (n : nat) : string :=
  match n with
  | O => EmptyString
  | S k => String "010"%char (newlines k)
  end.

(** ** Dictionaries

    A Python [dict] keeps insertion order and [params.items()] hands that
    order to the backend, so a dictionary is an association list in which
    [d[k] = v] overwrites in place or appends. *)

Section Dict.
Context {V : Type}.

Fixpoint dict_lookup (d : list (string * V)) (k : string) : option V :=
  match d with
  | [] => None
  | (k', v) :: r => if String.eqb k k' then Some v else dict_lookup r k
  end.

Fixpoint dict_set (d : list (string * V)) (k : string) (v : V) : list (string * V) :=
  match d with
  | [] => [(k, v)]
  | (k', v') :: r =>
      if String.eqb k k' then (k', v) :: r else (k', v') :: dict_set r k v
  end.

Definition dict_mem (d : list (string * V)) (k : string) : bool :=
  match dict_lookup d k with Some _ => true | None => false end.

End Dict.

(** A table of the class data and the locals: name to type, where the stored
    value may be [None] (an unannotated method whose body yields no type). *)
Definition Dict := list (string * PyVal).

(** [d.get(k, None)] *)
Definition dict_get (d : Dict) (k : string) : PyVal :=
  match dict_lookup d k with Some v => v | None => None end.

(** ** Tokens *)

Record Token := mkToken { tok_type : string; tok_value : string }.

(** Modelled from the spec: the rendering of a token ([{kind, text}]) that the
    panic message interpolates; the lexer's token class is not part of the
    parser source. *)
Definition token_repr (t : Token) : string :=
  ("Token(type='" ++ tok_type t ++ "', value='" ++ tok_value t ++ "')")%string.

(** ** The emission backend

    [self.out] is an external collaborator.  Every call the parser makes on
    it is recorded, in order, as one entry of a log.  Generators handed to
    the backend are not stored in the log: the backend resumes them (see
    [Backend] below). *)

Inductive Literal :=
| LInt (z : Z)
| LFloat (f : float)
| LBool (b : bool)
| LStr (s : string).

Module Out.
Inductive call_ :=
| define_class (name base : string) (is_tool : bool)
| line_comment (content : string)
| multiline_comment (content : string)
| end_script
| enum (name definition : string)
| annotation (name params member : string)
| declare_property (type name : string) (constant static : Z)
| declare_variable (type name : string)
| end_statement
| addLayer
| define_method (name : string) (params : list (string * string))
                (params_init : list string) (returnType : PyVal) (static : bool)
| define_signal (name : string) (params : list (string * string))
| UpScope
| DownScope
| iadd (text : string)
| breakStmt
| continueStmt
| ifStmt
| elifStmt
| elseStmt
| whileStmt
| forStmt (name type : string)
| matchStmt
| returnStmt
| assignment (onreadyName : PyVal)
| ternary
| operator (op : string)
| literal (val : Literal)
| create_array
| create_dict
| subexpression
| call (name : string) (nparams : nat)
| constructor (name : string) (nparams : nat)
| this
| singleton (name : string)
| variable (name : string)
| reference (name : string)
| constant (name : string)
| subscription.
End Out.

(** ** The type registry and the class data

    Modelled from the spec: [ClassData] (module [ClassData], not part of the
    parser source) is an object with three name-keyed tables.  Its three
    attributes hold references to [dict] objects, which live in a store; the
    registry [ref.godot_types] maps a class name to such an object. *)

Record ClassData := mkClassData { members : nat; methods : nat; constants : nat }.

(** ** The parser object *)

Record Parser := mkParser {
  script_name : string;
  out : list Out.call_;          (* calls received by [self.out], oldest first *)
  tokens : list Token;           (* what the token generator has not produced yet *)
  current : Token;               (* the fields of the object [self.current] *)
  current_id : nat;              (* the identity of the object [self.current] *)
  level : Z;
  is_tool : option bool;
  base_class : PyVal;
  class_name : PyVal;
  classData : option ClassData;
  locals : Dict;
  godot_types : list (string * ClassData);   (* [ref.godot_types] *)
  store : list Dict                          (* the [dict] objects, by address *)
}.

Definition set_out (o : list Out.call_) (p : Parser) : Parser :=
  mkParser (script_name p) o (tokens p) (current p) (current_id p) (level p)
    (is_tool p) (base_class p) (class_name p) (classData p) (locals p)
    (godot_types p) (store p).

Definition set_token (ts : list Token) (c : Token) (i : nat) (p : Parser) : Parser :=
  mkParser (script_name p) (out p) ts c i (level p)
    (is_tool p) (base_class p) (class_name p) (classData p) (locals p)
    (godot_types p) (store p).

Definition set_level (l : Z) (p : Parser) : Parser :=
  mkParser (script_name p) (out p) (tokens p) (current p) (current_id p) l
    (is_tool p) (base_class p) (class_name p) (classData p) (locals p)
    (godot_types p) (store p).

Definition set_is_tool (b : bool) (p : Parser) : Parser :=
  mkParser (script_name p) (out p) (tokens p) (current p) (current_id p) (level p)
    (Some b) (base_class p) (class_name p) (classData p) (locals p)
    (godot_types p) (store p).

Definition set_base_class (b : string) (p : Parser) : Parser :=
  mkParser (script_name p) (out p) (tokens p) (current p) (current_id p) (level p)
    (is_tool p) (Some b) (class_name p) (classData p) (locals p)
    (godot_types p) (store p).

Definition set_class_name (n : string) (p : Parser) : Parser :=
  mkParser (script_name p) (out p) (tokens p) (current p) (current_id p) (level p)
    (is_tool p) (base_class p) (Some n) (classData p) (locals p)
    (godot_types p) (store p).

Definition set_classData (cd : ClassData) (st : list Dict) (p : Parser) : Parser :=
  mkParser (script_name p) (out p) (tokens p) (current p) (current_id p) (level p)
    (is_tool p) (base_class p) (class_name p) (Some cd) (locals p)
    (godot_types p) st.

Definition set_locals (l : Dict) (p : Parser) : Parser :=
  mkParser (script_name p) (out p) (tokens p) (current p) (current_id p) (level p)
    (is_tool p) (base_class p) (class_name p) (classData p) l
    (godot_types p) (store p).

Definition set_store (st : list Dict) (p : Parser) : Parser :=
  mkParser (script_name p) (out p) (tokens p) (current p) (current_id p) (level p)
    (is_tool p) (base_class p) (class_name p) (classData p) (locals p)
    (godot_types p) st.

(** The table at an address, and the in-place update [table[k] = v]. *)
Definition table (st : list Dict) (a : nat) : Dict := nth a st [].

Fixpoint store_update (st : list Dict) (a : nat) (f : Dict -> Dict) : list Dict :=
  match st, a with
  | [], _ => []
  | d :: r, O => f d :: r
  | d :: r, S a' => d :: store_update r a' f
  end.

(** ** The monad: state, Python exceptions, and running out of fuel *)

Inductive res (A : Type) : Type :=
| Ok (a : A) (s : Parser)
| Raise (e : string) (s : Parser)
| Timeout.
Arguments Ok {A} a s.
Arguments Raise {A} e s.
Arguments Timeout {A}.

Definition M (A : Type) : Type := Parser -> res A.

Definition ret {A} (a : A) : M A := fun s => Ok a s.

Definition bind {A B} (m : M A) (f : A -> M B) : M B :=
  fun s =>
    match m s with
    | Ok a s' => f a s'
    | Raise e s' => Raise e s'
    | Timeout => Timeout
    end.

Definition raise {A} (e : string) : M A := fun s => Raise e s.
Definition timeout {A} : M A := fun _ => Timeout.
Definition get {A} (f : Parser -> A) : M A := fun s => Ok (f s) s.
Definition modify (f : Parser -> Parser) : M unit := fun s => Ok tt (f s).

Notation "x <- m ;; k" := (bind m (fun x => k))
  (at level 61, m at next level, right associativity).
Notation "' pat <- m ;; k" := (bind m (fun x => match x with pat => k end))
  (at level 61, pat pattern, m at next level, right associativity).
Notation "m ;;; k" := (bind m (fun _ => k))
  (at level 61, right associativity).

(** A generator that has been resumed once: what it yielded, and the rest of
    its body, to be run when it is resumed again. *)
Definition Gen : Type := M unit.
Definition Producer : Type := M (PyVal * Gen).

(** One call on [self.out]. *)
Definition emit (c : Out.call_) : M unit :=
  modify (fun s => set_out (out s ++ [c]) s).

(** ** Parsing utilities (Parser.py, "parsing utils") *)

Definition EOF : Token := mkToken "EOF" "EOF".

(** [advance]: the next token object replaces [self.current]; when the
    generator is exhausted the current object is overwritten in place, so its
    identity does not change. *)
Definition next_token (s : Parser) : Parser :=
  match tokens s with
  | t :: r => set_token r t (S (current_id s)) s
  | [] => set_token [] EOF (current_id s) s
  end.

Definition advance : M unit := modify next_token.

Definition match_type (types : list string) : M bool :=
  get (fun s => in_values (tok_type (current s)) types).

Definition match_value (values : list string) : M bool :=
  get (fun s => in_values (tok_value (current s)) values).

Definition expect (token : string) : M bool :=
  found <- match_value [token] ;;
  (if found then advance else ret tt) ;;;
  ret found.

Definition consume : M string :=
  found <- get (fun s => tok_value (current s)) ;;
  advance ;;;
  ret found.

(** [doWhile]: "while implementation that avoids infinite loops".  [last] is
    [None] for the initial [-1] and otherwise the identity of the token object
    seen when the previous iteration started.  The loop body takes and
    returns the local variables it updates. *)
Fixpoint doWhile {A} (fuel : nat) (condition : M bool) (body : A -> M A)
    (last : option nat) (a : A) : M A :=
  match fuel with
  | O => timeout
  | S fuel' =>
      id <- get current_id ;;
      if match last with Some l => Nat.eqb id l | None => false end
      then ret a
      else
        c <- condition ;;
        if c then
          id' <- get current_id ;;
          a' <- body a ;;
          doWhile fuel' condition body (Some id') a'
        else ret a
  end.

(** [parseType]: "parse type string and format it the way godot docs do" *)
Definition parseType : M string :=
  type <- consume ;;
  if String.eqb type "Array" then
    b <- expect "[" ;;
    if b then
      t <- consume ;;
      expect "]" ;;;
      ret (t ++ "[]")%string
    else ret type
  else ret type.

Definition consumeUntil (fuel : nat) (token : string) (separator : string) : M string :=
  result <- doWhile fuel
              (v <- match_value [token] ;;
               if v then ret false
               else t <- match_type [token] ;; ret (negb t))
              (fun result => c <- consume ;; ret (result ++ [c]))
              None [] ;;
  ret (String.concat separator result).

(** [endline]: "called when an endline is expected".  [lvl] and
    [jumpedLines] are the loop's local variables; [emitComments] is the
    pending comment of the current iteration, if any. *)
Fixpoint downscopes (n : nat) (first addBreak : bool) : M unit :=
  match n with
  | O => ret tt
  | S n' =>
      (if (addBreak && first)%bool
       then emit (Out.iadd (newlines 1)) ;;; emit Out.breakStmt
       else ret tt) ;;;
      modify (fun s => set_level (level s - 1) s) ;;;
      emit Out.DownScope ;;;
      downscopes n' false addBreak
  end.

Definition emitComments (c : option Out.call_) : M unit :=
  match c with Some e => emit e | None => ret tt end.

Definition endline_body (addBreak : bool) (st : Z * nat) : M (Z * nat) :=
  let '(lvl, jumpedLines) := st in
  le <- match_type ["LINE_END"] ;;
  '(lvl, jumpedLines, comment) <-
    (if le then
       t <- consume ;;
       match py_int t with
       | Some n => ret (n, S jumpedLines, None)
       | None => raise "ValueError"
       end
     else
       co <- match_type ["COMMENT"] ;;
       content <- consume ;;
       ret (lvl, jumpedLines,
            Some (if co then Out.line_comment content
                  else Out.multiline_comment content))) ;;
  le' <- match_type ["LINE_END"] ;;
  if le' then
    emitComments comment ;;;
    ret (lvl, jumpedLines)
  else
    (if Z.eqb lvl (-1) then ret tt
     else
       l <- get level ;;
       downscopes (Z.to_nat (l - lvl)) true addBreak) ;;;
    emitComments comment ;;;
    emit (Out.iadd (newlines jumpedLines)) ;;;
    ret (lvl, O).

Definition endline (fuel : nat) (addBreak : bool) : M unit :=
  '(_, jumpedLines) <-
    doWhile fuel (match_type ["LINE_END"; "COMMENT"; "LONG_STRING"])
      (endline_body addBreak) None (-1, O) ;;
  emit (Out.iadd (newlines jumpedLines)).

(** ** How the backend drives what it is handed

    Modelled from the spec: the backends are not part of the parser source.
    A backend method that receives producers resumes each of them once, in
    order, and consumes an iterator to its end; a multi-step generator is
    resumed once per step. *)

Fixpoint resume_all (gs : list Gen) : M unit :=
  match gs with
  | [] => ret tt
  | g :: r => g ;;; resume_all r
  end.

Module Backend.
Definition ifStmt (cond : Gen) : M unit := emit Out.ifStmt ;;; cond.
Definition elifStmt (cond : Gen) : M unit := emit Out.elifStmt ;;; cond.
Definition whileStmt (cond : Gen) : M unit := emit Out.whileStmt ;;; cond.
Definition forStmt (name type : string) (exp : Gen) : M unit :=
  emit (Out.forStmt name type) ;;; exp.
Definition returnStmt (exp : Gen) : M unit := emit Out.returnStmt ;;; exp.
Definition assignment (exp : Gen) (onreadyName : PyVal) : M unit :=
  emit (Out.assignment onreadyName) ;;; exp.
Definition subexpression (enclosed : Gen) : M unit :=
  emit Out.subexpression ;;; enclosed.
Definition subscription (key : Gen) : M unit := emit Out.subscription ;;; key.
Definition call (name : string) (params : list Gen) : M unit :=
  emit (Out.call name (List.length params)) ;;; resume_all params.
Definition constructor (name : string) (params : list Gen) : M unit :=
  emit (Out.constructor name (List.length params)) ;;; resume_all params.
(** [impl()] yields three times: condition, true value, false value. *)
Definition ternary (impl : M (M Gen)) : M unit :=
  emit Out.ternary ;;;
  step2 <- impl ;;
  step3 <- step2 ;;
  step3.
(** An iterator is a loop that calls the consumer at each [yield]. *)
Definition create_array (iter : (Gen -> M unit) -> M unit) : M unit :=
  emit Out.create_array ;;; iter (fun val => val).
Definition create_dict (iter : (Gen * Gen -> M unit) -> M unit) : M unit :=
  emit Out.create_dict ;;; iter (fun kv => fst kv ;;; snd kv).
Definition define_method (name : string) (params : list (string * string))
    (params_init : list (string * Gen)) (returnType : PyVal) (static : bool) : M unit :=
  emit (Out.define_method name params (map fst params_init) returnType static) ;;;
  resume_all (map snd params_init).
(** [evaluated] yields the type twice; [cases] yields a pattern (or the
    string ['default'], here [None]) and an optional guard per case.  The
    closure variables of [Parser.matchStmt] that its two generators share
    ([switch_level], [return_type]) travel with them. *)
Definition matchStmt (evaluated : M (PyVal * M (PyVal * Z)))
    (cases : Z -> bool -> (option Gen * option Gen -> M unit) -> M PyVal)
    : M PyVal :=
  emit Out.matchStmt ;;;
  '(_, rest) <- evaluated ;;
  '(_, switch_level) <- rest ;;
  cases switch_level true (fun c =>
    (match fst c with Some pattern => pattern | None => ret tt end) ;;;
    (match snd c with Some whenExpr => whenExpr | None => ret tt end)).
End Backend.

(** ** The grammar rules

    The entry points that are reached recursively, at the fuel level below. *)
Record Self := mkSelf {
  self_expression : Producer;
  self_ternary : Producer;
  self_boolean : Producer;
  self__arithmetic : Producer;
  self_call : string -> PyVal -> Producer;
  self_reference : PyVal -> Producer;
  self_subscription : PyVal -> Producer;
  self_Block : bool -> M PyVal;
  self_class_body : M unit
}.

(** [DECL_FLAGS = Enum('DECL_FLAGS', ('none', 'static', 'constant',
    'property', 'onready'))] over [IntFlag]: the values are 1, 2, 4, 8, 16. *)
Module DECL_FLAGS.
Definition none : Z := 1.
Definition static : Z := 2.
Definition constant : Z := 4.
Definition property : Z := 8.
Definition onready : Z := 16.
End DECL_FLAGS.

Definition flag_set (flags f : Z) : bool := negb (Z.eqb (Z.land flags f) 0).

(** [self.classData], [ref.godot_types[name]] and the tables behind them. *)
Definition get_classData : M ClassData :=
  cd <- get classData ;;
  match cd with
  | Some c => ret c
  | None => raise "AttributeError"
  end.

Definition godot_type (name : string) : M ClassData :=
  gt <- get godot_types ;;
  match dict_lookup gt name with
  | Some c => ret c
  | None => raise "KeyError"
  end.

Definition in_godot_types (name : PyVal) : M bool :=
  gt <- get godot_types ;;
  ret (match name with Some n => dict_mem gt n | None => false end).

Definition table_get (a : nat) (k : string) : M PyVal :=
  get (fun s => dict_get (table (store s) a) k).

Definition table_mem (a : nat) (k : string) : M bool :=
  get (fun s => dict_mem (table (store s) a) k).

Definition table_set (a : nat) (k : string) (v : PyVal) : M unit :=
  modify (fun s => set_store (store_update (store s) a (fun d => dict_set d k v)) s).

(** The text of a value that is known to be a string. *)
Definition text_of (v : PyVal) : string :=
  match v with Some s => s | None => EmptyString end.

Section Grammar.
Variable self : Self.
Variable fuel : nat.

(** *** Expression grammar

    Every rule is a generator of the shape [yield <type>; <emit code>; yield].
    The rules appear callee first; a rule that is reached recursively is
    called through [self]. *)

(** The argument list of [call]: [params = ( *iter() ,)] runs the iterator to
    its end at once, resuming each argument only up to its type. *)
Fixpoint call_params (n : nat) (acc : list Gen) : M (list Gen) :=
  match n with
  | O => timeout
  | S n' =>
      close <- expect ")" ;;
      if close then ret acc
      else
        '(_, exp) <- self_expression self ;;
        expect "," ;;;
        call_params n' (acc ++ [exp])
  end.

Definition call (name : string) (calling_type : PyVal) : Producer :=
  constructor <- in_godot_types (Some name) ;;
  type <-
    (if (constructor && str_truthy name)%bool then ret (Some name)
     else
       cd <- get_classData ;;
       m <- table_get (methods cd) name ;;
       if truthy m then ret m
       else
         known <- in_godot_types calling_type ;;
         if known then
           c <- godot_type (text_of calling_type) ;;
           table_get (methods c) name
         else if negb (truthy calling_type) then
           g <- godot_type "@GlobalScope" ;;
           table_get (methods g) name
         else ret None) ;;
  params <- call_params fuel [] ;;
  let emit_ :=
    if constructor then Backend.constructor name params
    else Backend.call name params in
  dot <- expect "." ;;
  if dot then
    '(t, r) <- self_reference self type ;;
    ret (t, emit_ ;;; r)
  else
    sub <- expect "[" ;;
    if sub then
      '(t, s) <- self_subscription self type ;;
      ret (t, emit_ ;;; s)
    else ret (type, emit_).

Definition reference (type : PyVal) : Producer :=
  name <- consume ;;
  known <- in_godot_types type ;;
  member_type <-
    (if known then
       c <- godot_type (text_of type) ;;
       has <- table_mem (members c) name ;;
       if has then table_get (members c) name else ret None
     else ret None) ;;
  par <- expect "(" ;;
  if par then
    '(t, call) <- self_call self name type ;;
    ret (t, emit (Out.reference "") ;;; call)
  else
    dot <- expect "." ;;
    if dot then
      '(t, r) <- self_reference self member_type ;;
      ret (t, emit (Out.reference name) ;;; r)
    else
      sub <- expect "[" ;;
      if sub then
        '(t, s) <- self_subscription self type ;;
        ret (t, emit (Out.reference name) ;;; s)
      else
        is_const <-
          (if truthy type then
             c <- godot_type (text_of type) ;;
             table_mem (constants c) name
           else ret false) ;;
        if is_const then
          c <- godot_type (text_of type) ;;
          t <- table_get (constants c) name ;;
          ret (t, emit (Out.constant name))
        else ret (member_type, emit (Out.reference name)).

Definition subscription (type : PyVal) : Producer :=
  let type :=
    if (truthy type && contains "[]" (text_of type))%bool
    then Some (replace "[]" "" (text_of type)) else None in
  '(_, key) <- self_expression self ;;
  expect "]" ;;;
  par <- expect "(" ;;
  if par then
    '(t, call) <- self_call self "" type ;;
    ret (t, call)
  else
    dot <- expect "." ;;
    if dot then
      '(t, _) <- self_reference self type ;;
      ret (t, Backend.subscription key)
    else ret (type, Backend.subscription key).

Definition this_ (this : bool) : M unit :=
  if this then emit Out.this else ret tt.

Definition textCode : Producer :=
  name <- consume ;;
  this <- (if String.eqb name "self" then expect "." else ret false) ;;
  name <- (if this then consume else ret name) ;;
  singleton <- in_godot_types (Some name) ;;
  cd <- get_classData ;;
  type <-
    (m <- table_get (members cd) name ;;
     if truthy m then ret m
     else
       l <- get (fun s => dict_get (locals s) name) ;;
       if truthy l then ret l
       else
         g <- godot_type "@GlobalScope" ;;
         c <- table_get (constants g) name ;;
         if truthy c then ret c
         else ret (if singleton then Some name else None)) ;;
  par <- expect "(" ;;
  if par then
    '(t, call) <- self_call self name None ;;
    ret (t, this_ this ;;; call)
  else
    dot <- expect "." ;;
    if dot then
      '(t, reference) <- self_reference self type ;;
      ret (t, this_ this ;;;
              emit (if singleton then Out.singleton name else Out.variable name) ;;;
              reference)
    else
      sub <- expect "[" ;;
      if sub then
        '(t, s) <- self_subscription self type ;;
        ret (t, this_ this ;;; emit (Out.variable name) ;;; s)
      else ret (type, this_ this ;;; emit (Out.variable name)).

(** The element iterators of the array and dictionary literals; they parse
    while the backend consumes them. *)
Fixpoint array_iter (n : nat) (yield_ : Gen -> M unit) : M unit :=
  match n with
  | O => timeout
  | S n' =>
      close <- expect "]" ;;
      if close then ret tt
      else
        '(_, val) <- self_expression self ;;
        expect "," ;;;
        yield_ val ;;;
        array_iter n' yield_
  end.

Fixpoint dict_iter (n : nat) (yield_ : Gen * Gen -> M unit) : M unit :=
  match n with
  | O => timeout
  | S n' =>
      close <- expect "}" ;;
      if close then ret tt
      else
        '(_, key) <- self_expression self ;;
        expect ":" ;;;
        '(_, val) <- self_expression self ;;
        expect "," ;;;
        yield_ (key, val) ;;;
        dict_iter n' yield_
  end.

(** [passthrough(closure, *values)] *)
Definition passthrough (closure : M unit) : Gen := closure.

Definition value : Producer :=
  int_ <- match_type ["INT"] ;;
  if int_ then
    t <- consume ;;
    match py_int t with
    | Some val => ret (Some "int", emit (Out.literal (LInt val)))
    | None => raise "ValueError"
    end
  else
  float_ <- match_type ["FLOAT"] ;;
  if float_ then
    t <- consume ;;
    match py_float t with
    | Some val => ret (Some "float", emit (Out.literal (LFloat val)))
    | None => raise "ValueError"
    end
  else
  bool_ <- match_value ["true"; "false"] ;;
  if bool_ then
    t <- consume ;;
    ret (Some "bool", emit (Out.literal (LBool (String.eqb t "true"))))
  else
  long_ <- match_type ["LONG_STRING"] ;;
  if long_ then
    val <- consume ;;
    ret (Some "string", emit (Out.literal (LStr val)))
  else
  str_ <- match_type ["STRING"] ;;
  if str_ then
    val <- consume ;;
    ret (Some "string", emit (Out.literal (LStr val)))
  else
  arr <- expect "[" ;;
  if arr then ret (Some "Array", Backend.create_array (array_iter fuel))
  else
  dic <- expect "{" ;;
  if dic then ret (Some "Dictionary", Backend.create_dict (dict_iter fuel))
  else
  par <- expect "(" ;;
  if par then
    '(t, enclosed) <- self_expression self ;;
    ret (t, Backend.subexpression enclosed ;;; expect ")" ;;; ret tt)
  else
  node <- expect "$" ;;
  if node then
    name <- consume ;;
    ret (Some "Node",
         Backend.call "get_node" [passthrough (emit (Out.literal (LStr name)))])
  else
  uniq <- expect "%" ;;
  if uniq then
    name <- consume ;;
    ret (Some "Node",
         Backend.call "get_node"
           [passthrough (emit (Out.literal (LStr ("%" ++ name)%string)))])
  else
  text <- match_type ["TEXT"] ;;
  if text then
    '(t, content) <- textCode ;;
    ret (t, content)
  else ret (None, ret tt).

Definition _arithmetic : Producer :=
  '(value_type, value1) <- value ;;
  a <- match_type ["ARITHMETIC"] ;;
  op <- (if a then c <- consume ;; ret (Some c) else ret None) ;;
  if truthy op then
    '(value_type, value2) <- self__arithmetic self ;;
    ret (value_type, value1 ;;; emit (Out.operator (text_of op)) ;;; value2)
  else ret (value_type, value1).

Definition arithmetic : Producer :=
  u <- match_type ["UNARY"] ;;
  pre_op <- (if u then c <- consume ;; ret (Some c) else ret None) ;;
  '(t, ar) <- _arithmetic ;;
  ret (t, (if truthy pre_op then emit (Out.operator (text_of pre_op)) else ret tt) ;;; ar).

(** "mixing boolean and comparison for simplicity" *)
Definition boolean : Producer :=
  '(ar_type, ar1) <- arithmetic ;;
  c <- match_type ["COMPARISON"] ;;
  op <- (if c then o <- consume ;; ret (Some o) else ret None) ;;
  if truthy op then
    '(_, ar2) <- self_boolean self ;;
    ret (Some "bool", ar1 ;;; emit (Out.operator (text_of op)) ;;; ar2)
  else ret (ar_type, ar1).

Definition ternary : Producer :=
  '(type, valTrue) <- boolean ;;
  ret (type,
       i <- expect "if" ;;
       if i then
         Backend.ternary
           ('(_, cond) <- self_boolean self ;;
            cond ;;;
            ret (expect "else" ;;;
                 '(_, valFalse) <- self_ternary self ;;
                 valTrue ;;;
                 ret valFalse))
       else valTrue).

Definition expression : Producer :=
  '(type, exp) <- ternary ;;
  a <- expect "as" ;;
  type <- (if a then t <- parseType ;; ret (Some t) else ret type) ;;
  ret (py_or type (Some "Variant"), exp).

Definition assignment (onreadyName : PyVal) : Producer :=
  '(type, exp) <- expression ;;
  ret (type, Backend.assignment exp onreadyName).
(** *** Statement grammar *)

Definition bump_level : M Z :=
  modify (fun s => set_level (level s + 1) s) ;;;
  get level.

(** [self.parseType() if self.expect(':') and self.match_type('TEXT') else
    None], the optional annotation of a declaration or of a parameter. *)
Definition type_annotation : M PyVal :=
  colon <- expect ":" ;;
  text <- (if colon then match_type ["TEXT"] else ret false) ;;
  if text then t <- parseType ;; ret (Some t) else ret None.

(** The "emit code" step of [declare]. *)
Definition declare_emit (name type : string) (flags : Z) : M unit :=
  if flag_set flags DECL_FLAGS.property then
    cd <- get_classData ;;
    table_set (members cd) name (Some type) ;;;
    emit (Out.declare_property type name
            (Z.land flags DECL_FLAGS.constant) (Z.land flags DECL_FLAGS.static))
  else
    modify (fun s => set_locals (dict_set (locals s) name (Some type)) s) ;;;
    emit (Out.declare_variable type name).

Definition declare (name : PyVal) (flags : Z) : M unit :=
  name <- (if truthy name then ret (text_of name) else consume) ;;
  type <- type_annotation ;;
  eq <- expect "=" ;;
  ass <- (if eq then
            a <- assignment (if flag_set flags DECL_FLAGS.onready
                             then Some name else None) ;;
            ret (Some a)
          else ret None) ;;
  let type :=
    match ass with
    | Some (ass_type, _) => py_or type ass_type
    | None => type
    end in
  let type := text_of (py_or type (Some "Variant")) in
  declare_emit name type flags ;;;
  (match ass with Some (_, ass) => ass | None => ret tt end) ;;;
  emit Out.end_statement.

Definition reassign : M unit :=
  '(_, exp) <- expression ;;
  eq <- expect "=" ;;
  (if eq then
     '(_, ass) <- assignment None ;;
     exp ;;; ass
   else exp) ;;;
  emit Out.end_statement.

Definition returnStmt : M PyVal :=
  '(type, exp) <- expression ;;
  Backend.returnStmt exp ;;;
  emit Out.end_statement ;;;
  ret type.

Fixpoint elifs (n : nat) (type : PyVal) : M PyVal :=
  match n with
  | O => timeout
  | S n' =>
      e <- expect "elif" ;;
      if e then
        '(_, cond2) <- boolean ;;
        Backend.elifStmt cond2 ;;;
        expect ":" ;;;
        eliftype <- self_Block self false ;;
        elifs n' (py_or type eliftype)
      else ret type
  end.

Definition ifStmt : M PyVal :=
  '(_, cond) <- boolean ;;
  Backend.ifStmt cond ;;;
  expect ":" ;;;
  type <- self_Block self false ;;
  type <- elifs fuel type ;;
  e <- expect "else" ;;
  c <- (if e then expect ":" else ret false) ;;
  if c then
    emit Out.elseStmt ;;;
    elsetype <- self_Block self false ;;
    ret (py_or type elsetype)
  else ret type.

Definition whileStmt : M PyVal :=
  '(_, cond) <- boolean ;;
  Backend.whileStmt cond ;;;
  expect ":" ;;;
  self_Block self false.

Definition forStmt : M PyVal :=
  name <- consume ;;
  expect "in" ;;;
  '(exp_type, exp) <- expression ;;
  let iterator_type := replace "[]" "" (text_of exp_type) in
  modify (fun s => set_locals (dict_set (locals s) name (Some iterator_type)) s) ;;;
  Backend.forStmt name iterator_type exp ;;;
  expect ":" ;;;
  self_Block self false.

(** [matchStmt]: the closure variables [switch_level] and [return_type] that
    the two inner generators share are passed along explicitly. *)
Definition evaluated : M (PyVal * M (PyVal * Z)) :=
  '(type, expr) <- expression ;;
  ret (type,
       expr ;;;
       expect ":" ;;;
       switch_level <- bump_level ;;
       ret (type, switch_level)).

Definition cases (switch_level : Z) (addBreak : bool)
    (yield_ : option Gen * option Gen -> M unit) : M PyVal :=
  doWhile fuel (l <- get level ;; ret (Z.geb l switch_level))
    (fun return_type =>
       endline fuel false ;;;
       default <- expect "_" ;;
       pattern <- (if default then ret None
                   else '(_, p) <- expression ;; ret (Some p)) ;;
       w <- expect "when" ;;
       whenExpr <- (if w then '(_, g) <- boolean ;; ret (Some g) else ret None) ;;
       expect ":" ;;;
       yield_ (pattern, whenExpr) ;;;
       blockType <- self_Block self addBreak ;;
       ret (py_or return_type blockType))
    None None.

Definition matchStmt : M PyVal := Backend.matchStmt evaluated cases.

Definition statement : M PyVal :=
  b <- expect "pass" ;;
  if b then ret None else
  b <- expect "var" ;;
  if b then declare None DECL_FLAGS.none ;;; ret None else
  b <- expect "const" ;;
  if b then declare None DECL_FLAGS.constant ;;; ret None else
  b <- expect "if" ;;
  if b then ifStmt else
  b <- expect "while" ;;
  if b then whileStmt else
  b <- expect "for" ;;
  if b then forStmt else
  b <- expect "match" ;;
  if b then matchStmt else
  b <- expect "return" ;;
  if b then returnStmt else
  b <- expect "break" ;;
  if b then emit Out.breakStmt ;;; ret None else
  b <- expect "continue" ;;
  if b then emit Out.continueStmt ;;; ret None else
  b <- match_type ["LINE_END"; "COMMENT"; "LONG_STRING"] ;;
  if negb b then reassign ;;; ret None else
  ret None.

Definition Block (addBreak : bool) : M PyVal :=
  block_lvl <- bump_level ;;
  emit Out.UpScope ;;;
  doWhile fuel (l <- get level ;; ret (Z.geb l block_lvl))
    (fun return_type =>
       res <- statement ;;
       endline fuel addBreak ;;;
       ret (py_or return_type res))
    None None.

(** *** Script grammar *)

Definition signal : M unit :=
  name <- consume ;;
  p <- expect "(" ;;
  params <-
    (if p then
       doWhile fuel (c <- expect ")" ;; ret (negb c))
         (fun params =>
            pName <- consume ;;
            t <- type_annotation ;;
            let pType := match t with Some ty => ty | None => "Variant" end in
            expect "," ;;;
            ret (dict_set params pName pType))
         None []
     else ret []) ;;
  emit (Out.define_signal name params).

Definition method (static : bool) : M unit :=
  name <- consume ;;
  expect "(" ;;;
  '(params, params_init) <-
    doWhile fuel (c <- expect ")" ;; ret (negb c))
      (fun st : list (string * string) * list (string * Gen) =>
         let '(params, params_init) := st in
         pName <- consume ;;
         pType <- type_annotation ;;
         eq <- expect "=" ;;
         '(pType, params_init) <-
           (if eq then
              '(initType, pInit) <- expression ;;
              ret (py_or pType initType, dict_set params_init pName pInit)
            else ret (pType, params_init)) ;;
         let pType := text_of (py_or pType (Some "Variant")) in
         expect "," ;;;
         ret (dict_set params pName pType, params_init))
      None ([], []) ;;
  modify (fun s =>
    set_locals
      (fold_left (fun l kv => dict_set l (fst kv) (Some (snd kv))) params (locals s)) s) ;;;
  arrow <- expect "->" ;;
  returnType <- (if arrow then t <- parseType ;; ret (Some t) else ret None) ;;
  expect ":" ;;;
  emit Out.addLayer ;;;
  blockType <- self_Block self false ;;
  let returnType := py_or returnType blockType in
  cd <- get_classData ;;
  table_set (methods cd) name returnType ;;;
  Backend.define_method name params params_init returnType static.

Definition dquote : string := String (ascii_of_nat 34) EmptyString.
Definition squote : string := String (ascii_of_nat 39) EmptyString.

(** The annotation loop of [member]; it ends on the first token that is not
    [@], or by [break] at [@on_ready]. *)
Fixpoint annotations (n : nat) (st : bool * PyVal * string)
    : M (bool * PyVal * string) :=
  match n with
  | O => timeout
  | S n' =>
      let '(onready, annotation, params) := st in
      at_ <- expect "@" ;;
      if at_ then
        o <- expect "on_ready" ;;
        if o then ret (true, annotation, params)
        else
          a <- consume ;;
          p <- expect "(" ;;
          params <-
            (if p then
               c <- consumeUntil fuel ")" "" ;;
               expect ")" ;;;
               ret (replace squote "" (replace dquote "" c))
             else ret params) ;;
          endline fuel false ;;;
          annotations n' (onready, Some a, params)
      else ret st
  end.

Definition member (static : bool) : M unit :=
  '(onready, annotation, params) <- annotations fuel (false, None, "") ;;
  constant <- expect "const" ;;
  var <- (if constant then ret true else expect "var") ;;
  if var then
    member <- consume ;;
    (if truthy annotation
     then emit (Out.annotation (text_of annotation) params member)
     else ret tt) ;;;
    declare (Some member)
      (Z.lor DECL_FLAGS.property
         (if constant then DECL_FLAGS.constant
          else if static then DECL_FLAGS.static
          else if onready then DECL_FLAGS.onready
          else DECL_FLAGS.none))
  else ret tt.

Definition enum : M unit :=
  t <- match_type ["TEXT"] ;;
  name <- (if t then consume else ret "") ;;
  definition <- consumeUntil fuel "}" "" ;;
  c <- consume ;;
  emit (Out.enum name (definition ++ c)%string).

(** The member loop of [nested_class]. *)
Definition nested_class_body (class_lvl : Z) : M unit :=
  doWhile fuel (l <- get level ;; ret (Z.geb l class_lvl))
    (fun _ => self_class_body self) None tt.

Definition nested_class : M unit :=
  class_name <- consume ;;
  e <- expect "extends" ;;
  base_class <- (if e then consume else ret "Object") ;;
  emit (Out.define_class class_name base_class false) ;;;
  expect ":" ;;;
  class_lvl <- bump_level ;;
  nested_class_body class_lvl.

Definition class_body : M unit :=
  static <- expect "static" ;;
  c <- expect "class" ;;
  (if c then nested_class else
   e <- expect "enum" ;;
   if e then enum else
   f <- expect "func" ;;
   if f then method static else
   s <- expect "signal" ;;
   if s then signal else member static) ;;;
  endline fuel false.

(** [copy(obj)] of module [copy]: a new object whose attributes are bound to
    the very objects the attributes of [obj] are bound to. *)
Definition copy (c : ClassData) : ClassData :=
  mkClassData (members c) (methods c) (constants c).

(** Modelled from the spec: [ClassData.ClassData()], the constructor of the
    class data (not part of the parser source), makes an object whose three
    tables are new and empty. *)
Definition new_ClassData : M ClassData :=
  st <- get store ;;
  let a := List.length st in
  modify (set_store (st ++ [[]; []; []])) ;;;
  ret (mkClassData a (S a) (S (S a))).

(** "panic system : drop current line if we can't parse it" *)
Definition newline : string := String "010"%char EmptyString.

Definition panic : M unit :=
  token <- get current ;;
  id <- get current_id ;;
  text <- consumeUntil fuel "LINE_END" " " ;;
  let escaped := replace newline "\n" text in
  endline fuel false ;;;
  token' <- get current ;;
  id' <- get current_id ;;
  let token := if Nat.eqb id id' then token' else token in
  emit (Out.line_comment
          ("PANIC! <" ++ escaped ++ "> unexpected at " ++ token_repr token)%string).

(** One run of the class-body loop of [transpile]:
    [for _ in self.doWhile(lambda:True): self.class_body()]. *)
Definition script_pass : M unit :=
  doWhile fuel (ret true) (fun _ => class_body) None tt.

(** The "script-level loop", [for i in range(n)] with [n = 2]. *)
Fixpoint script_loop (n : nat) : M unit :=
  match n with
  | O => ret tt
  | S n' =>
      script_pass ;;;
      eof <- match_type ["EOF"] ;;
      if eof then ret tt
      else panic ;;; script_loop n'
  end.

(** The "script start specific statements" of [transpile]: the header
    comments and the tool marker, *)
Definition script_tool : M unit :=
  endline fuel false ;;;
  at_ <- expect "@" ;;
  tool <- (if at_ then expect "tool" else ret false) ;;
  modify (set_is_tool tool) ;;;
  endline fuel false.

(** the base class, *)
Definition script_base : M unit :=
  e <- expect "extends" ;;
  base <- (if e then consume else ret "Object") ;;
  modify (set_base_class base) ;;;
  endline fuel false.

(** and the class name, the class data and the declaration of the class. *)
Definition script_class : M unit :=
  c <- expect "class_name" ;;
  name <- (if c then consume else get script_name) ;;
  modify (set_class_name name) ;;;
  base_class <- get base_class ;;
  known <- in_godot_types base_class ;;
  cd <- (if known then c <- godot_type (text_of base_class) ;; ret (copy c)
         else new_ClassData) ;;
  modify (fun s => set_classData cd (store s) s) ;;;
  is_tool <- get is_tool ;;
  emit (Out.define_class name (text_of base_class)
          (match is_tool with Some b => b | None => false end)).

Definition transpile : M unit :=
  script_tool ;;;
  script_base ;;;
  script_class ;;;
  endline fuel false ;;;
  script_loop 2 ;;;
  emit Out.end_script.

End Grammar.

(** ** Tying the recursion *)

Definition no_fuel : Self :=
  mkSelf timeout timeout timeout timeout
    (fun _ _ => timeout) (fun _ => timeout) (fun _ => timeout)
    (fun _ => timeout) timeout.

Fixpoint parser (fuel : nat) : Self :=
  match fuel with
  | O => no_fuel
  | S n =>
      let self := parser n in
      mkSelf (expression self fuel) (ternary self fuel) (boolean self fuel)
        (_arithmetic self fuel) (call self fuel) (reference self)
        (subscription self) (Block self fuel) (class_body self fuel)
  end.

(** [Parser(filename, text, transpiler)]: the lexer has turned [text] into
    [toks]; the first [advance] fails on an empty stream, as [self.current]
    does not exist yet. *)
Definition init (filename : string) (toks : list Token)
    (registry : list (string * ClassData)) (dicts : list Dict) : option Parser :=
  match toks with
  | [] => None
  | t :: r =>
      Some (mkParser filename [] r t 0%nat 0 None None None None [] registry dicts)
  end.

(** [Parser(filename, text, transpiler).transpile()] on a parser object
    that [init] has built. *)
Definition run (fuel : nat) : M unit := transpile (parser fuel) fuel.

(** * The vocabulary of the properties *)

(** ** Frame conditions

    [keeps R m]: whenever [m] returns, the parser before and after it are
    related by [R]. *)
Definition keeps {A} (R : Parser -> Parser -> Prop) (m : M A) : Prop :=
  forall s a s', m s = Ok a s' -> R s s'.

(** Three relations between the parser before and after a piece of code:
    [R1] around the first resumption of a producer, [R2] around a second
    resumption, [R3] around a statement or a class-body construct.  The laws
    say which elementary updates each of them tolerates. *)
Record frame_laws (R1 R2 R3 : Parser -> Parser -> Prop) : Prop := {
  law_R1_refl : forall s, R1 s s;
  law_R1_trans : forall a b c, R1 a b -> R1 b c -> R1 a c;
  law_R2_refl : forall s, R2 s s;
  law_R2_trans : forall a b c, R2 a b -> R2 b c -> R2 a c;
  law_R1_R2 : forall a b, R1 a b -> R2 a b;
  law_R1_token : forall ts c i s, R1 s (set_token ts c i s);
  law_R2_out : forall o s, R2 s (set_out (out s ++ [o]) s);
  law_R3_refl : forall s, R3 s s;
  law_R3_trans : forall a b c, R3 a b -> R3 b c -> R3 a c;
  law_R2_R3 : forall a b, R2 a b -> R3 a b;
  law_R3_level : forall l s, R3 s (set_level l s);
  law_R3_locals : forall k v s, R3 s (set_locals (dict_set (locals s) k v) s);
  law_R3_store : forall st s, R3 s (set_store st s);
  law_R3_is_tool : forall b s, R3 s (set_is_tool b s);
  law_R3_base_class : forall b s, R3 s (set_base_class b s);
  law_R3_class_name : forall n s, R3 s (set_class_name n s);
  law_R3_classData : forall c s, R3 s (set_classData c (store s) s)
}.

(** A suspended generator is fine when resuming it keeps [R2]; a producer
    when its first resumption keeps [R1] and leaves such a generator. *)
Definition gen_ok (R2 : Parser -> Parser -> Prop) (g : Gen) : Prop :=
  keeps R2 g.

Definition prod_ok (R1 R2 : Parser -> Parser -> Prop) (p : Producer) : Prop :=
  forall s t g s', p s = Ok (t, g) s' -> R1 s s' /\ gen_ok R2 g.

Record expr_ok (R1 R2 : Parser -> Parser -> Prop) (self : Self) : Prop := {
  ok_expression : prod_ok R1 R2 (self_expression self);
  ok_ternary : prod_ok R1 R2 (self_ternary self);
  ok_boolean : prod_ok R1 R2 (self_boolean self);
  ok__arithmetic : prod_ok R1 R2 (self__arithmetic self);
  ok_call : forall name ct, prod_ok R1 R2 (self_call self name ct);
  ok_reference : forall type, prod_ok R1 R2 (self_reference self type);
  ok_subscription : forall type, prod_ok R1 R2 (self_subscription self type)
}.
Arguments ok_expression {R1 R2 self}.
Arguments ok_ternary {R1 R2 self}.
Arguments ok_boolean {R1 R2 self}.
Arguments ok__arithmetic {R1 R2 self}.
Arguments ok_call {R1 R2 self}.
Arguments ok_reference {R1 R2 self}.
Arguments ok_subscription {R1 R2 self}.

Record stmt_ok (R1 R2 R3 : Parser -> Parser -> Prop) (self : Self) : Prop := {
  ok_expr : expr_ok R1 R2 self;
  ok_Block : forall b, keeps R3 (self_Block self b);
  ok_class_body : keeps R3 (self_class_body self)
}.
Arguments ok_expr {R1 R2 R3 self}.
Arguments ok_Block {R1 R2 R3 self}.
Arguments ok_class_body {R1 R2 R3 self}.

(** ** The frame of the parser *)

(** Everything in the parser object but the token position and the log. *)
Definition env (s : Parser) :=
  (level s, locals s, store s, classData s, godot_types s,
   (script_name s, is_tool s, base_class s, class_name s)).

(** The log only gets longer. *)
Definition grows (l l' : list Out.call_) : Prop := exists x, l' = l ++ x.

Definition first_phase (s s' : Parser) : Prop :=
  env s' = env s /\ out s' = out s.

Definition second_phase (s s' : Parser) : Prop :=
  env s' = env s /\ grows (out s) (out s').

Definition construct (s s' : Parser) : Prop :=
  grows (out s) (out s') /\
  (forall k, dict_mem (locals s) k = true -> dict_mem (locals s') k = true) /\
  godot_types s' = godot_types s.

(** A producer is two-phase when its first resumption leaves the log as it
    was and its second resumption only appends to it. *)
Definition two_phase (p : Producer) : Prop :=
  forall s t g s',
    p s = Ok (t, g) s' ->
    out s' = out s /\
    forall s1 u s2, g s1 = Ok u s2 -> grows (out s1) (out s2).

(** What the scope bookkeeping of [endline] never touches. *)
Definition fixed (s : Parser) :=
  (locals s, store s, classData s, godot_types s,
   (script_name s, is_tool s, base_class s, class_name s)).

Definition same_fixed (s s' : Parser) : Prop := fixed s' = fixed s.

(** ** What a producer yields *)

(** The outcome of a first resumption without the suspended generator. *)
Definition yielded (r : res (PyVal * Gen)) : res PyVal :=
  match r with
  | Ok (t, _) s => Ok t s
  | Raise e s => Raise e s
  | Timeout => Timeout
  end.

Definition first_resumption (p : Producer) (s : Parser) : PyVal * Gen * Parser :=
  match p s with
  | Ok (t, g) s' => (t, g, s')
  | _ => (None, ret tt, s)
  end.

(** Both resumptions in a row: the yielded type and the final state. *)
Definition both_resumptions (p : Producer) (s : Parser) : res PyVal :=
  match p s with
  | Ok (t, g) s1 =>
      match g s1 with
      | Ok _ s2 => Ok t s2
      | Raise e s2 => Raise e s2
      | Timeout => Timeout
      end
  | Raise e s1 => Raise e s1
  | Timeout => Timeout
  end.

(** ** Arithmetic chains of literals *)

(** A literal token and the type [value] gives it; an INT or a FLOAT whose
    text [int] or [float] refuses is none: [value] raises on it. *)
Definition literal_type (t : Token) : option string :=
  if String.eqb (tok_type t) "INT"
  then match py_int (tok_value t) with Some _ => Some "int" | None => None end
  else if String.eqb (tok_type t) "FLOAT"
  then match py_float (tok_value t) with Some _ => Some "float" | None => None end
  else if in_values (tok_value t) ["true"; "false"] then Some "bool"
  else if String.eqb (tok_type t) "LONG_STRING" then Some "string"
  else if String.eqb (tok_type t) "STRING" then Some "string"
  else None.

(** The tokens [op1 lit1 op2 lit2 ...] that continue a chain. *)
Definition is_operator (t : Token) : Prop :=
  tok_type t = "ARITHMETIC" /\ tok_value t <> "".

Fixpoint chain_tokens (c : list (Token * Token)) : list Token :=
  match c with
  | [] => []
  | (op, lit) :: r => op :: lit :: chain_tokens r
  end.

Definition chain_ok (c : list (Token * Token)) : Prop :=
  Forall (fun ol => is_operator (fst ol) /\ literal_type (snd ol) <> None) c.

(** The state after [k] tokens have been consumed. *)
Fixpoint skip (k : nat) (s : Parser) : Parser :=
  match k with
  | O => s
  | S k' => skip k' (next_token s)
  end.

(** ** Operands that open a bracket *)






(** ** Declarations *)

(** What [declare] leaves behind for a declaration of [name] with [type]:
    a class-scope declaration is in the member table of the class data and
    was signalled with the constant and static flags; a method-scope one is
    in the locals. *)
Definition recorded (name type : string) (flags : Z) (s s' : Parser) : Prop :=
  if flag_set flags DECL_FLAGS.property then
    exists cd,
      classData s = Some cd /\
      ((members cd < length (store s))%nat ->
         dict_lookup (table (store s') (members cd)) name = Some (Some type)) /\
      locals s' = locals s /\
      exists l,
        out s' = out s ++
          Out.declare_property type name
            (Z.land flags DECL_FLAGS.constant) (Z.land flags DECL_FLAGS.static)
          :: l
  else
    dict_lookup (locals s') name = Some (Some type) /\
    store s' = store s /\
    exists l, out s' = out s ++ Out.declare_variable type name :: l.

(** The keywords with which [statement] declares, and the flags it passes
    to [declare] for each. *)
Definition declaring_keyword (kw : string) (flags : Z) : Prop :=
  (kw = "var" /\ flags = DECL_FLAGS.none) \/
  (kw = "const" /\ flags = DECL_FLAGS.constant).

(** ** Panic comments *)

(** The panic comments of a log. *)
Definition is_panic (c : Out.call_) : bool :=
  match c with
  | Out.line_comment m => String.prefix "PANIC! <" m
  | _ => false
  end.

Definition panics (l : list Out.call_) : nat := length (filter is_panic l).

(** ** Concrete scripts *)

(** The float that a text stands for. *)
Definition double (text : string) : float :=
  match py_float text with
  | Some f => f
  | None => SpecFloat.S754_nan
  end.

(** Tokens by kind. *)
Definition TEXT := mkToken "TEXT".
Definition INT := mkToken "INT".
Definition FLOAT := mkToken "FLOAT".
Definition STRING := mkToken "STRING".
Definition ARITHMETIC := mkToken "ARITHMETIC".
Definition LINE_END := mkToken "LINE_END".
(** A punctuation token has its text as its kind. *)
Definition punct (v : string) := mkToken v v.

(** A registry with the global scope and two classes; [Node] has one member. *)
Definition Object_data := mkClassData 3 4 5.
Definition Node_data := mkClassData 6 7 8.

Definition registry : list (string * ClassData) :=
  [("@GlobalScope", mkClassData 0 1 2); ("Object", Object_data);
   ("Node", Node_data)].

Definition tables : list Dict :=
  [[]; []; []; []; []; []; [("name", Some "String")]; []; []].

(** The parser inside a method of a script that extends [Object], at token
    [t] with [ts] to come. *)
Definition in_method (t : Token) (ts : list Token) : Parser :=
  mkParser "script" [] ts t 0 1 (Some false) (Some "Object") (Some "script")
    (Some (copy Object_data)) [] registry tables.

(** [for i in 5: pass], after the keyword [for]. *)
Definition for_int : Parser :=
  in_method (TEXT "i")
    [TEXT "in"; INT "5"; punct ":"; LINE_END "2"; TEXT "pass"; LINE_END "0"].

(** [var x: int = 5.0] as a class member: the annotation wins. *)
Definition member_x : Parser :=
  mkParser "script" [] [TEXT "int"; punct "="; FLOAT "5.0"; LINE_END "0"]
    (punct ":") 2 0 (Some false) (Some "Object") (Some "script")
    (Some (copy Object_data)) [] registry tables.

(** [var x = 5.0] as a statement of a method. *)
Definition local_x : Parser :=
  in_method (TEXT "var") [TEXT "x"; punct "="; FLOAT "5.0"; LINE_END "0"].



(** A script with neither [extends] nor [class_name]. *)
Definition plain_script : Parser :=
  mkParser "script" [] [TEXT "x"; LINE_END "0"] (TEXT "var") 0 0
    None None None None [] registry tables.

(** Two unparsable top-level lines, then a valid member:
<<
var a
foo zip
var b
bar
var c
>> *)
Definition two_stuck_lines : list Token :=
  [TEXT "var"; TEXT "a"; LINE_END "0";
   TEXT "foo"; TEXT "zip"; LINE_END "0";
   TEXT "var"; TEXT "b"; LINE_END "0";
   TEXT "bar"; LINE_END "0";
   TEXT "var"; TEXT "c"; LINE_END "0"].

(** A script that extends a registry class and declares a member:
<<
extends Node
var foo = 1
>> *)
Definition extends_Node : list Token :=
  [TEXT "extends"; TEXT "Node"; LINE_END "0";
   TEXT "var"; TEXT "foo"; punct "="; INT "1"; LINE_END "0"].

(** * Further vocabulary *)

(** ** Token runs *)

(** [consumeUntil token] stops at a token whose text or kind is [token]. *)
Definition stops_at (token : string) (t : Token) : bool :=
  (String.eqb (tok_value t) token || String.eqb (tok_type t) token)%bool.

(** The tokens before the first one at which [consumeUntil token] stops. *)
Fixpoint before (token : string) (ts : list Token) : list Token :=
  match ts with
  | [] => []
  | t :: r => if stops_at token t then [] else t :: before token r
  end.

(** The token position of the parser. *)
Definition position (s : Parser) := (tokens s, current s, current_id s).

(** The tokens that [endline] skips. *)
Definition blank (t : Token) : bool :=
  in_values (tok_type t) ["LINE_END"; "COMMENT"; "LONG_STRING"].

(** A line end carries its indentation as a decimal number. *)
Definition line_end_ok (t : Token) : Prop :=
  tok_type t = "LINE_END" -> py_int (tok_value t) <> None.

(** The scopes a piece of the log closes. *)
Definition is_DownScope (c : Out.call_) : bool :=
  match c with Out.DownScope => true | _ => false end.

Definition closed (l : list Out.call_) : Z :=
  Z.of_nat (length (filter is_DownScope l)).

(** The log is extended by calls that close as many scopes as the level
    drops. *)
Definition closes (s s' : Parser) : Prop :=
  exists x, out s' = out s ++ x /\ level s' = level s - closed x.

(** ** Tokens at which no expression starts *)

(** A token that starts no expression, continues none and closes no bracket;
    the token at the end of the stream is one. *)
Definition inert (t : Token) : bool :=
  (negb (in_values (tok_type t)
           ["UNARY"; "INT"; "FLOAT"; "LONG_STRING"; "STRING"; "TEXT";
            "ARITHMETIC"; "COMPARISON"]) &&
   negb (in_values (tok_value t)
           ["true"; "false"; "["; "{"; "("; "$"; "%"; "as"; "if";
            ","; ":"; ")"; "]"; "}"]))%bool.

(** ** Scopes *)

(** Every name that is in [locals] before is in it after. *)
Definition keeps_locals (s s' : Parser) : Prop :=
  forall k, dict_mem (locals s) k = true -> dict_mem (locals s') k = true.

(** ** Runs *)

(** The parser a computation ends with, [d] when it does not return. *)
Definition final {A} (r : res A) (d : Parser) : Parser :=
  match r with Ok _ s => s | _ => d end.

(** The generator a producer leaves suspended. *)
Definition suspended (p : Producer) (s : Parser) : Gen :=
  snd (fst (first_resumption p s)).

(** A comment token. *)
Definition COMMENT := mkToken "COMMENT".

(** The parser at the first token [t] of a script, with [ts] to come. *)
Definition at_start (t : Token) (ts : list Token) : Parser :=
  mkParser "script" [] ts t 0 0 None None None None [] registry tables.

(** ** Comments *)

(** The call by which [endline] hands a token on to the backend: none for a
    line end, a line comment for a comment, a multi-line comment for
    anything else it skips (a long string). *)
Definition comment_of (t : Token) : list Out.call_ :=
  if String.eqb (tok_type t) "LINE_END" then []
  else if String.eqb (tok_type t) "COMMENT" then [Out.line_comment (tok_value t)]
  else [Out.multiline_comment (tok_value t)].

(** The tokens [endline] skips: the blank ones in front. *)
Fixpoint blanks (ts : list Token) : list Token :=
  match ts with
  | [] => []
  | t :: r => if blank t then t :: blanks r else []
  end.

Definition is_comment (c : Out.call_) : bool :=
  match c with
  | Out.line_comment _ | Out.multiline_comment _ => true
  | _ => false
  end.

(** The comments of a log. *)
Definition comments (l : list Out.call_) : list Out.call_ := filter is_comment l.

(** ** What a chain of literals emits *)

(** The call the backend receives for a literal token. *)
Definition literal_call (t : Token) : list Out.call_ :=
  if String.eqb (tok_type t) "INT"
  then match py_int (tok_value t) with
       | Some z => [Out.literal (LInt z)]
       | None => []
       end
  else if String.eqb (tok_type t) "FLOAT"
  then match py_float (tok_value t) with
       | Some val => [Out.literal (LFloat val)]
       | None => []
       end
  else if in_values (tok_value t) ["true"; "false"]
  then [Out.literal (LBool (String.eqb (tok_value t) "true"))]
  else if String.eqb (tok_type t) "LONG_STRING"
  then [Out.literal (LStr (tok_value t))]
  else if String.eqb (tok_type t) "STRING"
  then [Out.literal (LStr (tok_value t))]
  else [].

(** The calls for [op1 lit1 op2 lit2 ...], in the order of the tokens. *)
Fixpoint chain_calls (c : list (Token * Token)) : list Out.call_ :=
  match c with
  | [] => []
  | (op, lit) :: r =>
      Out.operator (tok_value op) :: literal_call lit ++ chain_calls r
  end.

(** A generator that does nothing but hand the calls [l] to the backend. *)
Definition emits (g : Gen) (l : list Out.call_) : Prop :=
  forall s, g s = Ok tt (set_out (out s ++ l) s).

(** * Proofs *)

(** ** Dictionaries *)

Section DictFacts.
Context {V : Type}.

Lemma dict_lookup_set_same (d : list (string * V)) k v : dict_lookup (dict_set d k v) k = Some v.
Proof.
  induction d as [|[k' v'] r IH]; simpl.
  - now rewrite String.eqb_refl.
  - destruct (String.eqb k k') eqn:E; simpl; rewrite E; auto.
Qed.

Lemma dict_lookup_set_other (d : list (string * V)) k k' v :
  k' <> k -> dict_lookup (dict_set d k v) k' = dict_lookup d k'.
Proof.
  intros Hne. induction d as [|[k0 v0] r IH]; simpl.
  - destruct (String.eqb k' k) eqn:E; auto.
    apply String.eqb_eq in E. contradiction.
  - destruct (String.eqb k k0) eqn:E; simpl.
    + apply String.eqb_eq in E; subst k0.
      destruct (String.eqb k' k) eqn:E'; auto.
      apply String.eqb_eq in E'. contradiction.
    + destruct (String.eqb k' k0); auto.
Qed.

Lemma dict_mem_set (d : list (string * V)) k k' v :
  dict_mem d k' = true -> dict_mem (dict_set d k v) k' = true.
Proof.
  unfold dict_mem. intros H.
  destruct (String.eqb k' k) eqn:E.
  - apply String.eqb_eq in E; subst. now rewrite dict_lookup_set_same.
  - apply String.eqb_neq in E. now rewrite dict_lookup_set_other.
Qed.

End DictFacts.

(** ** Reasoning about monadic code *)

Lemma bind_Ok {A B} (m : M A) (f : A -> M B) s b s' :
  bind m f s = Ok b s' -> exists a s1, m s = Ok a s1 /\ f a s1 = Ok b s'.
Proof.
  unfold bind. destruct (m s) as [a s1| |]; try discriminate. eauto.
Qed.

Lemma ret_Ok {A} (a b : A) s s' : ret a s = Ok b s' -> a = b /\ s = s'.
Proof. unfold ret. intros H. inversion H. auto. Qed.

Lemma get_Ok {A} (f : Parser -> A) a s s' : get f s = Ok a s' -> a = f s /\ s' = s.
Proof. unfold get. intros H. inversion H. auto. Qed.

Lemma modify_Ok f a s s' : modify f s = Ok a s' -> s' = f s.
Proof. unfold modify. intros H. inversion H. auto. Qed.

(** The token utilities are total; these equations run them. *)
Lemma in_values_one v x : in_values v [x] = String.eqb v x.
Proof. unfold in_values. simpl. apply orb_false_r. Qed.

Lemma expect_eq token s :
  expect token s =
  if String.eqb (tok_value (current s)) token
  then Ok true (next_token s) else Ok false s.
Proof.
  unfold expect, match_value, advance, bind, get, modify, ret.
  rewrite in_values_one. now destruct (String.eqb _ _).
Qed.

Lemma consume_eq s : consume s = Ok (tok_value (current s)) (next_token s).
Proof. reflexivity. Qed.

Lemma match_type_eq types s :
  match_type types s = Ok (in_values (tok_type (current s)) types) s.
Proof. reflexivity. Qed.

Lemma match_value_eq values s :
  match_value values s = Ok (in_values (tok_value (current s)) values) s.
Proof. reflexivity. Qed.

Lemma emit_eq c s : emit c s = Ok tt (set_out (out s ++ [c]) s).
Proof. reflexivity. Qed.

Lemma bind_eq {A B} (m : M A) (f : A -> M B) s a s1 :
  m s = Ok a s1 -> bind m f s = f a s1.
Proof. unfold bind. now intros ->. Qed.


Ltac split_eq H :=
  lazymatch type of H with
  | (_, _) = (_, _) => inversion H; clear H; subst
  | ?x = ?y => first [subst x | subst y | idtac]
  | _ => idtac
  end.

(** Decompose a hypothesis [m s = Ok a s'] along the structure of [m]. *)
Ltac minv H :=
  cbn beta iota zeta delta [fst snd] in H;
  lazymatch type of H with
  | bind _ _ _ = Ok _ _ =>
      let a := fresh "a" in
      let s := fresh "s" in
      let H1 := fresh "H" in
      apply bind_Ok in H; destruct H as (a & s & H1 & H);
      minv H1; minv H
  | ret _ _ = Ok _ _ =>
      let E := fresh in
      apply ret_Ok in H; destruct H as [H E]; split_eq H; subst
  | get _ _ = Ok _ _ =>
      let E := fresh in
      apply get_Ok in H; destruct H as [H E]; split_eq H; subst
  | raise _ _ = Ok _ _ => discriminate H
  | timeout _ = Ok _ _ => discriminate H
  | (if ?b then _ else _) _ = Ok _ _ =>
      let E := fresh "E" in destruct b eqn:E; minv H
  | (match ?x with _ => _ end) _ = Ok _ _ =>
      let E := fresh "E" in destruct x eqn:E; minv H
  | _ => idtac
  end.

Ltac unfold_utils H :=
  unfold parseType, this_, passthrough, emitComments,
    Backend.ifStmt, Backend.elifStmt, Backend.whileStmt, Backend.forStmt,
    Backend.returnStmt, Backend.assignment, Backend.subexpression,
    Backend.subscription, Backend.call, Backend.constructor, Backend.ternary,
    Backend.create_array, Backend.create_dict in H;
  unfold expect, consume, table_get, table_mem, in_godot_types,
    get_classData, godot_type in H;
  unfold match_type, match_value in H.

Ltac mrun H := unfold_utils H; minv H.

Ltac chain R_refl R_trans :=
  solve [ apply R_refl
        | eassumption
        | eapply R_trans; [eassumption | chain R_refl R_trans] ].

(** A loop keeps what its condition and its body keep. *)
Lemma doWhile_preserves {A} (R : Parser -> Parser -> Prop)
    (cond : M bool) (body : A -> M A) :
  (forall s, R s s) -> (forall a b c, R a b -> R b c -> R a c) ->
  keeps R cond -> (forall a, keeps R (body a)) ->
  forall n last a, keeps R (doWhile n cond body last a).
Proof.
  intros Hrefl Htrans Hc Hb.
  induction n as [|n IH]; intros last a s r s' H; simpl in H.
  - discriminate H.
  - minv H;
      repeat match goal with
             | K : cond _ = Ok _ _ |- _ => apply Hc in K
             | K : body _ _ = Ok _ _ |- _ => apply Hb in K
             | K : doWhile _ _ _ _ _ _ = Ok _ _ |- _ => apply IH in K
             end;
      chain Hrefl Htrans.
Qed.

Section Frames.
Variables R1 R2 R3 : Parser -> Parser -> Prop.
Hypothesis laws : frame_laws R1 R2 R3.

Local Lemma R1_refl : forall s, R1 s s.
Proof. apply laws. Qed.
Local Lemma R1_trans : forall a b c, R1 a b -> R1 b c -> R1 a c.
Proof. apply laws. Qed.
Local Lemma R2_refl : forall s, R2 s s.
Proof. apply laws. Qed.
Local Lemma R2_trans : forall a b c, R2 a b -> R2 b c -> R2 a c.
Proof. apply laws. Qed.
Local Lemma R1_R2 : forall a b, R1 a b -> R2 a b.
Proof. apply laws. Qed.
Local Lemma R1_token : forall ts c i s, R1 s (set_token ts c i s).
Proof. apply laws. Qed.
Local Lemma R2_out : forall o s, R2 s (set_out (out s ++ [o]) s).
Proof. apply laws. Qed.
Local Lemma R3_refl : forall s, R3 s s.
Proof. apply laws. Qed.
Local Lemma R3_trans : forall a b c, R3 a b -> R3 b c -> R3 a c.
Proof. apply laws. Qed.
Local Lemma R2_R3 : forall a b, R2 a b -> R3 a b.
Proof. apply laws. Qed.
Local Lemma R3_level : forall l s, R3 s (set_level l s).
Proof. apply laws. Qed.
Local Lemma R3_locals :
  forall k v s, R3 s (set_locals (dict_set (locals s) k v) s).
Proof. apply laws. Qed.
Local Lemma R3_store : forall st s, R3 s (set_store st s).
Proof. apply laws. Qed.
Local Lemma R3_is_tool : forall b s, R3 s (set_is_tool b s).
Proof. apply laws. Qed.
Local Lemma R3_base_class : forall b s, R3 s (set_base_class b s).
Proof. apply laws. Qed.
Local Lemma R3_class_name : forall n s, R3 s (set_class_name n s).
Proof. apply laws. Qed.
Local Lemma R3_classData : forall c s, R3 s (set_classData c (store s) s).
Proof. apply laws. Qed.

Lemma advance_keeps : keeps R1 advance.
Proof.
  intros s a s' H. unfold advance in H. apply modify_Ok in H. subst.
  unfold next_token. destruct (tokens s); apply R1_token.
Qed.

Lemma emit_keeps c : keeps R2 (emit c).
Proof.
  intros s a s' H. unfold emit in H. apply modify_Ok in H. subst.
  apply R2_out.
Qed.

Ltac to_R2 :=
  repeat match goal with
         | K : R1 _ _ |- _ => apply R1_R2 in K
         end.

Ltac to_R3 :=
  to_R2;
  repeat match goal with
         | K : R2 _ _ |- _ => apply R2_R3 in K
         end.

Ltac done1 := chain R1_refl R1_trans.
Ltac done2 := to_R2; chain R2_refl R2_trans.
Ltac done3 := to_R3; chain R3_refl R3_trans.

Section Rules.
Variable self : Self.
Variable fuel : nat.
Hypothesis Hself : expr_ok R1 R2 self.

(** What a completed call tells about its two states. *)
Ltac use0 H :=
  first [ apply advance_keeps in H
        | apply emit_keeps in H
        | apply (ok_expression Hself) in H; destruct H
        | apply (ok_ternary Hself) in H; destruct H
        | apply (ok_boolean Hself) in H; destruct H
        | apply (ok__arithmetic Hself) in H; destruct H
        | apply (ok_call Hself) in H; destruct H
        | apply (ok_reference Hself) in H; destruct H
        | apply (ok_subscription Hself) in H; destruct H ].

Ltac facts_with use :=
  repeat match goal with
         | H : gen_ok R2 ?g, K : ?g _ = Ok _ _ |- _ => apply H in K
         | H : _ = Ok _ _ |- _ => use H
         end.

Ltac gen_with use :=
  let s := fresh "s" in let a := fresh "a" in
  let s' := fresh "s" in let H := fresh "H" in
  intros s a s' H; mrun H; facts_with use; done2.

Ltac producer_with use :=
  let s := fresh "s" in let t := fresh "t" in let g := fresh "g" in
  let s' := fresh "s" in let H := fresh "H" in
  intros s t g s' H; mrun H; facts_with use; (split; [done1 | try assumption; try gen_with use]).

Lemma reference_ok type : prod_ok R1 R2 (reference self type).
Proof. unfold reference. producer_with use0. Qed.

Lemma subscription_ok type : prod_ok R1 R2 (subscription self type).
Proof. unfold subscription. producer_with use0. Qed.

Lemma textCode_ok : prod_ok R1 R2 (textCode self).
Proof. unfold textCode. producer_with use0. Qed.

Lemma resume_all_ok gs : Forall (gen_ok R2) gs -> keeps R2 (resume_all gs).
Proof.
  induction 1 as [|g r Hg Hr IH]; intros s a s' H; simpl in H; mrun H;
    facts_with use0.
  - done2.
  - apply IH in H. done2.
Qed.

Lemma call_params_ok n : forall acc s l s',
  Forall (gen_ok R2) acc -> call_params self n acc s = Ok l s' ->
  R1 s s' /\ Forall (gen_ok R2) l.
Proof.
  induction n as [|n IH]; intros acc s l s' Hacc H; simpl in H; mrun H;
    facts_with use0.
  all: try (apply IH in H; [destruct H | apply Forall_app; split; auto]).
  all: split; [done1 | assumption].
Qed.

Ltac use1 H :=
  first [ use0 H
        | apply (call_params_ok _ _ _ _ _ (Forall_nil _)) in H; destruct H
        | match goal with
          | F : Forall (gen_ok R2) ?l |- _ => apply (resume_all_ok _ F) in H
          end ].

Lemma call_ok name ct : prod_ok R1 R2 (call self fuel name ct).
Proof. unfold call. producer_with use1. Qed.

Lemma array_iter_ok n : keeps R2 (array_iter self n (fun val => val)).
Proof.
  induction n as [|n IH]; intros s a s' H; simpl in H; mrun H; facts_with use0.
  all: try apply IH in H; done2.
Qed.

Lemma dict_iter_ok n :
  keeps R2 (dict_iter self n (fun kv => fst kv ;;; snd kv)).
Proof.
  induction n as [|n IH]; intros s a s' H; simpl in H; mrun H; facts_with use0.
  all: try apply IH in H; done2.
Qed.

Lemma resume_one_ok g : gen_ok R2 g -> keeps R2 (resume_all [g]).
Proof. intros Hg. apply resume_all_ok. auto. Qed.

Ltac use2 H :=
  first [ use0 H
        | apply array_iter_ok in H
        | apply dict_iter_ok in H
        | apply textCode_ok in H; destruct H
        | apply resume_one_ok in H; [| gen_with use0] ].

Lemma value_ok : prod_ok R1 R2 (value self fuel).
Proof. unfold value. producer_with use2. Qed.

Ltac use3 H := first [ use0 H | apply value_ok in H; destruct H ].

Lemma _arithmetic_ok : prod_ok R1 R2 (_arithmetic self fuel).
Proof. unfold _arithmetic. producer_with use3. Qed.

Ltac use4 H := first [ use0 H | apply _arithmetic_ok in H; destruct H ].

Lemma arithmetic_ok : prod_ok R1 R2 (arithmetic self fuel).
Proof. unfold arithmetic. producer_with use4. Qed.

Ltac use5 H := first [ use0 H | apply arithmetic_ok in H; destruct H ].

Lemma boolean_ok : prod_ok R1 R2 (boolean self fuel).
Proof. unfold boolean. producer_with use5. Qed.

Ltac use6 H := first [ use0 H | apply boolean_ok in H; destruct H ].

Lemma ternary_ok : prod_ok R1 R2 (ternary self fuel).
Proof. unfold ternary. producer_with use6. Qed.

Ltac use7 H := first [ use0 H | apply ternary_ok in H; destruct H ].

Lemma expression_ok : prod_ok R1 R2 (expression self fuel).
Proof. unfold expression. producer_with use7. Qed.

Ltac use8 H := first [ use0 H | apply expression_ok in H; destruct H ].

Lemma assignment_ok name : prod_ok R1 R2 (assignment self fuel name).
Proof. unfold assignment. producer_with use8. Qed.

End Rules.

(** *** Statements and class-body constructs *)

Lemma doWhile_keeps {A} (cond : M bool) (body : A -> M A) :
  keeps R3 cond -> (forall a, keeps R3 (body a)) ->
  forall n last a, keeps R3 (doWhile n cond body last a).
Proof. apply doWhile_preserves; [apply R3_refl | apply R3_trans]. Qed.

Lemma set_locals_twice l l' s : set_locals l (set_locals l' s) = set_locals l s.
Proof. destruct s; reflexivity. Qed.

Lemma R3_locals_fold (params : list (string * string)) : forall s,
  R3 s (set_locals
          (fold_left (fun l kv => dict_set l (fst kv) (Some (snd kv)))
             params (locals s)) s).
Proof.
  induction params as [|[k v] r IH]; intros s; simpl.
  - destruct s; apply R3_refl.
  - eapply R3_trans; [apply (R3_locals k (Some v) s)|].
    specialize (IH (set_locals (dict_set (locals s) k (Some v)) s)).
    rewrite set_locals_twice in IH. exact IH.
Qed.

Ltac use_modify H :=
  lazymatch type of H with
  | modify _ ?s = Ok _ ?s' =>
      let K := fresh "K" in
      assert (K : R3 s s')
        by (apply modify_Ok in H; subst s';
            first [ apply R3_level | apply R3_locals | apply R3_store
                  | apply R3_is_tool | apply R3_base_class
                  | apply R3_class_name | apply R3_classData
                  | apply R3_locals_fold ]);
      clear H
  end.

Ltac unfold_stmt H :=
  unfold type_annotation, declare_emit in H;
  unfold bump_level, table_set, new_ClassData in H.

Lemma downscopes_keeps n : forall first addBreak,
  keeps R3 (downscopes n first addBreak).
Proof.
  induction n as [|n IH]; intros first addBreak s a s' H; simpl in H; minv H;
    repeat match goal with
           | K : emit _ _ = Ok _ _ |- _ => apply emit_keeps in K
           | K : modify _ _ = Ok _ _ |- _ => use_modify K
           | K : downscopes _ _ _ _ = Ok _ _ |- _ => apply IH in K
           end;
    done3.
Qed.

Section Statements.
Variable self : Self.
Variable fuel : nat.
Hypothesis Hself : stmt_ok R1 R2 R3 self.

Ltac sfacts_with use :=
  repeat match goal with
         | H : gen_ok R2 ?g, K : ?g _ = Ok _ _ |- _ => apply H in K
         | H : modify _ _ = Ok _ _ |- _ => use_modify H
         | H : _ = Ok _ _ |- _ => use H
         end.

Ltac suse0 H :=
  first [ apply advance_keeps in H
        | apply emit_keeps in H
        | apply downscopes_keeps in H
        | apply (ok_Block Hself) in H
        | apply (ok_class_body Hself) in H
        | apply (ok_boolean (ok_expr Hself)) in H; destruct H
        | apply (boolean_ok _ _ (ok_expr Hself)) in H; destruct H
        | apply (expression_ok _ _ (ok_expr Hself)) in H; destruct H
        | apply (assignment_ok _ _ (ok_expr Hself)) in H; destruct H ].

Ltac keeps_with use :=
  let s := fresh "s" in let a := fresh "a" in
  let s' := fresh "s" in let H := fresh "H" in
  intros s a s' H; unfold_stmt H; mrun H; sfacts_with use; done3.

Ltac loop_with use :=
  match goal with
  | H : doWhile _ _ _ _ _ _ = Ok _ _ |- _ =>
      apply doWhile_keeps in H;
      [ | keeps_with use | intros ?; keeps_with use ]
  end.

Lemma endline_body_keeps addBreak st : keeps R3 (endline_body addBreak st).
Proof. unfold endline_body. destruct st. keeps_with suse0. Qed.

Lemma endline_keeps addBreak : keeps R3 (endline fuel addBreak).
Proof.
  unfold endline. intros s a s' H. mrun H.
  apply doWhile_keeps in H0.
  - sfacts_with suse0. done3.
  - keeps_with suse0.
  - intros. apply endline_body_keeps.
Qed.

Lemma consumeUntil_keeps token sep : keeps R3 (consumeUntil fuel token sep).
Proof.
  unfold consumeUntil. intros s a s' H. mrun H.
  all: loop_with suse0; done3.
Qed.

Ltac suse1 H :=
  first [ suse0 H
        | apply endline_keeps in H
        | apply consumeUntil_keeps in H ].

Lemma declare_keeps name flags : keeps R3 (declare self fuel name flags).
Proof. unfold declare. keeps_with suse1. Qed.

Lemma reassign_keeps : keeps R3 (reassign self fuel).
Proof. unfold reassign. keeps_with suse1. Qed.

Lemma returnStmt_keeps : keeps R3 (returnStmt self fuel).
Proof. unfold returnStmt. keeps_with suse1. Qed.

Lemma elifs_keeps n : forall type, keeps R3 (elifs self fuel n type).
Proof.
  induction n as [|n IH]; intros type s a s' H; simpl in H; mrun H;
    sfacts_with suse1.
  all: try apply IH in H; done3.
Qed.

Ltac suse2 H := first [ suse1 H | apply elifs_keeps in H ].

Lemma ifStmt_keeps : keeps R3 (ifStmt self fuel).
Proof. unfold ifStmt. keeps_with suse2. Qed.

Lemma whileStmt_keeps : keeps R3 (whileStmt self fuel).
Proof. unfold whileStmt. keeps_with suse1. Qed.

Lemma forStmt_keeps : keeps R3 (forStmt self fuel).
Proof. unfold forStmt. keeps_with suse1. Qed.

Lemma matchStmt_keeps : keeps R3 (matchStmt self fuel).
Proof.
  unfold matchStmt, Backend.matchStmt, evaluated, cases.
  intros s a s' H. unfold_stmt H. mrun H; sfacts_with suse1;
    loop_with suse1; done3.
Qed.

Ltac suse3 H :=
  first [ suse1 H
        | apply declare_keeps in H | apply reassign_keeps in H
        | apply returnStmt_keeps in H | apply ifStmt_keeps in H
        | apply whileStmt_keeps in H | apply forStmt_keeps in H
        | apply matchStmt_keeps in H ].

Lemma statement_keeps : keeps R3 (statement self fuel).
Proof. unfold statement. keeps_with suse3. Qed.

Ltac suse4 H := first [ suse1 H | apply statement_keeps in H ].

Lemma Block_keeps addBreak : keeps R3 (Block self fuel addBreak).
Proof.
  unfold Block. intros s a s' H. unfold_stmt H. mrun H; sfacts_with suse1;
    loop_with suse4; done3.
Qed.

Lemma signal_keeps : keeps R3 (signal fuel).
Proof.
  unfold signal. intros s a s' H. unfold_stmt H. mrun H; sfacts_with suse1;
    try loop_with suse1; done3.
Qed.

Lemma params_init_ok (params_init : list (string * Gen)) k g :
  Forall (gen_ok R2) (map snd params_init) -> gen_ok R2 g ->
  Forall (gen_ok R2) (map snd (dict_set params_init k g)).
Proof.
  intros H Hg. induction params_init as [|[k' g'] r IH]; simpl.
  - auto.
  - inversion H; subst. destruct (String.eqb k k'); simpl; auto.
Qed.

(** The parameter loop of [method], with what it keeps true of the
    initializers it collects. *)
Lemma method_params_ok (cond : M bool) body :
  keeps R3 cond ->
  (forall st s st' s', Forall (gen_ok R2) (map snd (snd st)) ->
     body st s = Ok st' s' ->
     R3 s s' /\ Forall (gen_ok R2) (map snd (snd st'))) ->
  forall n last (st : list (string * string) * list (string * Gen)) s st' s',
    Forall (gen_ok R2) (map snd (snd st)) ->
    doWhile n cond body last st s = Ok st' s' ->
    R3 s s' /\ Forall (gen_ok R2) (map snd (snd st')).
Proof.
  intros Hc Hb. induction n as [|n IH]; intros last st s st' s' Hst H;
    simpl in H.
  - discriminate H.
  - minv H;
      repeat match goal with
             | K : cond _ = Ok _ _ |- _ => apply Hc in K
             | K : body _ _ = Ok _ _ |- _ =>
                 apply Hb in K; [destruct K | assumption]
             | K : doWhile _ _ _ _ _ _ = Ok _ _ |- _ =>
                 apply IH in K; [destruct K | assumption]
             end;
      (split; [done3 | assumption]).
Qed.

Lemma method_keeps static : keeps R3 (method self fuel static).
Proof.
  unfold method, Backend.define_method. intros s a s' H. unfold_stmt H. mrun H.
  all: match goal with
       | H : doWhile _ _ _ _ _ _ = Ok _ _ |- _ =>
           apply method_params_ok in H;
           [ destruct H | keeps_with suse1 | | simpl; auto ]
       end.
  all: cbn [fst snd] in *.
  all: try (sfacts_with suse1;
            repeat match goal with
                   | F : Forall (gen_ok R2) ?l, K : resume_all ?l _ = Ok _ _ |- _ =>
                       apply (resume_all_ok _ F) in K
                   end;
            done3).
  all: intros [params params_init] sa [params2 params_init2] sb Hst Hb;
    unfold_stmt Hb; mrun Hb; sfacts_with suse1; simpl in *;
    (split; [done3 | try assumption; apply params_init_ok; assumption]).
Qed.

Ltac suse5 H := first [ suse1 H | apply declare_keeps in H ].

Lemma annotations_keeps n : forall st, keeps R3 (annotations fuel n st).
Proof.
  induction n as [|n IH]; intros [[onready annotation] params] s a s' H;
    simpl in H; mrun H; sfacts_with suse1.
  all: try apply IH in H; done3.
Qed.

Ltac suse6 H := first [ suse5 H | apply annotations_keeps in H ].

Lemma member_keeps static : keeps R3 (member self fuel static).
Proof. unfold member. keeps_with suse6. Qed.

Lemma enum_keeps : keeps R3 (enum fuel).
Proof. unfold enum. keeps_with suse1. Qed.

Lemma nested_class_keeps : keeps R3 (nested_class self fuel).
Proof.
  unfold nested_class, nested_class_body. intros s a s' H. unfold_stmt H. mrun H.
  all: sfacts_with suse1; loop_with suse1; done3.
Qed.

Ltac suse7 H :=
  first [ suse1 H
        | apply nested_class_keeps in H | apply enum_keeps in H
        | apply method_keeps in H | apply signal_keeps in H
        | apply member_keeps in H ].

Lemma class_body_keeps : keeps R3 (class_body self fuel).
Proof. unfold class_body. keeps_with suse7. Qed.

Ltac suse8 H := first [ suse1 H | apply class_body_keeps in H ].

Lemma panic_keeps : keeps R3 (panic fuel).
Proof. unfold panic. keeps_with suse1. Qed.

Lemma script_loop_keeps n : keeps R3 (script_loop self fuel n).
Proof.
  induction n as [|n IH]; intros s a s' H; simpl in H; unfold script_pass in H;
    mrun H.
  all: try loop_with suse8.
  all: repeat match goal with
              | K : panic _ _ = Ok _ _ |- _ => apply panic_keeps in K
              | K : script_loop _ _ _ _ = Ok _ _ |- _ => apply IH in K
              end; done3.
Qed.

Lemma script_tool_keeps : keeps R3 (script_tool fuel).
Proof. unfold script_tool. keeps_with suse1. Qed.

Lemma script_base_keeps : keeps R3 (script_base fuel).
Proof. unfold script_base. keeps_with suse1. Qed.

Lemma script_class_keeps : keeps R3 script_class.
Proof. unfold script_class, copy. keeps_with suse1. Qed.

Lemma transpile_keeps : keeps R3 (transpile self fuel).
Proof.
  unfold transpile. intros s a s' H. mrun H.
  repeat match goal with
         | K : script_tool _ _ = Ok _ _ |- _ => apply script_tool_keeps in K
         | K : script_base _ _ = Ok _ _ |- _ => apply script_base_keeps in K
         | K : script_class _ = Ok _ _ |- _ => apply script_class_keeps in K
         | K : script_loop _ _ _ _ = Ok _ _ |- _ => apply script_loop_keeps in K
         end.
  sfacts_with suse1. done3.
Qed.

End Statements.

Lemma parser_expr_ok n : expr_ok R1 R2 (parser n).
Proof.
  induction n as [|n IH].
  - split; intros; intros s t g s' H; discriminate H.
  - simpl. split; simpl; intros.
    + now apply expression_ok.
    + now apply ternary_ok.
    + now apply boolean_ok.
    + now apply _arithmetic_ok.
    + now apply call_ok.
    + now apply reference_ok.
    + now apply subscription_ok.
Qed.

Lemma parser_stmt_ok n : stmt_ok R1 R2 R3 (parser n).
Proof.
  induction n as [|n IH].
  - split; [apply parser_expr_ok| |]; intros; intros s t s' H; discriminate H.
  - split; [apply parser_expr_ok| |]; simpl; intros.
    + now apply Block_keeps.
    + now apply class_body_keeps.
Qed.

End Frames.

(** ** The frame of the parser *)

Lemma grows_refl l : grows l l.
Proof. exists []. now rewrite app_nil_r. Qed.

Lemma grows_trans a b c : grows a b -> grows b c -> grows a c.
Proof. intros [x ->] [y ->]. exists (x ++ y). now rewrite app_assoc. Qed.

Lemma construct_intro s s' :
  out s' = out s -> locals s' = locals s -> godot_types s' = godot_types s ->
  construct s s'.
Proof.
  intros Ho Hl Hg. split; [|split].
  - rewrite Ho. apply grows_refl.
  - intros k. now rewrite Hl.
  - exact Hg.
Qed.

Lemma parser_frame : frame_laws first_phase second_phase construct.
Proof.
  split; intros.
  - split; reflexivity.
  - destruct H, H0. split; congruence.
  - split; [reflexivity | apply grows_refl].
  - destruct H, H0. split; [congruence | eauto using grows_trans].
  - destruct H as [? Ho]. split; [assumption | rewrite Ho; apply grows_refl].
  - destruct s; split; reflexivity.
  - destruct s; split; [reflexivity | eexists; reflexivity].
  - now apply construct_intro.
  - destruct H as (? & ? & ?), H0 as (? & ? & ?).
    split; [|split]; [eauto using grows_trans | auto | congruence].
  - destruct H as [E G]. unfold env in E. inversion E.
    split; [|split]; [assumption | | assumption].
    intros k. now rewrite H1.
  - destruct s; now apply construct_intro.
  - destruct s; split; [|split]; simpl; [apply grows_refl | | reflexivity].
    intros k'. apply dict_mem_set.
  - destruct s; now apply construct_intro.
  - destruct s; now apply construct_intro.
  - destruct s; now apply construct_intro.
  - destruct s; now apply construct_intro.
  - destruct s; now apply construct_intro.
Qed.

Lemma producers_frame n : expr_ok first_phase second_phase (parser n).
Proof. exact (parser_expr_ok _ _ _ parser_frame n). Qed.

Lemma constructs_frame n : stmt_ok first_phase second_phase construct (parser n).
Proof. exact (parser_stmt_ok _ _ _ parser_frame n). Qed.

Lemma prod_ok_two_phase p : prod_ok first_phase second_phase p -> two_phase p.
Proof.
  intros Hp s t g s' H. apply Hp in H. destruct H as [[_ Ho] Hg].
  split; [exact Ho|]. intros s1 u s2 H. apply Hg in H. apply H.
Qed.

(** C6. Every expression producer is two-phase: whenever the first
    resumption of [ternary], [boolean], [arithmetic], [_arithmetic], [value],
    [textCode], [call], [reference], [subscription], [assignment] or
    [expression] yields, on any input, it has made no call on the backend
    (the log is what it was); the calls are made when the producer is resumed
    again, and they are only appended to the log. *)
Theorem first_resumption_emits_nothing (n fuel : nat) :
  two_phase (ternary (parser n) fuel) /\
  two_phase (boolean (parser n) fuel) /\
  two_phase (arithmetic (parser n) fuel) /\
  two_phase (_arithmetic (parser n) fuel) /\
  two_phase (value (parser n) fuel) /\
  two_phase (textCode (parser n)) /\
  (forall name calling_type, two_phase (call (parser n) fuel name calling_type)) /\
  (forall type, two_phase (reference (parser n) type)) /\
  (forall type, two_phase (subscription (parser n) type)) /\
  (forall onreadyName, two_phase (assignment (parser n) fuel onreadyName)) /\
  two_phase (expression (parser n) fuel).
Proof.
  pose proof (producers_frame n) as Hn.
  pose proof parser_frame as L.
  repeat apply conj; intros; apply prod_ok_two_phase.
  - now apply (ternary_ok _ _ _ L).
  - now apply (boolean_ok _ _ _ L).
  - now apply (arithmetic_ok _ _ _ L).
  - now apply (_arithmetic_ok _ _ _ L).
  - now apply (value_ok _ _ _ L).
  - now apply (textCode_ok _ _ _ L).
  - now apply (call_ok _ _ _ L).
  - now apply (reference_ok _ _ _ L).
  - now apply (subscription_ok _ _ _ L).
  - now apply (assignment_ok _ _ _ L).
  - now apply (expression_ok _ _ _ L).
Qed.

(** ** What a producer yields *)

(** C7. The first resumption of [ternary] yields exactly what the first
    resumption of its true branch (the leading [boolean]) yields, and stops
    where that one stops: the condition and the false branch have not been
    read, so the type of [a if cond else b] is the type of [a] whatever the
    type of [b]. *)
Theorem ternary_yields_true_branch_type (self : Self) (fuel : nat) (s : Parser) :
  yielded (ternary self fuel s) = yielded (boolean self fuel s).
Proof.
  unfold ternary, bind.
  destruct (boolean self fuel s) as [[t valTrue] s1| |]; reflexivity.
Qed.

Lemma py_or_truthy a d : truthy d = true -> truthy (py_or a d) = true.
Proof. unfold py_or. destruct (truthy a) eqn:E; auto. Qed.

Lemma truthy_text v : truthy v = true -> exists t, v = Some t /\ t <> "".
Proof.
  destruct v as [[|c t]|]; try discriminate. intros _.
  eexists; split; [reflexivity | discriminate].
Qed.

(** ** Arithmetic chains *)

(** One step of [_arithmetic]: without an operator the operand's type, with
    an operator the type of what follows it. *)
Lemma _arithmetic_step (self : Self) (fuel : nat) (s : Parser)
    (value_type : PyVal) (value1 : Gen) (s1 : Parser) :
  value self fuel s = Ok (value_type, value1) s1 ->
  (in_values (tok_type (current s1)) ["ARITHMETIC"] = false ->
     _arithmetic self fuel s = Ok (value_type, value1) s1) /\
  (forall right_type value2 s2,
     in_values (tok_type (current s1)) ["ARITHMETIC"] = true ->
     tok_value (current s1) <> "" ->
     self__arithmetic self (next_token s1) = Ok (right_type, value2) s2 ->
     _arithmetic self fuel s =
       Ok (right_type,
           value1 ;;; emit (Out.operator (tok_value (current s1))) ;;; value2) s2).
Proof.
  intros H.
  split; [intros E | intros right_type value2 s2 E Hop Hr];
    unfold _arithmetic; rewrite (bind_eq _ _ _ _ _ H);
    unfold bind at 1; rewrite match_type_eq; cbv beta iota; rewrite E.
  - reflexivity.
  - unfold bind at 1. unfold bind at 1. rewrite consume_eq. cbn [ret].
    destruct (tok_value (current s1)) as [|c op] eqn:E'; [contradiction|].
    cbn [truthy]. rewrite (bind_eq _ _ _ _ _ Hr). reflexivity.
Qed.



Lemma next_token_cons s t r :
  tokens s = t :: r ->
  current (next_token s) = t /\ tokens (next_token s) = r.
Proof. unfold next_token. intros ->. destruct s; auto. Qed.

Lemma next_token_nil s :
  tokens s = [] -> current (next_token s) = EOF.
Proof. unfold next_token. intros ->. destruct s; auto. Qed.



(** ** Skipping tokens *)

Lemma next_token_env s : env (next_token s) = env s /\ out (next_token s) = out s.
Proof. unfold next_token. destruct s, tokens; split; reflexivity. Qed.

Lemma skip_env k : forall s, env (skip k s) = env s /\ out (skip k s) = out s.
Proof.
  induction k as [|k IH]; intros s; simpl; [split; reflexivity|].
  destruct (IH (next_token s)) as [-> ->]. apply next_token_env.
Qed.

Lemma env_fields s s' :
  env s' = env s ->
  locals s' = locals s /\ store s' = store s /\ classData s' = classData s /\
  godot_types s' = godot_types s.
Proof. unfold env. intros H. inversion H. auto. Qed.

Lemma skip_tokens k : forall s pre rest,
  length pre = S k -> tokens s = pre ++ rest ->
  current (skip (S k) s) = last pre EOF /\ tokens (skip (S k) s) = rest.
Proof.
  induction k as [|k IH]; intros s pre rest Hl Ht.
  - destruct pre as [|t [|? ?]]; try discriminate. simpl in *.
    now apply next_token_cons.
  - destruct pre as [|t pre]; [discriminate|]. simpl in Hl, Ht.
    destruct (next_token_cons _ _ _ Ht) as [_ Ht'].
    injection Hl as Hl.
    destruct (IH (next_token s) pre rest Hl Ht') as [Hc Hr].
    change (skip (S (S k)) s) with (skip (S k) (next_token s)).
    rewrite Hc, Hr. split; [|reflexivity].
    destruct pre; [discriminate|reflexivity].
Qed.

(** ** Operands in brackets *)













(** ** Bare names *)

(** C4, as amended. A leading [self.] does not disable the singleton
    interpretation.  For [self.Name] where [Name] is a registry class and is
    not found among the members, the locals and the global constants, the
    resolved type is [Name] itself; a lone access yields it and emits [this]
    and a variable reference, and an access continued by [.] resolves the
    chain from type [Name] and emits [this] and a singleton reference. *)
Theorem self_qualifier_keeps_singleton (self : Self) (s : Parser)
    (dot nm nxt : Token) (rest : list Token) (cd g0 : ClassData) :
  let name := tok_value nm in
  tok_value (current s) = "self" ->
  tokens s = dot :: nm :: nxt :: rest ->
  tok_value dot = "." ->
  dict_mem (godot_types s) name = true ->
  classData s = Some cd ->
  dict_lookup (godot_types s) "@GlobalScope" = Some g0 ->
  truthy (dict_get (table (store s) (members cd)) name) = false ->
  truthy (dict_get (locals s) name) = false ->
  truthy (dict_get (table (store s) (constants g0)) name) = false ->
  (in_values (tok_value nxt) ["("; "."; "["] = false ->
     exists g,
       textCode self s = Ok (Some name, g) (skip 3 s) /\
       forall s', g s' = Ok tt (set_out (out s' ++ [Out.this; Out.variable name]) s')) /\
  (tok_value nxt = "." ->
     forall t reference s4,
       self_reference self (Some name) (skip 4 s) = Ok (t, reference) s4 ->
       exists g,
         textCode self s = Ok (t, g) s4 /\
         forall s', g s' =
           reference (set_out (out s' ++ [Out.this; Out.singleton name]) s')).
Proof.
  intros name Hself Htok Hdot Hreg Hcd Hglob Hmem Hloc Hconst.
  destruct (skip_tokens 0 s [dot] (nm :: nxt :: rest) eq_refl Htok) as [C1 T1].
  destruct (skip_tokens 1 s [dot; nm] (nxt :: rest) eq_refl Htok) as [C2 T2].
  destruct (skip_tokens 2 s [dot; nm; nxt] rest eq_refl Htok) as [C3 T3].
  simpl last in C1, C2, C3.
  destruct (env_fields _ _ (proj1 (skip_env 3 s))) as (L3 & S3 & D3 & G3).
  assert (Hhead :
    textCode self s =
    ((par <- expect "(" ;;
      if par then
        '(t, call) <- self_call self name None ;;
        ret (t, this_ true ;;; call)
      else
        dot <- expect "." ;;
        if dot then
          '(t, reference) <- self_reference self (Some name) ;;
          ret (t, this_ true ;;;
                  emit (Out.singleton name) ;;;
                  reference)
        else
          sub <- expect "[" ;;
          if sub then
            '(t, s) <- self_subscription self (Some name) ;;
            ret (t, this_ true ;;; emit (Out.variable name) ;;; s)
          else ret (Some name, this_ true ;;; emit (Out.variable name)))
       (skip 3 s))).
  { unfold textCode.
    unfold bind at 1. rewrite consume_eq. cbv beta iota.
    rewrite Hself. simpl (String.eqb "self" "self"). cbv beta iota.
    unfold bind at 1. rewrite expect_eq.
    change (skip 1 s) with (next_token s) in C1. rewrite C1, Hdot.
    simpl (String.eqb "." "."). cbv beta iota.
    unfold bind at 1. rewrite consume_eq. cbv beta iota.
    change (skip 2 s) with (next_token (next_token s)) in C2. rewrite C2.
    fold name.
    change (next_token (next_token (next_token s))) with (skip 3 s).
    assert (E1 : in_godot_types (Some name) (skip 3 s) = Ok true (skip 3 s)).
    { unfold in_godot_types, bind, get, ret. now rewrite G3, Hreg. }
    rewrite (bind_eq _ _ _ _ _ E1).
    assert (E2 : get_classData (skip 3 s) = Ok cd (skip 3 s)).
    { unfold get_classData, bind, get, ret. now rewrite D3, Hcd. }
    rewrite (bind_eq _ _ _ _ _ E2).
    unfold bind at 1. unfold bind at 1. unfold table_get at 1, get at 1.
    rewrite S3, Hmem.
    unfold bind at 1. unfold get at 1. rewrite L3, Hloc.
    unfold bind at 1. unfold godot_type at 1, bind at 1, get at 1.
    rewrite G3, Hglob. cbn [ret].
    unfold bind at 1. unfold table_get at 1, get at 1. rewrite S3, Hconst.
    cbn [ret]. reflexivity. }
  rewrite Hhead. clear Hhead.
  split.
  - intros Hnxt. unfold in_values in Hnxt. simpl in Hnxt.
    apply orb_false_iff in Hnxt. destruct Hnxt as [N1 Hnxt].
    apply orb_false_iff in Hnxt. destruct Hnxt as [N2 Hnxt].
    apply orb_false_iff in Hnxt. destruct Hnxt as [N3 _].
    eexists. split.
    + unfold bind at 1. rewrite expect_eq, C3, N1.
      unfold bind at 1. rewrite expect_eq, C3, N2.
      unfold bind at 1. rewrite expect_eq, C3, N3.
      reflexivity.
    + intros s'. unfold this_, bind, emit, modify. destruct s'; simpl.
      now rewrite <- app_assoc.
  - intros Hnxt t reference s4 Href.
    assert (N1 : String.eqb (tok_value nxt) "(" = false) by now rewrite Hnxt.
    eexists. split.
    + unfold bind at 1. rewrite expect_eq, C3, N1.
      unfold bind at 1. rewrite expect_eq, C3, Hnxt.
      simpl (String.eqb "." "."). cbv beta iota.
      change (next_token (skip 3 s)) with (skip 4 s).
      rewrite (bind_eq _ _ _ _ _ Href). reflexivity.
    + intros s'. unfold this_, bind, emit, modify. destruct s'; simpl.
      now rewrite <- app_assoc.
Qed.

(** ** Declarations and loop variables *)

Lemma out_set_out o s : out (set_out o s) = o.
Proof. destruct s; reflexivity. Qed.

Lemma env_set_out o s : env (set_out o s) = env s.
Proof. destruct s; reflexivity. Qed.

Lemma out_set_locals l s : out (set_locals l s) = out s.
Proof. destruct s; reflexivity. Qed.

Lemma locals_set_out o s : locals (set_out o s) = locals s.
Proof. destruct s; reflexivity. Qed.

Lemma locals_set_locals l s : locals (set_locals l s) = l.
Proof. destruct s; reflexivity. Qed.

Lemma expect_first_phase token s b s' :
  expect token s = Ok b s' -> first_phase s s'.
Proof.
  rewrite expect_eq. destruct (String.eqb _ _); intros H; inversion H; subst.
  - split; apply next_token_env.
  - split; reflexivity.
Qed.

(** C5, what [forStmt] does. In [for name in <expr>] the type of the loop
    variable is the inferred type of the expression with ['[]'] removed
    ([int[]] gives [int]); the removal is not guarded, so that a type
    without ['[]'] is kept as it is and never replaced by the unknown type.
    The variable is in [locals] with that type when the body block is
    parsed, is still in [locals] when the loop is over, and no later
    statement removes it. *)
Theorem for_loop_variable (n fuel : nat) (s : Parser)
    (exp_type : PyVal) (exp : Gen) (s0 s1 s2 : Parser) :
  let name := tok_value (current s) in
  expect "in" (next_token s) = Ok true s0 ->
  expression (parser n) fuel s0 = Ok (exp_type, exp) s1 ->
  let iterator_type := replace "[]" "" (text_of exp_type) in
  exp (set_out (out s1 ++ [Out.forStmt name iterator_type])
         (set_locals (dict_set (locals s1) name (Some iterator_type)) s1))
    = Ok tt s2 ->
  exists s3,
    forStmt (parser n) fuel s = self_Block (parser n) false s3 /\
    locals s3 = dict_set (locals s) name (Some iterator_type) /\
    (forall type s', forStmt (parser n) fuel s = Ok type s' ->
       dict_mem (locals s') name = true) /\
    (forall s' type s'',
       dict_mem (locals s') name = true ->
       statement (parser n) fuel s' = Ok type s'' ->
       dict_mem (locals s'') name = true).
Proof.
  intros name Hin Hexp iterator_type Hrun.
  pose proof parser_frame as L.
  pose proof (producers_frame n) as Pn.
  pose proof (constructs_frame n) as Cn.
  destruct (expect ":" s2) as [colon s3| |] eqn:Ecolon;
    try (rewrite expect_eq in Ecolon; destruct (String.eqb _ _); discriminate).
  exists s3.
  assert (Hfor : forStmt (parser n) fuel s = self_Block (parser n) false s3).
  { unfold forStmt. unfold bind at 1. rewrite consume_eq. cbv beta iota.
    rewrite (bind_eq _ _ _ _ _ Hin).
    rewrite (bind_eq _ _ _ _ _ Hexp).
    unfold bind at 1. unfold modify at 1.
    unfold Backend.forStmt. unfold bind at 1. unfold bind at 1.
    rewrite emit_eq. cbv beta iota.
    fold name. fold iterator_type. rewrite out_set_locals, Hrun.
    rewrite (bind_eq _ _ _ _ _ Ecolon). reflexivity. }
  assert (Hloc : locals s3 = dict_set (locals s) name (Some iterator_type)).
  { apply expect_first_phase in Ecolon, Hin.
    apply (expression_ok _ _ _ L _ _ Pn) in Hexp. destruct Hexp as [Hexp Hgen].
    apply Hgen in Hrun.
    destruct Ecolon as [E3 _], Hin as [E0 _], Hexp as [E1 _], Hrun as [E2 _].
    rewrite env_set_out in E2.
    apply env_fields in E3, E0, E1. destruct E3 as [-> _].
    pose proof (proj1 (next_token_env s)) as En. apply env_fields in En.
    destruct E0 as [E0 _], E1 as [E1 _], En as [En _].
    unfold env in E2. inversion E2 as [[Hl2 Hls Hst Hcd Hgt Hrest]].
    rewrite Hls. congruence. }
  repeat apply conj; auto.
  - intros type s' H. rewrite Hfor in H.
    apply (ok_Block Cn) in H. destruct H as (_ & Hm & _).
    apply Hm. unfold dict_mem. rewrite Hloc, dict_lookup_set_same. reflexivity.
  - intros s' type s'' Hm H.
    apply (statement_keeps _ _ _ L _ _ Cn) in H. destruct H as (_ & Hm' & _).
    now apply Hm'.
Qed.

Lemma type_annotation_first_phase s a s' :
  type_annotation s = Ok a s' -> first_phase s s'.
Proof.
  pose proof parser_frame as L.
  intros H. unfold type_annotation in H. mrun H;
    repeat match goal with
           | K : advance _ = Ok _ _ |- _ => apply (advance_keeps _ _ _ L) in K
           end;
    chain (law_R1_refl _ _ _ L) (law_R1_trans _ _ _ L).
Qed.

Lemma table_store_update st a f :
  (a < length st)%nat -> table (store_update st a f) a = f (table st a).
Proof.
  revert a. induction st as [|d st IH]; intros [|a] H; simpl in *; try lia.
  - reflexivity.
  - apply IH. lia.
Qed.

Lemma declare_emit_recorded name type flags s s' :
  declare_emit name type flags s = Ok tt s' ->
  recorded name type flags s s' /\ grows (out s) (out s').
Proof.
  unfold declare_emit, recorded. destruct (flag_set flags DECL_FLAGS.property).
  - unfold get_classData, table_set, bind, get, modify, emit, ret.
    destruct (classData s) as [cd|] eqn:Ecd; [|discriminate].
    intros H. inversion H; subst. clear H. split.
    + exists cd. destruct s; simpl in *. repeat apply conj; auto.
      * intros Hlt. rewrite table_store_update by assumption.
        apply dict_lookup_set_same.
      * exists []. reflexivity.
    + destruct s; simpl. eexists; reflexivity.
  - unfold bind, modify, emit. intros H. inversion H; subst. clear H.
    destruct s; simpl. repeat apply conj; auto.
    + apply dict_lookup_set_same.
    + exists []. reflexivity.
    + eexists; reflexivity.
Qed.

Lemma recorded_second_phase name type flags s s1 s2 :
  recorded name type flags s s1 -> second_phase s1 s2 ->
  recorded name type flags s s2.
Proof.
  unfold recorded. intros H [E [x G]]. apply env_fields in E.
  destruct E as (El & Es & Ec & Eg).
  destruct (flag_set flags DECL_FLAGS.property).
  - destruct H as (cd & Hcd & Ht & Hl & l & Ho). exists cd.
    repeat apply conj; auto.
    + rewrite Es. exact Ht.
    + congruence.
    + exists (l ++ x). rewrite G, Ho. rewrite <- app_assoc. reflexivity.
  - destruct H as (Hl & Hs & l & Ho). repeat apply conj.
    + now rewrite El.
    + congruence.
    + exists (l ++ x). rewrite G, Ho. rewrite <- app_assoc. reflexivity.
Qed.

Lemma recorded_first_phase name type flags s0 s s' :
  first_phase s0 s -> recorded name type flags s s' ->
  recorded name type flags s0 s'.
Proof.
  unfold recorded. intros [E Ho] H. apply env_fields in E.
  destruct E as (El & Es & Ec & Eg).
  destruct (flag_set flags DECL_FLAGS.property).
  - destruct H as (cd & Hcd & Ht & Hl & l & Hout). exists cd.
    repeat apply conj; auto; try congruence.
    + rewrite <- Es. exact Ht.
    + exists l. congruence.
  - destruct H as (Hl & Hs & l & Hout). repeat apply conj; auto.
    + congruence.
    + exists l. congruence.
Qed.

(** [member] always passes the [property] flag, [statement] never does. *)
Lemma declare_flags_scope :
  Forall (fun f => flag_set (Z.lor DECL_FLAGS.property f) DECL_FLAGS.property = true)
    [DECL_FLAGS.constant; DECL_FLAGS.static; DECL_FLAGS.onready; DECL_FLAGS.none] /\
  flag_set DECL_FLAGS.none DECL_FLAGS.property = false /\
  flag_set DECL_FLAGS.constant DECL_FLAGS.property = false.
Proof. repeat constructor. Qed.

Lemma statement_declares (self : Self) (fuel : nat) (s0 : Parser) (flags : Z) :
  declaring_keyword (tok_value (current s0)) flags ->
  statement self fuel s0 =
    (declare self fuel None flags ;;; ret None) (next_token s0) /\
  flag_set flags DECL_FLAGS.property = false.
Proof.
  intros [[Hk ->]|[Hk ->]]; (split; [|reflexivity]); unfold statement.
  - unfold bind at 1. rewrite expect_eq, Hk. cbn [String.eqb Ascii.eqb Bool.eqb].
    cbv beta iota.
    unfold bind at 1. rewrite expect_eq, Hk. reflexivity.
  - unfold bind at 1. rewrite expect_eq, Hk. cbn [String.eqb Ascii.eqb Bool.eqb].
    cbv beta iota.
    unfold bind at 1. rewrite expect_eq, Hk. cbn [String.eqb Ascii.eqb Bool.eqb].
    cbv beta iota.
    unfold bind at 1. rewrite expect_eq, Hk. reflexivity.
Qed.

Lemma declare_name_eq (self : Self) (fuel : nat) (given : PyVal) (flags : Z)
    (s : Parser) :
  declare self fuel given flags s =
  (let name := if truthy given then text_of given else tok_value (current s) in
   type <- type_annotation ;;
   eq <- expect "=" ;;
   ass <- (if eq then
             a <- assignment self fuel
                    (if flag_set flags DECL_FLAGS.onready then Some name else None) ;;
             ret (Some a)
           else ret None) ;;
   let type :=
     match ass with
     | Some (ass_type, _) => py_or type ass_type
     | None => type
     end in
   let type := text_of (py_or type (Some "Variant")) in
   declare_emit name type flags ;;;
   (match ass with Some (_, ass) => ass | None => ret tt end) ;;;
   emit Out.end_statement)
    (if truthy given then s else next_token s).
Proof.
  unfold declare. unfold bind at 1.
  destruct (truthy given).
  - reflexivity.
  - rewrite consume_eq. reflexivity.
Qed.

(** C8. [declare] declares the name it is given, which is the member that
    [member] has read, or else the name it reads itself, which is the name
    behind the [var] or [const] of a statement.  Without initializer it
    records and emits the annotation, or [Variant] when there is none; with
    an initializer, the annotation if there is one (the type of the
    initializer is ignored) and else the type of the initializer.  With the
    [property] flag (a class member) the type is put in the member table of
    the class data and [declare_property] carries [flags & constant] and
    [flags & static]; without it, and so for every [var] and [const]
    statement, the type is put in [locals] and [declare_variable] is
    emitted. *)
Theorem declare_records_type (n fuel : nat) (given : PyVal) (flags : Z)
    (s : Parser) (annotation : PyVal) (s1 : Parser) :
  let name := if truthy given then text_of given else tok_value (current s) in
  type_annotation (if truthy given then s else next_token s) = Ok annotation s1 ->
  (* neither an initializer ... *)
  (tok_value (current s1) <> "=" ->
     let type := text_of (py_or annotation (Some "Variant")) in
     forall s2,
       declare_emit name type flags s1 = Ok tt s2 ->
       exists s',
         declare (parser n) fuel given flags s = Ok tt s' /\
         recorded name type flags s s' /\
         (annotation = None -> type = "Variant")) /\
  (* ... or an initializer, whose type yields to the annotation *)
  (tok_value (current s1) = "=" ->
     forall ass_type ass s2 s3 s4,
       assignment (parser n) fuel
         (if flag_set flags DECL_FLAGS.onready then Some name else None)
         (next_token s1) = Ok (ass_type, ass) s2 ->
       let type := text_of (py_or (py_or annotation ass_type) (Some "Variant")) in
       declare_emit name type flags s2 = Ok tt s3 ->
       ass s3 = Ok tt s4 ->
       exists s',
         declare (parser n) fuel given flags s = Ok tt s' /\
         recorded name type flags s s' /\
         (truthy annotation = true -> Some type = annotation) /\
         (truthy annotation = false -> truthy ass_type = true ->
            Some type = ass_type)) /\
  (* a [var] or [const] statement is this declaration of the name behind
     the keyword, and goes to [locals] *)
  (forall s0 s',
     given = None ->
     next_token s0 = s ->
     declaring_keyword (tok_value (current s0)) flags ->
     declare (parser n) fuel given flags s = Ok tt s' ->
     statement (parser n) fuel s0 = Ok None s' /\
     flag_set flags DECL_FLAGS.property = false /\
     locals s0 = locals s /\ store s0 = store s /\ out s0 = out s).
Proof.
  intros name Hann.
  pose proof parser_frame as L.
  pose proof (producers_frame n) as Pn.
  pose proof (type_annotation_first_phase _ _ _ Hann) as F1.
  assert (F0 : first_phase s (if truthy given then s else next_token s)).
  { destruct (truthy given); [apply L|].
    destruct (next_token_env s) as [E O]. split; congruence. }
  split; [|split].
  - intros Hne type s2 Hemit.
    exists (set_out (out s2 ++ [Out.end_statement]) s2).
    repeat apply conj.
    + rewrite declare_name_eq. cbv zeta. fold name.
      rewrite (bind_eq _ _ _ _ _ Hann).
      unfold bind at 1. rewrite expect_eq.
      apply String.eqb_neq in Hne. rewrite Hne. cbv beta iota.
      unfold bind at 1. unfold ret at 1. cbv beta iota zeta.
      fold type. rewrite (bind_eq _ _ _ _ _ Hemit).
      reflexivity.
    + apply declare_emit_recorded in Hemit. destruct Hemit as [Hrec _].
      apply (recorded_first_phase _ _ _ _ _ _ F0).
      apply (recorded_first_phase _ _ _ _ _ _ F1).
      apply (recorded_second_phase _ _ _ _ _ _ Hrec).
      split; [apply env_set_out | rewrite out_set_out; eexists; reflexivity].
    + intros ->. reflexivity.
  - intros Heq ass_type ass s2 s3 s4 Hass type Hemit Hrun.
    exists (set_out (out s4 ++ [Out.end_statement]) s4).
    repeat apply conj.
    + rewrite declare_name_eq. cbv zeta. fold name.
      rewrite (bind_eq _ _ _ _ _ Hann).
      unfold bind at 1. rewrite expect_eq.
      apply String.eqb_eq in Heq. rewrite Heq. cbv beta iota.
      unfold bind at 1. rewrite (bind_eq _ _ _ _ _ Hass).
      unfold ret at 1. cbv beta iota zeta.
      fold type. rewrite (bind_eq _ _ _ _ _ Hemit).
      rewrite (bind_eq _ _ _ _ _ Hrun).
      reflexivity.
    + apply (assignment_ok _ _ _ L _ _ Pn) in Hass. destruct Hass as [F2 Hgen].
      apply Hgen in Hrun.
      apply declare_emit_recorded in Hemit. destruct Hemit as [Hrec _].
      apply (recorded_first_phase _ _ _ _ _ _ F0).
      apply (recorded_first_phase _ _ _ _ _ _ F1).
      assert (F3 : first_phase s1 s2).
      { destruct F2 as [E2 O2]. destruct (next_token_env s1) as [E1 O1].
        split; congruence. }
      apply (recorded_first_phase _ _ _ _ _ _ F3).
      apply (recorded_second_phase _ _ _ _ s3).
      * apply (recorded_second_phase _ _ _ _ _ _ Hrec). apply L.
      * destruct Hrun as [E G]. split.
        -- rewrite env_set_out. exact E.
        -- rewrite out_set_out. destruct G as [x G]. exists (x ++ [Out.end_statement]).
           rewrite G, <- app_assoc. reflexivity.
    + intros Ht. unfold type. destruct annotation as [[|c a]|]; try discriminate.
      reflexivity.
    + intros Ht Ha. unfold type.
      destruct annotation as [[|c a]|]; try discriminate;
        destruct ass_type as [[|c' a']|]; try discriminate; reflexivity.
  - intros s0 s' -> Hs0 Hkw Hdecl.
    destruct (statement_declares (parser n) fuel s0 flags Hkw) as [Hst Hfl].
    rewrite Hst, Hs0. unfold bind at 1. rewrite Hdecl.
    destruct (next_token_env s0) as [E O]. apply env_fields in E.
    rewrite <- Hs0. repeat split; try easy; symmetry; apply E.
Qed.

(** ** The script driver *)

Lemma grows_cons (l l' : list Out.call_) c :
  grows (l ++ [c]) l' -> exists x, l' = l ++ c :: x.
Proof. intros [x ->]. exists x. now rewrite <- app_assoc. Qed.

Lemma script_rest_keeps n fuel :
  keeps construct
    (endline fuel false ;;; script_loop (parser n) fuel 2 ;;; emit Out.end_script).
Proof.
  pose proof parser_frame as L.
  pose proof (constructs_frame n) as Cn.
  intros s a s' H. minv H.
  repeat match goal with
         | K : endline _ _ _ = Ok _ _ |- _ => apply (endline_keeps _ _ _ L) in K
         | K : script_loop _ _ _ _ = Ok _ _ |- _ =>
             apply (script_loop_keeps _ _ _ L _ _ Cn) in K
         | K : emit _ _ = Ok _ _ |- _ =>
             apply (emit_keeps _ _ _ L) in K; apply (law_R2_R3 _ _ _ L) in K
         end.
  chain (law_R3_refl _ _ _ L) (law_R3_trans _ _ _ L).
Qed.

Lemma same_fixed_trans a b c : same_fixed a b -> same_fixed b c -> same_fixed a c.
Proof. unfold same_fixed. congruence. Qed.

Ltac fixed_facts :=
  repeat match goal with
         | K : advance _ = Ok _ _ |- _ =>
             apply modify_Ok in K; subst
         | K : emit _ _ = Ok _ _ |- _ =>
             apply modify_Ok in K; subst
         | K : modify _ _ = Ok _ _ |- _ =>
             apply modify_Ok in K; subst
         end.

Lemma fixed_next_token s : fixed (next_token s) = fixed s.
Proof. unfold next_token. destruct s, tokens; reflexivity. Qed.

Lemma fixed_set_out o s : fixed (set_out o s) = fixed s.
Proof. destruct s; reflexivity. Qed.

Lemma fixed_set_level l s : fixed (set_level l s) = fixed s.
Proof. destruct s; reflexivity. Qed.

Lemma downscopes_fixed n : forall first addBreak,
  keeps same_fixed (downscopes n first addBreak).
Proof.
  induction n as [|n IH]; intros first addBreak s a s' H; simpl in H; minv H.
  - reflexivity.
  - apply IH in H. fixed_facts. unfold same_fixed in *.
    rewrite H. now rewrite !fixed_set_out, fixed_set_level, !fixed_set_out.
  - apply IH in H. fixed_facts. unfold same_fixed in *.
    rewrite H. now rewrite !fixed_set_out, fixed_set_level.
Qed.

Lemma endline_body_fixed addBreak st : keeps same_fixed (endline_body addBreak st).
Proof.
  destruct st as [lvl jumped]. intros s a s' H. unfold endline_body in H.
  mrun H;
    repeat match goal with
           | K : downscopes _ _ _ _ = Ok _ _ |- _ => apply downscopes_fixed in K
           end;
    fixed_facts; unfold same_fixed in *;
    repeat first [ rewrite fixed_set_out | rewrite fixed_next_token
                 | match goal with K : fixed _ = fixed _ |- _ => rewrite K; clear K end ];
    reflexivity.
Qed.

Lemma endline_fixed fuel addBreak s s' :
  endline fuel addBreak s = Ok tt s' -> fixed s' = fixed s.
Proof.
  intros H. unfold endline in H. minv H.
  apply (doWhile_preserves same_fixed) in H0.
  - fixed_facts. rewrite fixed_set_out. exact H0.
  - reflexivity.
  - apply same_fixed_trans.
  - intros s1 b s2 K. rewrite match_type_eq in K. inversion K. reflexivity.
  - intros st. apply endline_body_fixed.
Qed.

(** C10. Without [extends] the base class is [Object]: the script's
    [define_class] carries base [Object], also in the log of the finished
    transpilation, and the class data is a copy of the registry's [Object]
    entry when there is one (fresh empty tables otherwise); a nested class
    without [extends] is declared with base [Object] too. *)
Theorem base_class_defaults_to_Object (n fuel : nat) :
  (forall s s1 s2,
     script_tool fuel s = Ok tt s1 ->
     tok_value (current s1) <> "extends" ->
     endline fuel false (set_base_class "Object" s1) = Ok tt s2 ->
     exists name tool cd s3,
       transpile (parser n) fuel s =
         (endline fuel false ;;; script_loop (parser n) fuel 2 ;;;
          emit Out.end_script) s3 /\
       base_class s3 = Some "Object" /\
       out s3 = out s2 ++ [Out.define_class name "Object" tool] /\
       classData s3 = Some cd /\
       match dict_lookup (godot_types s2) "Object" with
       | Some c => cd = copy c /\ store s3 = store s2
       | None =>
           cd = mkClassData (length (store s2)) (S (length (store s2)))
                  (S (S (length (store s2)))) /\
           store s3 = store s2 ++ [[]; []; []]
       end /\
       forall s',
         transpile (parser n) fuel s = Ok tt s' ->
         exists l, out s' = out s2 ++ Out.define_class name "Object" tool :: l) /\
  (forall s,
     tok_value (current (next_token s)) <> "extends" ->
     exists class_lvl s1,
       nested_class (parser n) fuel s =
         nested_class_body (parser n) fuel class_lvl s1 /\
       out s1 = out s ++ [Out.define_class (tok_value (current s)) "Object" false] /\
       forall s',
         nested_class (parser n) fuel s = Ok tt s' ->
         exists l,
           out s' = out s ++
             Out.define_class (tok_value (current s)) "Object" false :: l).
Proof.
  pose proof parser_frame as L.
  pose proof (constructs_frame n) as Cn.
  split.
  - intros s s1 s2 Htool Hne Hend.
    assert (Hbase : script_base fuel s1 = Ok tt s2).
    { unfold script_base. unfold bind at 1. rewrite expect_eq.
      apply String.eqb_neq in Hne. rewrite Hne. cbv beta iota.
      unfold bind at 1. unfold ret at 1. cbv beta iota.
      unfold bind at 1. unfold modify at 1. exact Hend. }
    pose proof (endline_fixed _ _ _ _ Hend) as Hfix.
    assert (Hb2 : base_class s2 = Some "Object").
    { unfold fixed in Hfix. inversion Hfix. destruct s1; reflexivity. }
    assert (Hclass : exists name tool cd s3,
      script_class s2 = Ok tt s3 /\
      base_class s3 = Some "Object" /\
      out s3 = out s2 ++ [Out.define_class name "Object" tool] /\
      classData s3 = Some cd /\
      match dict_lookup (godot_types s2) "Object" with
      | Some c => cd = copy c /\ store s3 = store s2
      | None =>
          cd = mkClassData (length (store s2)) (S (length (store s2)))
                 (S (S (length (store s2)))) /\
          store s3 = store s2 ++ [[]; []; []]
      end).
    { clear Hfix Hend Hbase Htool. destruct s2 as [sn o ts cur id lv tool bc cn cd0 lo gt st].
      simpl in Hb2. subst bc.
      unfold script_class. unfold bind at 1. rewrite expect_eq. simpl current.
      destruct (String.eqb (tok_value cur) "class_name");
        unfold consume, advance, in_godot_types, godot_type, new_ClassData,
          emit, bind, get, modify, ret, next_token, dict_mem; simpl;
        destruct ts as [|t [|t' ts]]; simpl;
        destruct (dict_lookup gt "Object") as [c|] eqn:Eo; simpl;
        rewrite ?Eo; simpl;
        do 4 eexists; repeat apply conj; reflexivity. }
    destruct Hclass as (name & tool & cd & s3 & Hclass & H1 & H2 & H3 & H4).
    exists name, tool, cd, s3.
    assert (Ht : transpile (parser n) fuel s =
      (endline fuel false;;; script_loop (parser n) fuel 2;;; emit Out.end_script) s3).
    { unfold transpile. rewrite (bind_eq _ _ _ _ _ Htool).
      rewrite (bind_eq _ _ _ _ _ Hbase). now rewrite (bind_eq _ _ _ _ _ Hclass). }
    repeat apply conj; auto.
    intros s' H. rewrite Ht in H. apply script_rest_keeps in H.
    destruct H as [G _]. rewrite H2 in G. now apply grows_cons.
  - intros s Hne.
    set (name := tok_value (current s)).
    set (s0 := set_out (out (next_token s) ++ [Out.define_class name "Object" false])
                 (next_token s)).
    set (sb := if String.eqb (tok_value (current s0)) ":" then next_token s0 else s0).
    assert (Hhead : nested_class (parser n) fuel s =
      nested_class_body (parser n) fuel (level sb + 1) (set_level (level sb + 1) sb)).
    { unfold nested_class. unfold bind at 1. rewrite consume_eq. cbv beta iota.
      unfold bind at 1. rewrite expect_eq.
      apply String.eqb_neq in Hne. rewrite Hne. cbv beta iota.
      unfold bind at 1. unfold ret at 1. cbv beta iota.
      unfold bind at 1. rewrite emit_eq. cbv beta iota.
      fold name. fold s0.
      unfold bind at 1. rewrite expect_eq. fold sb.
      assert (Hb : bump_level sb = Ok (level sb + 1)%Z (set_level (level sb + 1) sb)).
      { unfold bump_level, bind, modify, get. destruct sb; reflexivity. }
      destruct (String.eqb (tok_value (current s0)) ":");
        cbv beta iota; now rewrite (bind_eq _ _ _ _ _ Hb). }
    assert (Hout : out (set_level (level sb + 1) sb) =
                   out s ++ [Out.define_class name "Object" false]).
    { assert (out sb = out s0).
      { unfold sb. destruct (String.eqb _ _); [apply next_token_env | reflexivity]. }
      assert (out s0 = out s ++ [Out.define_class name "Object" false]).
      { unfold s0. rewrite out_set_out. now rewrite (proj2 (next_token_env s)). }
      destruct sb; simpl in *. congruence. }
    exists (level sb + 1)%Z, (set_level (level sb + 1) sb).
    repeat apply conj; auto.
    intros s' H. rewrite Hhead in H. unfold nested_class_body in H.
    apply (doWhile_keeps _ _ _ L) in H.
    + destruct H as [G _]. rewrite Hout in G. now apply grows_cons.
    + intros sa b sc K. unfold bind, get, ret in K. inversion K. apply L.
    + intros _. apply (ok_class_body Cn).
Qed.

Lemma panic_comment fuel s s' :
  panic fuel s = Ok tt s' ->
  exists l escaped token,
    grows (out s) l /\
    out s' = l ++ [Out.line_comment
                     ("PANIC! <" ++ escaped ++ "> unexpected at " ++ token_repr token)%string].
Proof.
  pose proof parser_frame as L.
  intros H. unfold panic in H. minv H.
  repeat match goal with
         | K : consumeUntil _ _ _ _ = Ok _ _ |- _ =>
             apply (consumeUntil_keeps _ _ _ L) in K; destruct K as [? _]
         | K : endline _ _ _ = Ok _ _ |- _ =>
             apply (endline_keeps _ _ _ L) in K; destruct K as [? _]
         | K : emit _ _ = Ok _ _ |- _ => apply modify_Ok in K; subst
         end.
  eexists. eexists. eexists. split; [|rewrite out_set_out; reflexivity].
  eauto using grows_trans.
Qed.

(** C1, as amended. When the class-body loop gets stuck before the end of
    input twice, [transpile] drops the rest of the line and emits one panic
    comment each time, and after the second one it finalizes the script at
    once with [end_script]: the parser is left where the second panic left
    it, so whatever follows the second dropped line, valid or not, is not
    consumed. *)
Theorem script_stops_after_second_panic (self : Self) (fuel : nat)
    (s s0 s1 s2 s3 s4 : Parser) :
  (script_tool fuel ;;; script_base fuel ;;; script_class ;;;
   endline fuel false) s = Ok tt s0 ->
  script_pass self fuel s0 = Ok tt s1 ->
  tok_type (current s1) <> "EOF" ->
  panic fuel s1 = Ok tt s2 ->
  script_pass self fuel s2 = Ok tt s3 ->
  tok_type (current s3) <> "EOF" ->
  panic fuel s3 = Ok tt s4 ->
  let final := set_out (out s4 ++ [Out.end_script]) s4 in
  transpile self fuel s = Ok tt final /\
  current final = current s4 /\
  tokens final = tokens s4 /\
  exists l1 l2 m1 m2,
    grows (out s1) l1 /\ out s2 = l1 ++ [Out.line_comment ("PANIC! <" ++ m1)%string] /\
    grows (out s3) l2 /\ out s4 = l2 ++ [Out.line_comment ("PANIC! <" ++ m2)%string].
Proof.
  intros Hhead Hp1 He1 Hpanic1 Hp2 He2 Hpanic2 final.
  assert (Hloop : script_loop self fuel 2 s0 = Ok tt s4).
  { simpl. rewrite (bind_eq _ _ _ _ _ Hp1).
    unfold bind at 1. rewrite match_type_eq, in_values_one.
    apply String.eqb_neq in He1. rewrite He1. cbv beta iota.
    rewrite (bind_eq _ _ _ _ _ Hpanic1).
    rewrite (bind_eq _ _ _ _ _ Hp2).
    unfold bind at 1. rewrite match_type_eq, in_values_one.
    apply String.eqb_neq in He2. rewrite He2. cbv beta iota.
    rewrite (bind_eq _ _ _ _ _ Hpanic2). reflexivity. }
  repeat apply conj.
  - minv Hhead. unfold transpile.
    repeat match goal with
           | K : _ = Ok _ _ |- _ => rewrite (bind_eq _ _ _ _ _ K); clear K
           end.
    reflexivity.
  - unfold final. destruct s4; reflexivity.
  - unfold final. destruct s4; reflexivity.
  - destruct (panic_comment _ _ _ Hpanic1) as (l1 & e1 & t1 & G1 & O1).
    destruct (panic_comment _ _ _ Hpanic2) as (l2 & e2 & t2 & G2 & O2).
    exists l1, l2. eexists. eexists. repeat apply conj; eauto.
Qed.

(** ** Concrete scripts *)

Lemma first_resumption_Ok p s t s' :
  yielded (p s) = Ok t s' ->
  p s = Ok (t, snd (fst (first_resumption p s))) s'.
Proof.
  unfold first_resumption. destruct (p s) as [[t' g] s1| |]; simpl;
    intros H; inversion H; reflexivity.
Qed.

(** Texts that [int] and [float] read, and texts they refuse. *)
Example reading_numbers :
  py_int "1_000" = Some 1000 /\ py_int " -7 " = Some (-7) /\
  py_int "1__0" = None /\ py_int "1.0" = None /\ py_int "" = None /\
  py_float "2.5" = Some (SpecFloat.S754_finite false 5629499534213120 (-51)) /\
  py_float "0.1" = Some (SpecFloat.S754_finite false 7205759403792794 (-56)) /\
  py_float "1_0.e-1" = Some (SpecFloat.S754_finite false 4503599627370496 (-52)) /\
  py_float "1e400" = Some (SpecFloat.S754_infinity false) /\
  py_float "-0.0" = Some (SpecFloat.S754_zero true) /\
  py_float "NaN" = Some SpecFloat.S754_nan /\
  py_float "1.2.3" = None /\ py_float "1e" = None /\ py_float "." = None.
Proof. vm_compute. repeat split. Qed.

(** [value] raises on a number that [float] refuses. *)
Example value_refuses_a_malformed_number :
  let s := in_method (FLOAT "1.2.3") [LINE_END "0"] in
  yielded (value (parser 1) 1 s) = Raise "ValueError" (next_token s).
Proof. vm_compute. reflexivity. Qed.

(** [1 if true else "x"] infers [int] and emits both branches. *)
Example ternary_int_else_string :
  let s := in_method (INT "1")
             [TEXT "if"; TEXT "true"; TEXT "else"; STRING "x"; LINE_END "0"] in
  yielded (ternary (parser 3) 3 s) = Ok (Some "int") (next_token s) /\
  match both_resumptions (expression (parser 3) 3) s with
  | Ok t s' =>
      t = Some "int" /\
      out s' = [Out.ternary; Out.literal (LBool true); Out.literal (LInt 1);
                Out.literal (LStr "x")]
  | _ => False
  end.
Proof. vm_compute. auto. Qed.



(** C4, a counterexample: [Node] is a registry class and neither a member
    nor a local, yet [self.Node] resolves to type [Node], which only the
    singleton interpretation gives, and for [self.Node.name] the backend
    receives a singleton reference. *)
Lemma self_does_not_disable_singleton :
  (let s := in_method (TEXT "self") [punct "."; TEXT "Node"; LINE_END "0"] in
   dict_get (table (store s) (members (copy Object_data))) "Node" = None /\
   dict_get (locals s) "Node" = None /\
   yielded (textCode (parser 2) s) = Ok (Some "Node") (skip 3 s)) /\
  (let s := in_method (TEXT "self")
              [punct "."; TEXT "Node"; punct "."; TEXT "name"; LINE_END "0"] in
   match both_resumptions (textCode (parser 2)) s with
   | Ok t s' =>
       out s' = [Out.this; Out.singleton "Node"; Out.reference "name"]
   | _ => False
   end).
Proof. vm_compute. auto. Qed.

(** [self.Node] alone. *)
Lemma self_qualifier_keeps_singleton_witness :
  let s := in_method (TEXT "self") [punct "."; TEXT "Node"; LINE_END "0"] in
  exists g,
    textCode (parser 2) s = Ok (Some "Node", g) (skip 3 s) /\
    forall s', g s' = Ok tt (set_out (out s' ++ [Out.this; Out.variable "Node"]) s').
Proof.
  intros s.
  apply (proj1 (self_qualifier_keeps_singleton (parser 2) s (punct ".")
                  (TEXT "Node") (LINE_END "0") [] (copy Object_data)
                  (mkClassData 0 1 2)
                  eq_refl eq_refl eq_refl eq_refl eq_refl eq_refl
                  eq_refl eq_refl eq_refl)).
  reflexivity.
Defined.

(** C5, a failing input: in [for i in 5: pass] the expression has type
    [int], which is not a typed sequence, and the loop variable is recorded
    and emitted with type [int], not [Variant]. *)
Lemma loop_variable_not_defaulted :
  yielded (expression (parser 4) 4 (skip 2 for_int)) = Ok (Some "int") (skip 3 for_int) /\
  contains "[]" "int" = false /\
  match forStmt (parser 4) 4 for_int with
  | Ok _ s' =>
      dict_get (locals s') "i" = Some "int" /\
      dict_get (locals s') "i" <> Some "Variant" /\
      In (Out.forStmt "i" "int") (out s')
  | _ => False
  end.
Proof.
  vm_compute. repeat split; try discriminate. left. reflexivity.
Qed.

(** [xs] is a local of type [Array]: [for j in xs] gives [j] the type of
    the array itself, whereas [subscription], which removes ['[]'] in the
    same way but only from a type that has it, gives [xs[0]] no type. *)
Example element_of_untyped_array :
  let xs := set_locals [("xs", Some "Array")] in
  match forStmt (parser 4) 4
          (xs (in_method (TEXT "j")
                 [TEXT "in"; TEXT "xs"; punct ":"; LINE_END "2"; TEXT "pass";
                  LINE_END "0"])) with
  | Ok _ s' => dict_get (locals s') "j" = Some "Array"
  | _ => False
  end /\
  (let s := xs (in_method (TEXT "xs")
                  [punct "["; INT "0"; punct "]"; LINE_END "0"]) in
   yielded (textCode (parser 4) s) = Ok None (skip 4 s)).
Proof. vm_compute. split; reflexivity. Qed.

(** [for j in xs] with [xs : int[]] gives [j] the type [int]. *)
Example loop_variable_of_typed_array :
  let s := mkParser "script" [] [TEXT "in"; TEXT "xs"; punct ":"; LINE_END "2";
                                 TEXT "pass"; LINE_END "0"]
             (TEXT "j") 0 1 (Some false) (Some "Object") (Some "script")
             (Some (copy Object_data)) [("xs", Some "int[]")] registry tables in
  match forStmt (parser 4) 4 s with
  | Ok _ s' => dict_get (locals s') "j" = Some "int"
  | _ => False
  end.
Proof. vm_compute. reflexivity. Qed.

(** [for i in 5: pass]. *)
Lemma for_loop_variable_witness :
  exists s3,
    forStmt (parser 4) 4 for_int = self_Block (parser 4) false s3 /\
    locals s3 = dict_set (locals for_int) "i" (Some "int").
Proof.
  assert (E : yielded (expression (parser 4) 4 (skip 2 for_int))
              = Ok (Some "int") (skip 3 for_int)) by (vm_compute; reflexivity).
  apply first_resumption_Ok in E.
  destruct (for_loop_variable 4 4 for_int (Some "int") _
              (skip 2 for_int) (skip 3 for_int)
              (set_out [Out.forStmt "i" "int"; Out.literal (LInt 5)]
                 (set_locals (dict_set (locals for_int) "i" (Some "int"))
                    (skip 3 for_int)))
              eq_refl E)
    as (s3 & H1 & H2 & _).
  - vm_compute. reflexivity.
  - exists s3. split; [exact H1 | exact H2].
Defined.

(** [foo(1, 2) + [3]]: after the first resumption the log is empty. *)
Lemma first_resumption_emits_nothing_witness :
  let s := in_method (TEXT "foo")
             [punct "("; INT "1"; punct ","; INT "2"; punct ")";
              ARITHMETIC "+"; punct "["; INT "3"; punct "]"; LINE_END "0"] in
  yielded (expression (parser 6) 6 s) = Ok (Some "Array") (skip 8 s) /\
  out (skip 8 s) = out s.
Proof.
  intros s.
  assert (E : yielded (expression (parser 6) 6 s) = Ok (Some "Array") (skip 8 s))
    by (vm_compute; reflexivity).
  split; [exact E|].
  apply first_resumption_Ok in E.
  pose proof (first_resumption_emits_nothing 6 6) as H.
  do 10 apply proj2 in H.
  exact (proj1 (H _ _ _ _ E)).
Defined.

(** The same expression run to its end: everything is emitted by the second
    resumption. *)
Example second_resumption_emits :
  let s := in_method (TEXT "foo")
             [punct "("; INT "1"; punct ","; INT "2"; punct ")";
              ARITHMETIC "+"; punct "["; INT "3"; punct "]"; LINE_END "0"] in
  match both_resumptions (expression (parser 6) 6) s with
  | Ok t s' =>
      out s' = [Out.call "foo" 2; Out.literal (LInt 1); Out.literal (LInt 2);
                Out.operator "+"; Out.create_array; Out.literal (LInt 3)]
  | _ => False
  end.
Proof. vm_compute. reflexivity. Qed.

(** [var x = 5.0] as a statement of a method: [x] goes to [locals] with the
    type of the initializer; [var x: int = 5.0] as a class member: the
    annotation wins. *)
Lemma declare_records_type_witness :
  (exists s',
     statement (parser 4) 4 local_x = Ok None s' /\
     recorded "x" "float" 1 local_x s') /\
  (exists s',
     declare (parser 4) 4 (Some "x") 9 member_x = Ok tt s' /\
     recorded "x" "int" 9 member_x s').
Proof.
  split.
  - assert (E : yielded (assignment (parser 4) 4 None (skip 3 local_x))
                = Ok (Some "float") (skip 4 local_x)) by (vm_compute; reflexivity).
    apply first_resumption_Ok in E.
    pose proof (declare_records_type 4 4 None 1 (skip 1 local_x) None
                  (skip 2 local_x) eq_refl) as (_ & H & Hst).
    destruct (H eq_refl (Some "float") _ (skip 4 local_x)
                (set_out [Out.declare_variable "float" "x"]
                   (set_locals [("x", Some "float")] (skip 4 local_x)))
                (set_out [Out.declare_variable "float" "x"; Out.assignment None;
                          Out.literal (LFloat (double "5.0"))]
                   (set_locals [("x", Some "float")] (skip 4 local_x)))
                E eq_refl)
      as (s' & H1 & H2 & _).
    + vm_compute. reflexivity.
    + exists s'. split.
      * apply (Hst local_x s' eq_refl eq_refl (or_introl (conj eq_refl eq_refl)) H1).
      * exact H2.
  - assert (E : yielded (assignment (parser 4) 4 None (skip 3 member_x))
                = Ok (Some "float") (skip 4 member_x)) by (vm_compute; reflexivity).
    apply first_resumption_Ok in E.
    destruct (proj1 (proj2 (declare_records_type 4 4 (Some "x") 9 member_x (Some "int")
                       (skip 2 member_x) eq_refl))
                eq_refl (Some "float") _ (skip 4 member_x)
                (set_out [Out.declare_property "int" "x" 0 0]
                   (set_store
                      [[]; []; []; [("x", Some "int")]; []; [];
                       [("name", Some "String")]; []; []]
                      (skip 4 member_x)))
                (set_out [Out.declare_property "int" "x" 0 0; Out.assignment None;
                          Out.literal (LFloat (double "5.0"))]
                   (set_store
                      [[]; []; []; [("x", Some "int")]; []; [];
                       [("name", Some "String")]; []; []]
                      (skip 4 member_x)))
                E eq_refl)
      as (s' & H1 & H2 & _).
    + vm_compute. reflexivity.
    + exists s'. split; [exact H1 | exact H2].
Defined.



(** The script [var x]. *)
Lemma base_class_defaults_to_Object_witness :
  exists name tool cd s3,
    transpile (parser 4) 4 plain_script =
      (endline 4 false ;;; script_loop (parser 4) 4 2 ;;; emit Out.end_script) s3 /\
    base_class s3 = Some "Object" /\
    out s3 = [Out.iadd ""; Out.iadd ""; Out.iadd "";
              Out.define_class name "Object" tool] /\
    classData s3 = Some cd /\ cd = Object_data.
Proof.
  destruct (proj1 (base_class_defaults_to_Object 4 4) plain_script
              (set_out [Out.iadd ""; Out.iadd ""] (set_is_tool false plain_script))
              (set_out [Out.iadd ""; Out.iadd ""; Out.iadd ""]
                 (set_base_class "Object" (set_is_tool false plain_script))))
    as (name & tool & cd & s3 & H1 & H2 & H3 & H4 & H5 & _).
  - vm_compute. reflexivity.
  - vm_compute. discriminate.
  - vm_compute. reflexivity.
  - exists name, tool, cd, s3. repeat apply conj; auto.
    simpl in H5. apply H5.
Defined.

(** C1, a counterexample: after two unparsable top-level lines the valid
    member [var c] is not transpiled; the script is finalized with two panic
    comments and [var c] is left in the token stream. *)
Lemma content_after_second_panic_is_dropped :
  match init "script" two_stuck_lines registry tables with
  | Some p =>
      match run 8 p with
      | Ok _ s' =>
          panics (out s') = 2%nat /\
          last (out s') Out.end_statement = Out.end_script /\
          In (Out.declare_property "Variant" "b" 0 0) (out s') /\
          ~ In (Out.declare_property "Variant" "c" 0 0) (out s') /\
          current s' = TEXT "var" /\
          tokens s' = [TEXT "c"; LINE_END "0"]
      | _ => False
      end
  | None => False
  end.
Proof.
  vm_compute. repeat split; try tauto.
  intros H. repeat (destruct H as [H|H]; [discriminate H|]). exact H.
Qed.

(** Three unparsable top-level lines: two panic comments, and the script is
    finalized with the third line unconsumed. *)
Example third_stuck_line_is_left :
  match init "script"
          [TEXT "foo"; LINE_END "0"; TEXT "bar"; LINE_END "0";
           TEXT "baz"; LINE_END "0"] registry tables with
  | Some p =>
      match run 8 p with
      | Ok _ s' =>
          panics (out s') = 2%nat /\
          last (out s') Out.end_statement = Out.end_script /\
          current s' = TEXT "baz" /\
          tokens s' = [LINE_END "0"]
      | _ => False
      end
  | None => False
  end.
Proof. vm_compute. repeat split. Qed.

(** The script with two stuck lines. *)
Lemma script_stops_after_second_panic_witness :
  exists s4,
    match init "script" two_stuck_lines registry tables with
    | Some p =>
        transpile (parser 8) 8 p = Ok tt (set_out (out s4 ++ [Out.end_script]) s4)
    | None => False
    end /\
    tokens s4 = [TEXT "c"; LINE_END "0"].
Proof.
  eexists. simpl init. split.
  - eapply script_stops_after_second_panic.
    + vm_compute. reflexivity.
    + vm_compute. reflexivity.
    + vm_compute. discriminate.
    + vm_compute. reflexivity.
    + vm_compute. reflexivity.
    + vm_compute. discriminate.
    + vm_compute. reflexivity.
  - reflexivity.
Defined.

(** C2, the code against the claim: the class data is a shallow copy of the
    registry entry of the base class, so it shares the entry's tables;
    declaring member [foo] in a script that extends [Node] writes [foo] into
    the member table of the registry's [Node] entry. *)
Theorem declaring_a_member_mutates_the_registry :
  match init "script" extends_Node registry tables with
  | Some p =>
      match run 8 p with
      | Ok _ s' =>
          dict_lookup (godot_types p) "Node" = Some Node_data /\
          dict_lookup (godot_types s') "Node" = Some Node_data /\
          table (store p) (members Node_data) = [("name", Some "String")] /\
          table (store s') (members Node_data) =
            [("name", Some "String"); ("foo", Some "int")]
      | _ => False
      end
  | None => False
  end.
Proof. vm_compute. repeat split. Qed.

(** * Further properties of the parser *)

(** ** The guarded loop *)

(** How a [doWhile] loop ends: [I] holds whenever the condition is tested,
    [Q] when the loop is left, either because the condition fails or because
    the body has not moved to another token. *)
Lemma doWhile_exit {A} (I Q : A -> Parser -> Prop) (cond : M bool) (body : A -> M A) :
  (forall a s c s1, I a s -> cond s = Ok c s1 ->
     if c then forall a' s2, body a s1 = Ok a' s2 ->
                I a' s2 /\ (current_id s2 = current_id s1 -> Q a' s2)
     else Q a s1) ->
  forall fuel last a s a' s',
    I a s ->
    (forall l, last = Some l -> current_id s = l -> Q a s) ->
    doWhile fuel cond body last a s = Ok a' s' -> Q a' s'.
Proof.
  intros Hstep. induction fuel as [|fuel IH]; intros last a s a' s' Hi Hl H; simpl in H.
  - discriminate H.
  - apply bind_Ok in H. destruct H as (id & s0 & Hg & H).
    apply get_Ok in Hg. destruct Hg as [-> ->].
    destruct last as [l|].
    + destruct (Nat.eqb (current_id s) l) eqn:E.
      * apply ret_Ok in H. destruct H as [-> ->].
        apply (Hl l eq_refl). now apply Nat.eqb_eq.
      * apply bind_Ok in H. destruct H as (c & s1 & Hc & H).
        specialize (Hstep a s c s1 Hi Hc). destruct c.
        -- apply bind_Ok in H. destruct H as (id' & s1' & Hg & H).
           apply get_Ok in Hg. destruct Hg as [-> ->].
           apply bind_Ok in H. destruct H as (a1 & s2 & Hb & H).
           destruct (Hstep a1 s2 Hb) as [Hi' Hq].
           apply (IH _ _ _ _ _ Hi') in H; auto.
           intros l' [= <-] El. auto.
        -- apply ret_Ok in H. destruct H as [-> ->]. exact Hstep.
    + apply bind_Ok in H. destruct H as (c & s1 & Hc & H).
      specialize (Hstep a s c s1 Hi Hc). destruct c.
      * apply bind_Ok in H. destruct H as (id' & s1' & Hg & H).
        apply get_Ok in Hg. destruct Hg as [-> ->].
        apply bind_Ok in H. destruct H as (a1 & s2 & Hb & H).
        destruct (Hstep a1 s2 Hb) as [Hi' Hq].
        apply (IH _ _ _ _ _ Hi') in H; auto.
        intros l' [= <-] El. auto.
      * apply ret_Ok in H. destruct H as [-> ->]. exact Hstep.
Qed.

(** X1. "while implementation that avoids infinite loops": when the body of
    a [doWhile] loop returns on the token object it started on, the loop ends
    there, after that single run of the body. *)
Theorem doWhile_stuck_body_runs_once {A} (fuel : nat) (cond : M bool)
    (body : A -> M A) (last : option nat) (a a' : A) (s s1 s' : Parser) :
  last <> Some (current_id s) ->
  cond s = Ok true s1 ->
  body a s1 = Ok a' s' ->
  current_id s' = current_id s1 ->
  doWhile (S (S fuel)) cond body last a s = Ok a' s'.
Proof.
  intros Hl Hc Hb Hid.
  change (doWhile (S (S fuel)) cond body last a s)
    with ((id <- get current_id ;;
           if match last with Some l => Nat.eqb id l | None => false end
           then ret a
           else
             c <- cond ;;
             if c then
               id' <- get current_id ;;
               a' <- body a ;;
               doWhile (S fuel) cond body (Some id') a'
             else ret a) s).
  unfold bind at 1. unfold get at 1.
  assert (E : match last with Some l => Nat.eqb (current_id s) l | None => false end = false).
  { destruct last as [l|]; auto. apply Nat.eqb_neq. congruence. }
  rewrite E. unfold bind at 1. rewrite Hc.
  unfold bind at 1. unfold get at 1. unfold bind at 1. rewrite Hb.
  simpl. unfold bind at 1. unfold get at 1.
  rewrite Hid, Nat.eqb_refl. reflexivity.
Qed.

Lemma doWhile_ends_with {A} (P : Parser -> Prop) (cond : M bool) (body : A -> M A) :
  (forall s, P s -> exists c s1, cond s = Ok c s1 /\
     (c = true ->
      P s1 /\ (length (tokens s1) <= length (tokens s))%nat /\
      forall a, exists a' s2, body a s1 = Ok a' s2 /\ P s2 /\
        ((length (tokens s2) < length (tokens s1))%nat \/
         current_id s2 = current_id s1))) ->
  forall fuel last a s,
    P s ->
    (length (tokens s) + 2 <= fuel)%nat \/
    (last = Some (current_id s) /\ 1 <= fuel)%nat ->
    exists a' s', doWhile fuel cond body last a s = Ok a' s'.
Proof.
  intros Hstep. induction fuel as [|fuel IH]; intros last a s HP Hf.
  - destruct Hf as [Hf|[_ Hf]]; lia.
  - cbn [doWhile]. unfold bind at 1. unfold get at 1.
    destruct (match last with Some l => Nat.eqb (current_id s) l | None => false end) eqn:El.
    { eexists; eexists; reflexivity. }
    destruct Hf as [Hf|[Hl _]].
    2:{ subst last. rewrite Nat.eqb_refl in El. discriminate. }
    destruct (Hstep s HP) as (c & s1 & Ec & Hc). unfold bind at 1. rewrite Ec.
    destruct c; [|eexists; eexists; reflexivity].
    destruct (Hc eq_refl) as (HP1 & Hle & Hb).
    unfold bind at 1. unfold get at 1. unfold bind at 1.
    destruct (Hb a) as (a' & s2 & Eb & HP2 & Hm). rewrite Eb.
    apply IH; [exact HP2|].
    destruct Hm as [Hm|Hm].
    + left. lia.
    + right. split; [congruence|lia].
Qed.

(** X20. The guard of [doWhile] ends every loop whose rounds return.  When
    the condition and the body always return, a condition that holds takes
    no token away from the count and each run of the body either takes at
    least one token or returns on the token object it started on, the loop
    returns after at most one round per token left, plus one. *)
Theorem doWhile_ends {A} (cond : M bool) (body : A -> M A) :
  (forall s, exists c s1, cond s = Ok c s1 /\
     (c = true -> (length (tokens s1) <= length (tokens s))%nat)) ->
  (forall a s, exists a' s', body a s = Ok a' s' /\
     ((length (tokens s') < length (tokens s))%nat \/
      current_id s' = current_id s)) ->
  forall fuel a s,
    (length (tokens s) + 2 <= fuel)%nat ->
    exists a' s', doWhile fuel cond body None a s = Ok a' s'.
Proof.
  intros Hc Hb fuel a s Hf.
  apply (doWhile_ends_with (fun _ => True)); auto.
  intros s0 _. destruct (Hc s0) as (c & s1 & Ec & Hle).
  exists c, s1. split; [exact Ec|]. intros ->.
  repeat split; auto.
  intros a0. destruct (Hb a0 s1) as (a' & s2 & Eb & Hm).
  exists a', s2. auto.
Qed.

(** ** [consumeUntil] *)

Lemma skip_next k : forall s, skip k (next_token s) = next_token (skip k s).
Proof. induction k as [|k IH]; intros s; simpl; [reflexivity|apply IH]. Qed.

Lemma consumeUntil_loop token : forall fuel acc last s,
  (length (tokens s) + 2 <= fuel)%nat ->
  last <> Some (current_id s) ->
  let pre := before token (current s :: tokens s) in
  doWhile fuel
    (v <- match_value [token] ;;
     if v then ret false
     else t <- match_type [token] ;; ret (negb t))
    (fun result => c <- consume ;; ret (result ++ [c]))
    last acc s
  = Ok (acc ++ map tok_value pre) (skip (length pre) s).
Proof.
  induction fuel as [|fuel IH]; intros acc last s Hf Hl pre; [lia|].
  subst pre. cbn [doWhile].
  unfold bind at 1. unfold get at 1.
  assert (E : match last with Some l => Nat.eqb (current_id s) l | None => false end = false).
  { destruct last as [l|]; auto. apply Nat.eqb_neq. congruence. }
  rewrite E. clear E.
  unfold bind at 1. unfold bind at 1. rewrite match_value_eq, in_values_one.
  cbn [before]. unfold stops_at.
  destruct (String.eqb (tok_value (current s)) token) eqn:Ev; cbn [orb].
  { cbn. now rewrite app_nil_r. }
  unfold bind at 1. rewrite match_type_eq, in_values_one.
  destruct (String.eqb (tok_type (current s)) token) eqn:Et; cbn [negb ret].
  { cbn. now rewrite app_nil_r. }
  unfold bind at 1. unfold get at 1.
  unfold bind at 1. unfold bind at 1. rewrite consume_eq. cbn [ret].
  cbn [map length skip]. 
  destruct (tokens s) as [|t r] eqn:Etok.
  - (* the stream is exhausted: the token object stays the same *)
    assert (Hid : current_id (next_token s) = current_id s).
    { unfold next_token. rewrite Etok. reflexivity. }
    destruct fuel as [|fuel]; [simpl in Hf; lia|].
    cbn [doWhile]. unfold bind at 1. unfold get at 1.
    rewrite Hid, Nat.eqb_refl. cbn. reflexivity.
  - assert (Hc : current (next_token s) = t /\ tokens (next_token s) = r /\
                 current_id (next_token s) = S (current_id s)).
    { unfold next_token. rewrite Etok. auto. }
    destruct Hc as (Hc & Ht & Hid).
    rewrite IH.
    + rewrite Hc, Ht, <- app_assoc. reflexivity.
    + rewrite Ht. simpl in Hf. lia.
    + rewrite Hid. intros [= K]. lia.
Qed.

(** X2. [consumeUntil token] takes the tokens before the first one whose
    text or kind is [token] (all of them when there is none), returns their
    texts joined by the separator and leaves the parser on that token; it
    neither fails nor loops. *)
Theorem consumeUntil_takes_the_tokens_before (fuel : nat) (token separator : string)
    (s : Parser) :
  (length (tokens s) + 2 <= fuel)%nat ->
  let pre := before token (current s :: tokens s) in
  consumeUntil fuel token separator s =
  Ok (String.concat separator (map tok_value pre)) (skip (length pre) s).
Proof.
  intros Hf pre. unfold consumeUntil. unfold bind at 1.
  rewrite consumeUntil_loop; [reflexivity|assumption|discriminate].
Qed.

(** ** [endline] *)

Lemma position_set_out o s : position (set_out o s) = position s.
Proof. reflexivity. Qed.

Lemma position_set_level l s : position (set_level l s) = position s.
Proof. reflexivity. Qed.

Lemma downscopes_position n : forall first addBreak s a s',
  downscopes n first addBreak s = Ok a s' -> position s' = position s.
Proof.
  induction n as [|n IH]; intros first addBreak s a s' H; simpl in H.
  - apply ret_Ok in H. now destruct H as [_ <-].
  - destruct (addBreak && first)%bool; cbn in H; apply IH in H; exact H.
Qed.

(** Each round of [endline] takes exactly one token. *)
Lemma endline_body_position addBreak st s st' s' :
  endline_body addBreak st s = Ok st' s' -> position s' = position (next_token s).
Proof.
  unfold endline_body. destruct st as [lvl jumped]. intros H.
  unfold emitComments in H. mrun H;
    repeat match goal with
           | K : advance _ = Ok _ _ |- _ => apply modify_Ok in K; subst
           | K : modify _ _ = Ok _ _ |- _ => apply modify_Ok in K; subst
           | K : emit _ _ = Ok _ _ |- _ => rewrite emit_eq in K; inversion K; subst; clear K
           | K : downscopes _ _ _ _ = Ok _ _ |- _ => apply downscopes_position in K
           end;
    rewrite ?position_set_out in *; try congruence; try reflexivity.
Qed.

Lemma stays_means_EOF s :
  current_id (next_token s) = current_id s -> current (next_token s) = EOF.
Proof.
  unfold next_token. destruct (tokens s); simpl; [reflexivity|lia].
Qed.

(** X3. [endline] leaves the parser on code: whenever it returns, the
    current token is neither a line end nor a comment nor a long string. *)
Theorem endline_stops_on_code (fuel : nat) (addBreak : bool) (s s' : Parser) :
  endline fuel addBreak s = Ok tt s' -> blank (current s') = false.
Proof.
  unfold endline. intros H. apply bind_Ok in H. destruct H as ([lvl j] & s1 & H & He).
  rewrite emit_eq in He. inversion He; subst s'; clear He.
  change (current (set_out (out s1 ++ [Out.iadd (newlines j)]) s1)) with (current s1).
  revert H.
  apply (doWhile_exit (fun _ _ => True) (fun _ s => blank (current s) = false)); auto.
  - intros a s0 c s2 _ Hc. rewrite match_type_eq in Hc.
    assert (Ec : c = blank (current s0)) by (unfold blank; congruence).
    assert (Es : s0 = s2) by congruence.
    subst c s0. clear Hc.
    destruct (blank (current s2)) eqn:E; [|reflexivity].
    intros a' s3 Hb. split; [exact I|]. intros Hid. cbv beta.
    apply endline_body_position in Hb. unfold position in Hb.
    injection Hb as Ht Hc Hi.
    rewrite Hc. rewrite stays_means_EOF; [reflexivity|congruence].
  - discriminate.
Qed.

Lemma downscopes_total n : forall first addBreak s,
  exists s', downscopes n first addBreak s = Ok tt s'.
Proof.
  induction n as [|n IH]; intros first addBreak s; simpl.
  - eexists; reflexivity.
  - destruct (addBreak && first)%bool; cbn; apply IH.
Qed.

Lemma endline_body_total addBreak st s :
  line_end_ok (current s) -> exists st' s', endline_body addBreak st s = Ok st' s'.
Proof.
  destruct st as [lvl j]. intros Hok. unfold endline_body.
  unfold bind at 1. rewrite match_type_eq, in_values_one.
  destruct (String.eqb (tok_type (current s)) "LINE_END") eqn:E.
  - apply String.eqb_eq in E. specialize (Hok E).
    destruct (py_int (tok_value (current s))) as [z|] eqn:Ei; [|congruence].
    unfold bind at 1. unfold bind at 1. rewrite consume_eq, Ei. cbn [ret].
    unfold bind at 1. rewrite match_type_eq.
    destruct (in_values _ _); [eexists; eexists; reflexivity|].
    destruct (Z.eqb z (-1)).
    + eexists; eexists; reflexivity.
    + unfold bind at 1. unfold bind at 1. unfold get at 1.
      destruct (downscopes_total (Z.to_nat (level (next_token s) - z)) true addBreak
                  (next_token s)) as [s' Hd].
      rewrite Hd. eexists; eexists; reflexivity.
  - unfold bind at 1. unfold bind at 1. rewrite match_type_eq.
    unfold bind at 1. rewrite consume_eq. cbn [ret].
    unfold bind at 1. rewrite match_type_eq.
    destruct (in_values _ ["LINE_END"]); [eexists; eexists; reflexivity|].
    destruct (Z.eqb lvl (-1)).
    + eexists; eexists; reflexivity.
    + unfold bind at 1. unfold bind at 1. unfold get at 1.
      destruct (downscopes_total (Z.to_nat (level (next_token s) - lvl)) true addBreak
                  (next_token s)) as [s' Hd].
      rewrite Hd. eexists; eexists; reflexivity.
Qed.

(** X4. [endline] returns on every token stream whose line ends carry a
    number: it does not fail and its loop ends. *)
Theorem endline_returns (fuel : nat) (addBreak : bool) (s : Parser) :
  Forall line_end_ok (current s :: tokens s) ->
  (length (tokens s) + 2 <= fuel)%nat ->
  exists s', endline fuel addBreak s = Ok tt s'.
Proof.
  intros Hok Hf. unfold endline.
  destruct (doWhile_ends_with (fun s => Forall line_end_ok (current s :: tokens s))
              (match_type ["LINE_END"; "COMMENT"; "LONG_STRING"])
              (endline_body addBreak)) with (fuel := fuel) (last := @None nat)
              (a := (-1, O)) (s := s) as ([lvl j] & s1 & H); auto.
  - intros s0 HP. eexists. exists s0. split; [apply match_type_eq|].
    intros _. repeat split; auto.
    intros a. inversion HP; subst.
    destruct (endline_body_total addBreak a s0) as (st' & s' & E); [assumption|].
    exists st', s'. split; [exact E|].
    apply endline_body_position in E. unfold position in E.
    injection E as Et Ec Ei. rewrite Et, Ec, Ei. unfold next_token.
    destruct (tokens s0) as [|t r]; simpl.
    + split; [|right; reflexivity].
      constructor; [|constructor]. intros K. discriminate K.
    + split; [assumption|left; lia].
  - unfold bind at 1. rewrite H. eexists. apply emit_eq.
Qed.

Lemma closed_app x y : closed (x ++ y) = closed x + closed y.
Proof. unfold closed. rewrite filter_app, length_app. lia. Qed.

Lemma closes_refl s : closes s s.
Proof. exists []. rewrite app_nil_r. split; [reflexivity|]. unfold closed. simpl. lia. Qed.

Lemma closes_trans a b c : closes a b -> closes b c -> closes a c.
Proof.
  intros (x & Hx & Lx) (y & Hy & Ly). exists (x ++ y).
  rewrite Hy, Hx, app_assoc, closed_app. split; [reflexivity|lia].
Qed.

Lemma closes_next_token s : closes s (next_token s).
Proof.
  replace (next_token s) with
    (set_token (tokens (next_token s)) (current (next_token s))
       (current_id (next_token s)) s)
    by (unfold next_token; destruct (tokens s); reflexivity).
  exists []. simpl. rewrite app_nil_r. split; [reflexivity|]. unfold closed. simpl. lia.
Qed.

Lemma closes_emit c s : is_DownScope c = false -> closes s (set_out (out s ++ [c]) s).
Proof.
  intros Hc. exists [c]. split; [reflexivity|].
  unfold closed. simpl. rewrite Hc. simpl. lia.
Qed.

Lemma downscopes_closes n : forall first addBreak s a s',
  downscopes n first addBreak s = Ok a s' -> closes s s'.
Proof.
  induction n as [|n IH]; intros first addBreak s a s' H; simpl in H.
  - apply ret_Ok in H. destruct H as [_ <-]. apply closes_refl.
  - destruct (addBreak && first)%bool; cbn in H; apply IH in H.
    + destruct H as (x & Hx & Lx). simpl in Hx, Lx.
      exists ([Out.iadd (newlines 1); Out.breakStmt; Out.DownScope] ++ x).
      split; [rewrite Hx; repeat rewrite <- app_assoc; reflexivity|].
      rewrite closed_app.
      change (closed [Out.iadd (newlines 1); Out.breakStmt; Out.DownScope]) with 1.
      lia.
    + destruct H as (x & Hx & Lx). simpl in Hx, Lx.
      exists ([Out.DownScope] ++ x).
      split; [rewrite Hx; repeat rewrite <- app_assoc; reflexivity|].
      rewrite closed_app. change (closed [Out.DownScope]) with 1. lia.
Qed.

Lemma endline_body_closes addBreak st : keeps closes (endline_body addBreak st).
Proof.
  unfold endline_body. destruct st as [lvl jumped]. intros s st' s' H.
  unfold emitComments in H. mrun H;
    repeat match goal with
           | K : advance ?s = Ok _ _ |- _ =>
               apply modify_Ok in K; subst; pose proof (closes_next_token s)
           | K : emit ?c ?s = Ok _ _ |- _ =>
               rewrite emit_eq in K; inversion K; subst; clear K;
               assert (closes s (set_out (out s ++ [c]) s))
                 by (apply closes_emit;
                     repeat match goal with
                            | |- context [if ?b then _ else _] => destruct b
                            end; reflexivity)
           | K : downscopes _ _ _ _ = Ok _ _ |- _ => apply downscopes_closes in K
           end;
    chain closes_refl closes_trans.
Qed.

(** X5. [endline] gives up levels only by closing scopes: the level never
    rises, and it falls by exactly the number of [DownScope] calls that the
    backend receives meanwhile. *)
Theorem endline_closes_a_scope_per_level (fuel : nat) (addBreak : bool)
    (s s' : Parser) :
  endline fuel addBreak s = Ok tt s' ->
  exists x,
    out s' = out s ++ x /\
    level s' = level s - closed x /\
    level s' <= level s.
Proof.
  intros H.
  assert (C : closes s s').
  { unfold endline in H. apply bind_Ok in H. destruct H as ([lvl j] & s1 & H & He).
    apply doWhile_preserves with (R := closes) in H.
    - rewrite emit_eq in He. inversion He; subst.
      eapply closes_trans; [exact H|]. now apply closes_emit.
    - apply closes_refl.
    - apply closes_trans.
    - intros s0 c s2 Hc. rewrite match_type_eq in Hc.
      assert (s0 = s2) by congruence. subst. apply closes_refl.
    - intros a. apply endline_body_closes. }
  destruct C as (x & Hx & Lx). exists x. repeat split; auto.
  unfold closed in *. lia.
Qed.

(** ** The unguarded loops *)

Ltac inert_facts H :=
  unfold inert, in_values in H; cbn [existsb] in H;
  repeat match goal with
         | K : (_ && _)%bool = true |- _ => apply andb_true_iff in K; destruct K
         | K : negb _ = true |- _ => apply negb_true_iff in K
         | K : (_ || _)%bool = false |- _ => apply orb_false_iff in K; destruct K
         end.

(** At such a token an expression is empty: it yields [Variant] without
    taking a token, and resuming it does nothing. *)
Lemma expression_inert self fuel s :
  inert (current s) = true ->
  exists g,
    expression self fuel s = Ok (Some "Variant", g) s /\
    forall s', String.eqb (tok_value (current s')) "if" = false -> g s' = Ok tt s'.
Proof.
  intros H. inert_facts H.
  unfold expression, ternary, boolean, arithmetic, _arithmetic, value.
  unfold expect, consume, match_type, match_value, advance, in_values.
  cbn [existsb].
  unfold bind, get, modify, ret.
  repeat first
    [ progress cbn beta iota zeta delta [orb truthy py_or]
    | match goal with
      | K : String.eqb _ _ = false |- _ => rewrite K
      end ].
  eexists. split; [reflexivity|].
  intros s' Hif.
  repeat first
    [ progress cbn beta iota zeta delta [orb truthy py_or]
    | rewrite Hif ].
  reflexivity.
Qed.

Lemma inert_not_if t : inert t = true -> String.eqb (tok_value t) "if" = false.
Proof. intros H. inert_facts H. assumption. Qed.

Lemma self_expression_inert n s :
  inert (current s) = true ->
  self_expression (parser n) s = Timeout \/
  exists g, self_expression (parser n) s = Ok (Some "Variant", g) s /\ g s = Ok tt s.
Proof.
  intros H. destruct n as [|n]; [left; reflexivity|].
  right. destruct (expression_inert (parser n) (S n) s H) as (g & E & Eg).
  exists g. split; [exact E|]. apply Eg. now apply inert_not_if.
Qed.

Lemma call_params_inert n k : forall acc s,
  inert (current s) = true -> call_params (parser n) k acc s = Timeout.
Proof.
  induction k as [|k IH]; intros acc s H; [reflexivity|].
  pose proof H as Hi. inert_facts Hi.
  cbn [call_params]. unfold bind at 1. rewrite expect_eq.
  repeat match goal with K : String.eqb _ _ = false |- _ => rewrite ?K; clear K end.
  unfold bind at 1.
  destruct (self_expression_inert n s H) as [E|(g & E & _)]; rewrite E; [reflexivity|].
  pose proof H as Hi. inert_facts Hi.
  unfold bind at 1. rewrite expect_eq.
  repeat match goal with K : String.eqb _ _ = false |- _ => rewrite ?K; clear K end.
  apply IH. exact H.
Qed.

Lemma array_iter_inert n k : forall s,
  inert (current s) = true -> array_iter (parser n) k (fun val => val) s = Timeout.
Proof.
  induction k as [|k IH]; intros s H; [reflexivity|].
  pose proof H as Hi. inert_facts Hi.
  cbn [array_iter]. unfold bind at 1. rewrite expect_eq.
  repeat match goal with K : String.eqb _ _ = false |- _ => rewrite ?K; clear K end.
  unfold bind at 1.
  destruct (self_expression_inert n s H) as [E|(g & E & Eg)]; rewrite E; [reflexivity|].
  pose proof H as Hi. inert_facts Hi.
  unfold bind at 1. rewrite expect_eq.
  repeat match goal with K : String.eqb _ _ = false |- _ => rewrite ?K; clear K end.
  unfold bind at 1. rewrite Eg. apply IH. exact H.
Qed.

Lemma dict_iter_inert n k : forall s,
  inert (current s) = true ->
  dict_iter (parser n) k (fun kv => fst kv ;;; snd kv) s = Timeout.
Proof.
  induction k as [|k IH]; intros s H; [reflexivity|].
  pose proof H as Hi. inert_facts Hi.
  cbn [dict_iter]. unfold bind at 1. rewrite expect_eq.
  repeat match goal with K : String.eqb _ _ = false |- _ => rewrite ?K; clear K end.
  unfold bind at 1.
  destruct (self_expression_inert n s H) as [E|(g & E & Eg)]; rewrite E; [reflexivity|].
  pose proof H as Hi. inert_facts Hi.
  unfold bind at 1. rewrite expect_eq.
  repeat match goal with K : String.eqb _ _ = false |- _ => rewrite ?K; clear K end.
  unfold bind at 1. rewrite E.
  pose proof H as Hi. inert_facts Hi.
  unfold bind at 1. rewrite expect_eq.
  repeat match goal with K : String.eqb _ _ = false |- _ => rewrite ?K; clear K end.
  unfold bind at 1. cbn [fst snd]. unfold bind at 1. rewrite Eg, Eg.
  apply IH. exact H.
Qed.

(** X6. The argument loop of [call] and the element loops of the array and
    dictionary literals are plain [while not self.expect(...)] loops, without
    the guard of [doWhile].  At a token that starts no expression and closes
    nothing (the end of the stream is one) they take no token and never end:
    whatever the fuel, the loop is still running when it is used up, so
    [call] never yields there. *)
Theorem unclosed_list_never_ends (n k : nat) (s : Parser) :
  inert (current s) = true ->
  (forall acc, call_params (parser n) k acc s = Timeout) /\
  array_iter (parser n) k (fun val => val) s = Timeout /\
  dict_iter (parser n) k (fun kv => fst kv ;;; snd kv) s = Timeout /\
  (forall name calling_type r s', call (parser n) k name calling_type s <> Ok r s').
Proof.
  intros H. repeat split.
  - intros acc. now apply call_params_inert.
  - now apply array_iter_inert.
  - now apply dict_iter_inert.
  - intros name ct r s' K. unfold call in K. mrun K;
      match goal with
      | P : call_params _ _ _ _ = Ok _ _ |- _ =>
          rewrite call_params_inert in P by assumption; discriminate P
      end.
Qed.

(** ** The head of the script *)

(** On code [endline] takes nothing; it only adds no line. *)
Lemma endline_on_code fuel addBreak s :
  blank (current s) = false ->
  endline (S fuel) addBreak s = Ok tt (set_out (out s ++ [Out.iadd ""]) s).
Proof.
  intros H. unfold endline. cbn [doWhile].
  unfold bind at 1. unfold bind at 1. unfold get at 1. cbv iota beta.
  unfold bind at 1. rewrite match_type_eq. unfold blank in H. rewrite H.
  reflexivity.
Qed.

(** X7. [self.is_tool = self.expect('@') and self.expect('tool')] takes a
    leading [@] whatever follows it: when the script starts with another
    annotation, the script is no tool and the parser is left past the [@],
    on the name of the annotation. *)
Theorem script_tool_takes_a_leading_at (fuel : nat) (s : Parser) (t : Token)
    (r : list Token) :
  blank (current s) = false ->
  tok_value (current s) = "@" ->
  tokens s = t :: r ->
  tok_value t <> "tool" ->
  blank t = false ->
  exists s',
    script_tool (S fuel) s = Ok tt s' /\
    is_tool s' = Some false /\
    current s' = t /\ tokens s' = r /\
    out s' = out s ++ [Out.iadd ""; Out.iadd ""].
Proof.
  intros Hb Hat Htok Ht Hbt. unfold script_tool.
  unfold bind at 1. rewrite endline_on_code by assumption.
  unfold bind at 1. rewrite expect_eq.
  change (tok_value (current (set_out (out s ++ [Out.iadd ""]) s)))
    with (tok_value (current s)).
  rewrite Hat. cbn [String.eqb Ascii.eqb Bool.eqb andb].
  set (s1 := next_token (set_out (out s ++ [Out.iadd ""]) s)).
  assert (E1 : current s1 = t /\ tokens s1 = r /\ out s1 = out s ++ [Out.iadd ""]).
  { unfold s1, next_token. simpl. rewrite Htok. auto. }
  destruct E1 as (Ec & Er & Eo).
  unfold bind at 1. rewrite expect_eq, Ec.
  apply String.eqb_neq in Ht. rewrite Ht.
  unfold bind at 1. unfold modify at 1.
  rewrite endline_on_code by (simpl; rewrite Ec; exact Hbt).
  eexists. split; [reflexivity|]. simpl. rewrite Ec, Er, Eo.
  repeat split. now rewrite <- app_assoc.
Qed.

(** ** Signals and enumerations *)

Lemma first_phase_refl s : first_phase s s.
Proof. split; reflexivity. Qed.

Lemma first_phase_trans a b c : first_phase a b -> first_phase b c -> first_phase a c.
Proof. intros [E O] [E' O']. split; congruence. Qed.

Lemma first_phase_next_token s : first_phase s (next_token s).
Proof. destruct (next_token_env s). split; assumption. Qed.

(** The utilities that only read and take tokens. *)
Lemma expect_keeps_first_phase token : keeps first_phase (expect token).
Proof.
  intros s b s' H. rewrite expect_eq in H.
  destruct (String.eqb _ _); inversion H; subst;
    [apply first_phase_next_token | apply first_phase_refl].
Qed.

Lemma consume_keeps_first_phase : keeps first_phase consume.
Proof.
  intros s b s' H. rewrite consume_eq in H. inversion H; subst.
  apply first_phase_next_token.
Qed.

Lemma parseType_keeps_first_phase : keeps first_phase parseType.
Proof.
  intros s b s' H. unfold parseType in H. minv H;
    repeat match goal with
           | K : consume _ = Ok _ _ |- _ => apply consume_keeps_first_phase in K
           | K : expect _ _ = Ok _ _ |- _ => apply expect_keeps_first_phase in K
           end;
    chain first_phase_refl first_phase_trans.
Qed.

Lemma type_annotation_keeps_first_phase : keeps first_phase type_annotation.
Proof.
  intros s b s' H. apply type_annotation_first_phase in H. exact H.
Qed.

(** X8. [signal] declares nothing in the parser: apart from the token
    position it leaves the parser as it was (level, locals, class data), and
    the backend receives exactly one call, [define_signal], with the name
    that follows the keyword. *)
Theorem signal_only_defines_the_signal (fuel : nat) (s s' : Parser) :
  signal fuel s = Ok tt s' ->
  env s' = env s /\
  exists params,
    out s' = out s ++ [Out.define_signal (tok_value (current s)) params].
Proof.
  unfold signal. intros H. minv H.
  all: try match goal with
    | K : doWhile _ _ _ _ _ _ = Ok _ _ |- _ =>
        apply doWhile_preserves with (R := first_phase) in K;
        [ | apply first_phase_refl | apply first_phase_trans | | ]
    end.
  all: try (intros s3 c s4 K; minv K;
            match goal with
            | P : expect _ _ = Ok _ _ |- _ =>
                apply expect_keeps_first_phase in P; exact P
            end).
  all: try (intros params0 s3 params1 s4 K; minv K;
            repeat match goal with
                   | K : consume _ = Ok _ _ |- _ => apply consume_keeps_first_phase in K
                   | K : expect _ _ = Ok _ _ |- _ => apply expect_keeps_first_phase in K
                   | K : type_annotation _ = Ok _ _ |- _ =>
                       apply type_annotation_keeps_first_phase in K
                   end;
            chain first_phase_refl first_phase_trans).
  all: repeat match goal with
              | K : consume _ = Ok _ _ |- _ =>
                  rewrite consume_eq in K; inversion K; subst; clear K
              | K : expect _ _ = Ok _ _ |- _ => apply expect_keeps_first_phase in K
              end.
  all: pose proof (first_phase_next_token s) as P0.
  all: match goal with
       | K : emit _ ?x = Ok _ ?y |- _ =>
           assert (P : first_phase s x) by chain first_phase_refl first_phase_trans;
           rewrite emit_eq in K; inversion K; subst y; clear K;
           destruct P as [Pe Po]; split;
           [ rewrite env_set_out; exact Pe
           | eexists; rewrite out_set_out, Po; reflexivity ]
       end.
Qed.

Lemma tokens_next_token_le s :
  (length (tokens (next_token s)) <= length (tokens s))%nat.
Proof. unfold next_token. destruct (tokens s); simpl; lia. Qed.

(** X9. "lazily passing the enum definition as-is": [enum] takes an optional
    name (a [TEXT] token), then every token up to and including the first
    closing brace, and hands the backend the name and the texts of those
    tokens put together; nothing else changes but the position. *)
Theorem enum_passes_the_definition_through (fuel : nat) (s : Parser) :
  (length (tokens s) + 2 <= fuel)%nat ->
  let named := String.eqb (tok_type (current s)) "TEXT" in
  let s1 := if named then next_token s else s in
  let pre := before "}" (current s1 :: tokens s1) in
  let s2 := skip (length pre) s1 in
  enum fuel s =
  Ok tt
    (set_out
       (out s ++
        [Out.enum (if named then tok_value (current s) else "")
           (String.concat "" (map tok_value pre) ++ tok_value (current s2))])
       (next_token s2)).
Proof.
  intros Hf named s1 pre s2. unfold enum.
  unfold bind at 1. rewrite match_type_eq, in_values_one. fold named.
  assert (Hf1 : (length (tokens s1) + 2 <= fuel)%nat).
  { unfold s1. destruct named; [|exact Hf].
    pose proof (tokens_next_token_le s). lia. }
  assert (Ho : out (next_token s2) = out s).
  { destruct (next_token_env s2) as [_ ->]. unfold s2.
    destruct (skip_env (length pre) s1) as [_ ->].
    unfold s1. destruct named; [|reflexivity]. apply next_token_env. }
  rewrite <- Ho.
  unfold bind at 1.
  assert (E1 : (if named then consume else ret "") s =
               Ok (if named then tok_value (current s) else "") s1).
  { unfold s1. destruct named; reflexivity. }
  rewrite E1. unfold bind at 1.
  unfold consumeUntil. unfold bind at 1.
  rewrite consumeUntil_loop by (assumption || discriminate).
  cbn [app ret]. fold pre. fold s2. unfold bind at 1. rewrite consume_eq. apply emit_eq.
Qed.

(** ** What the rules leave alone *)

(** X10. The parser never leaves a scope: [locals] is one flat table from
    which no rule removes a name.  Whatever is in it before a block, a
    class-body construct (a whole method, say) or the whole script is still
    in it afterwards: what one method has left there is there for the
    methods that follow. *)
Theorem locals_are_never_dropped (n fuel : nat) :
  (forall addBreak type s s',
     Block (parser n) fuel addBreak s = Ok type s' -> keeps_locals s s') /\
  (forall s s', class_body (parser n) fuel s = Ok tt s' -> keeps_locals s s') /\
  (forall s s', transpile (parser n) fuel s = Ok tt s' -> keeps_locals s s').
Proof.
  pose proof parser_frame as L.
  pose proof (constructs_frame n) as Cn.
  split; [|split]; intros; intros k Hk.
  - match goal with
    | K : Block _ _ _ _ = Ok _ _ |- _ =>
        apply (Block_keeps _ _ _ L _ _ Cn) in K; destruct K as (_ & K & _); now apply K
    end.
  - match goal with
    | K : class_body _ _ _ = Ok _ _ |- _ =>
        apply (class_body_keeps _ _ _ L _ _ Cn) in K; destruct K as (_ & K & _); now apply K
    end.
  - match goal with
    | K : transpile _ _ _ = Ok _ _ |- _ =>
        apply (transpile_keeps _ _ _ L _ _ Cn) in K; destruct K as (_ & K & _); now apply K
    end.
Qed.

(** X11. An expression changes nothing in the parser but the token position
    and the log: after both resumptions of [expression] the level, the
    locals, the class data, the tables and the registry are what they were,
    and the log has only been extended. *)
Theorem expression_only_moves_and_emits (n fuel : nat) (s s1 s2 : Parser)
    (t : PyVal) (g : Gen) :
  expression (parser n) fuel s = Ok (t, g) s1 ->
  g s1 = Ok tt s2 ->
  env s2 = env s /\ grows (out s) (out s2).
Proof.
  intros H Hg.
  apply (expression_ok _ _ _ parser_frame _ _ (producers_frame n)) in H.
  destruct H as [[E1 O1] G]. apply G in Hg. destruct Hg as [E2 O2].
  split; [congruence|]. rewrite <- O1. exact O2.
Qed.

(** X12. An expression statement or an assignment to an existing target
    ([reassign]) declares nothing: [x = 1] does not put [x] into [locals].
    The parser state is unchanged but for the position, and the last call
    the backend receives is [end_statement]. *)
Theorem reassign_declares_nothing (n fuel : nat) (s s' : Parser) :
  reassign (parser n) fuel s = Ok tt s' ->
  env s' = env s /\
  exists x, out s' = out s ++ x ++ [Out.end_statement].
Proof.
  pose proof parser_frame as L.
  pose proof (producers_frame n) as Pn.
  unfold reassign. intros H. minv H.
  all: repeat match goal with
         | K : expression _ _ _ = Ok _ _ |- _ =>
             apply (expression_ok _ _ _ L _ _ Pn) in K; destruct K
         | K : assignment _ _ _ _ = Ok _ _ |- _ =>
             apply (assignment_ok _ _ _ L _ _ Pn) in K; destruct K
         | K : expect _ _ = Ok _ _ |- _ => apply expect_keeps_first_phase in K
         | G : gen_ok second_phase ?g, K : ?g _ = Ok _ _ |- _ => apply G in K
         | K : first_phase _ _ |- _ => apply (law_R1_R2 _ _ _ L) in K
         end.
  all: match goal with
       | K : emit _ ?x = Ok _ ?y |- _ =>
           assert (P : second_phase s x)
             by chain (law_R2_refl _ _ _ L) (law_R2_trans _ _ _ L);
           rewrite emit_eq in K; inversion K; subst y; clear K;
           destruct P as [Pe [l Po]]; split;
           [ rewrite env_set_out; exact Pe
           | exists l; rewrite out_set_out, Po, app_assoc; reflexivity ]
       end.
Qed.

(** ** Indentation *)

Lemma downscopes_level n : forall first addBreak s a s',
  downscopes n first addBreak s = Ok a s' -> level s' = level s - Z.of_nat n.
Proof.
  induction n as [|n IH]; intros first addBreak s a s' H.
  - simpl in H. apply ret_Ok in H. destruct H as [_ <-]. simpl. lia.
  - cbn [downscopes] in H.
    destruct (addBreak && first)%bool; cbn in H; apply IH in H; simpl in H; lia.
Qed.

(** X13. A line end followed by code sets the level by the indentation it
    carries: [endline] lowers the level to that indentation when it was
    higher and leaves it alone otherwise, stops on the code token, and the
    backend receives one [DownScope] per level given up. *)
Theorem endline_dedents_to_the_indentation (fuel : nat) (addBreak : bool)
    (s : Parser) (t : Token) (r : list Token) (lvl : Z) :
  tok_type (current s) = "LINE_END" ->
  py_int (tok_value (current s)) = Some lvl ->
  lvl <> -1 ->
  tokens s = t :: r ->
  blank t = false ->
  exists s' x,
    endline (S (S fuel)) addBreak s = Ok tt s' /\
    level s' = Z.min (level s) lvl /\
    current s' = t /\ tokens s' = r /\
    out s' = out s ++ x /\ closed x = level s - level s'.
Proof.
  intros Hty Hint Hlvl Htok Hbt.
  set (s1 := next_token s).
  assert (E1 : current s1 = t /\ tokens s1 = r /\ level s1 = level s /\
               out s1 = out s /\ current_id s1 = S (current_id s)).
  { unfold s1, next_token. rewrite Htok. simpl. auto. }
  destruct E1 as (Ec & Er & El & Eo & Ei).
  assert (Hnle : in_values (tok_type (current s1)) ["LINE_END"] = false).
  { rewrite Ec. unfold blank, in_values in Hbt. cbn [existsb] in Hbt.
    apply orb_false_iff in Hbt. destruct Hbt as [Hbt _].
    rewrite in_values_one. exact Hbt. }
  destruct (downscopes_total (Z.to_nat (level s1 - lvl)) true addBreak s1) as [s2 Hd].
  pose proof (downscopes_level _ _ _ _ _ _ Hd) as L2.
  pose proof (downscopes_position _ _ _ _ _ _ Hd) as P2.
  pose proof (downscopes_closes _ _ _ _ _ _ Hd) as (x & Ox & Lx).
  unfold position in P2. injection P2 as Pt Pc Pi.
  (* the round that takes the line end *)
  assert (Hbody : endline_body addBreak (-1, O) s =
                  Ok (lvl, O) (set_out (out s2 ++ [Out.iadd (newlines 1)]) s2)).
  { unfold endline_body. unfold bind at 1. rewrite match_type_eq, in_values_one, Hty.
    cbn [String.eqb Ascii.eqb Bool.eqb andb].
    unfold bind at 1. unfold bind at 1. rewrite consume_eq, Hint. cbn [ret].
    fold s1. unfold bind at 1. rewrite match_type_eq, Hnle.
    apply Z.eqb_neq in Hlvl. rewrite Hlvl.
    unfold bind at 1. unfold bind at 1. unfold get at 1. rewrite Hd.
    reflexivity. }
  exists (set_out ((out s2 ++ [Out.iadd (newlines 1)]) ++ [Out.iadd (newlines 0)]) s2).
  exists (x ++ [Out.iadd (newlines 1); Out.iadd (newlines 0)]).
  split.
  - unfold endline. cbn [doWhile].
    unfold bind at 1. unfold bind at 1. unfold get at 1. cbv iota beta.
    unfold bind at 1. rewrite match_type_eq.
    assert (Hb : in_values (tok_type (current s)) ["LINE_END"; "COMMENT"; "LONG_STRING"]
                 = true).
    { rewrite Hty. reflexivity. }
    rewrite Hb. unfold bind at 1. unfold get at 1. unfold bind at 1. rewrite Hbody.
    unfold bind at 1. unfold get at 1.
    change (current_id (set_out (out s2 ++ [Out.iadd (newlines 1)]) s2))
      with (current_id s2).
    rewrite Pi, Ei.
    assert (Hne : Nat.eqb (S (current_id s)) (current_id s) = false)
      by (apply Nat.eqb_neq; lia).
    rewrite Hne. unfold bind at 1. rewrite match_type_eq.
    change (current (set_out (out s2 ++ [Out.iadd (newlines 1)]) s2)) with (current s2).
    rewrite Pc, Ec. unfold blank in Hbt. rewrite Hbt. reflexivity.
  - simpl. rewrite Pc, Pt, Ec, Er, Ox, Eo.
    repeat split.
    + lia.
    + repeat rewrite <- app_assoc. reflexivity.
    + rewrite closed_app.
      match goal with |- closed x + ?c = _ => change c with 0 end.
      lia.
Qed.

(** ** Typed arrays *)

Lemma contains_brackets_suffix s : contains "[]" (s ++ "[]") = true.
Proof.
  induction s as [|c s IH].
  - reflexivity.
  - cbn [append contains]. rewrite IH. apply orb_true_r.
Qed.

Lemma replace_brackets_suffix s :
  contains "[]" s = false -> replace "[]" "" (s ++ "[]") = s.
Proof.
  unfold replace. induction s as [|c s IH]; intros H.
  - reflexivity.
  - cbn [contains] in H. apply orb_false_iff in H. destruct H as [Hp Hc].
    cbn [append replace_from].
    assert (Hp' : String.prefix "[]" (String c (s ++ "[]")) = false).
    { cbn [String.prefix] in Hp |- *.
      destruct (ascii_dec "[" c); [|reflexivity].
      destruct s as [|d s]; cbn [append].
      - reflexivity.
      - cbn [String.prefix] in Hp |- *.
        destruct (ascii_dec "]" d); [destruct s; discriminate Hp|reflexivity]. }
    rewrite Hp'. now rewrite IH.
Qed.

Lemma truthy_brackets_suffix (s : string) : truthy (Some (s ++ "[]")%string) = true.
Proof. destruct s; reflexivity. Qed.

Lemma subscription_leaf self type s t0 key s1 :
  self_expression self s = Ok (t0, key) s1 ->
  let s2 := if String.eqb (tok_value (current s1)) "]" then next_token s1 else s1 in
  in_values (tok_value (current s2)) ["("; "."] = false ->
  yielded (subscription self type s) =
  Ok (if (truthy type && contains "[]" (text_of type))%bool
      then Some (replace "[]" "" (text_of type)) else None) s2.
Proof.
  intros He s2 Hn. unfold subscription.
  unfold bind at 1. rewrite He. cbv iota beta.
  unfold bind at 1. rewrite expect_eq.
  assert (E2 : (if String.eqb (tok_value (current s1)) "]"
                then Ok true (next_token s1) else Ok false s1) =
               Ok (String.eqb (tok_value (current s1)) "]") s2).
  { unfold s2. destruct (String.eqb _ _); reflexivity. }
  rewrite E2. clear E2.
  unfold in_values in Hn. cbn [existsb] in Hn.
  apply orb_false_iff in Hn. destruct Hn as [Hp Hd].
  apply orb_false_iff in Hd. destruct Hd as [Hd _].
  unfold bind at 1. rewrite expect_eq, Hp.
  unfold bind at 1. rewrite expect_eq, Hd.
  reflexivity.
Qed.

(** X14. Indexing gives a type only for a typed array: [subscription] on a
    value of type [T[]] (what [parseType] makes of [Array[T]]) yields [T];
    on a value of any type without ['[]'], or of no known type, it yields no
    type at all. *)
Theorem subscription_of_a_typed_array (self : Self) (s s1 : Parser)
    (t0 : PyVal) (key : Gen) :
  self_expression self s = Ok (t0, key) s1 ->
  let s2 := if String.eqb (tok_value (current s1)) "]" then next_token s1 else s1 in
  in_values (tok_value (current s2)) ["("; "."] = false ->
  (forall elem : string,
     contains "[]" elem = false ->
     yielded (subscription self (Some (elem ++ "[]")%string) s) = Ok (Some elem) s2) /\
  (forall type : string,
     contains "[]" type = false ->
     yielded (subscription self (Some type) s) = Ok None s2) /\
  yielded (subscription self None s) = Ok None s2.
Proof.
  intros He s2 Hn. repeat split.
  - intros elem Hc.
    rewrite (subscription_leaf self _ s t0 key s1 He Hn).
    cbn [text_of]. rewrite truthy_brackets_suffix, contains_brackets_suffix.
    cbn [andb]. now rewrite replace_brackets_suffix.
  - intros type Hc.
    rewrite (subscription_leaf self _ s t0 key s1 He Hn).
    cbn [text_of]. rewrite Hc, andb_false_r. reflexivity.
  - rewrite (subscription_leaf self _ s t0 key s1 He Hn). reflexivity.
Qed.

(** ** Methods *)

(** A loop keeps what its condition and its body keep, of the parser and of
    the local variables of the loop. *)
Lemma doWhile_preserves_acc {A} (R : Parser -> Parser -> Prop) (P : A -> Prop)
    (cond : M bool) (body : A -> M A) :
  (forall s, R s s) -> (forall a b c, R a b -> R b c -> R a c) ->
  keeps R cond ->
  (forall a s a' s', P a -> body a s = Ok a' s' -> R s s' /\ P a') ->
  forall n last a s a' s',
    P a -> doWhile n cond body last a s = Ok a' s' -> R s s' /\ P a'.
Proof.
  intros Hrefl Htrans Hc Hb.
  induction n as [|n IH]; intros last a s a' s' Ha H; simpl in H.
  - discriminate H.
  - minv H;
      repeat match goal with
             | K : cond _ = Ok _ _ |- _ => apply Hc in K
             | K : body _ _ = Ok _ _ |- _ => apply Hb in K; [destruct K | assumption]
             | K : doWhile _ _ _ _ _ _ = Ok _ _ |- _ =>
                 apply IH in K; [destruct K | assumption]
             end;
      (split; [chain Hrefl Htrans | assumption]).
Qed.

Lemma store_update_length st : forall a f,
  length (store_update st a f) = length st.
Proof.
  induction st as [|d r IH]; intros a f; [reflexivity|].
  destruct a; simpl; [reflexivity|]. now rewrite IH.
Qed.

Lemma get_classData_Ok s cd s' :
  get_classData s = Ok cd s' -> s' = s /\ classData s = Some cd.
Proof.
  unfold get_classData. intros H. minv H. auto.
Qed.

Lemma first_phase_out s s' : first_phase s s' -> out s' = out s.
Proof. intros [_ H]. exact H. Qed.

(** X16. A method is recorded as it is announced.  [method] emits
    [addLayer] before anything else, then what the body emits, then
    [define_method] under the name that follows the keyword; the return type
    it announces there is the one it has put under that name in the method
    table of the class data. *)
Theorem method_is_recorded_as_announced (n fuel : nat) (static : bool)
    (s s' : Parser) :
  method (parser n) fuel static s = Ok tt s' ->
  let name := tok_value (current s) in
  exists body params inits returnType rest cd,
    out s' = out s ++ Out.addLayer :: body ++
             Out.define_method name params inits returnType static :: rest /\
    classData s' = Some cd /\
    ((methods cd < length (store s'))%nat ->
       dict_lookup (table (store s') (methods cd)) name = Some returnType).
Proof.
  pose proof parser_frame as L.
  pose proof (producers_frame n) as Pn.
  pose proof (constructs_frame n) as Cn.
  intros H name. unfold method, Backend.define_method in H. minv H.
  all: match goal with
       | K : doWhile _ _ _ _ _ _ = Ok _ _ |- _ =>
           apply doWhile_preserves_acc
             with (R := first_phase)
                  (P := fun st : list (string * string) * list (string * Gen) =>
                          Forall (gen_ok second_phase) (map snd (snd st))) in K;
           [ destruct K as [Kloop Kinit]
           | apply first_phase_refl | apply first_phase_trans | | | ]
       end.
  (* the parameter loop *)
  all: try (intros sa c sb K; minv K;
            match goal with
            | P : expect _ _ = Ok _ _ |- _ =>
                apply expect_keeps_first_phase in P; exact P
            end).
  all: try match goal with
           | |- Forall _ _ => cbn [snd map]; constructor
           end.
  all: try (intros [params params_init] sa [params2 params_init2] sb Hst Hb;
            minv Hb;
            repeat match goal with
                   | K : consume _ = Ok _ _ |- _ => apply consume_keeps_first_phase in K
                   | K : expect _ _ = Ok _ _ |- _ => apply expect_keeps_first_phase in K
                   | K : type_annotation _ = Ok _ _ |- _ =>
                       apply type_annotation_keeps_first_phase in K
                   | K : expression _ _ _ = Ok _ _ |- _ =>
                       apply (expression_ok _ _ _ L _ _ Pn) in K; destruct K
                   end;
            cbn [snd] in *;
            (split;
             [ chain first_phase_refl first_phase_trans
             | try assumption; apply params_init_ok; assumption ])).
  (* the rest of the method *)
  all: cbn [snd] in Kinit.
  all: repeat match goal with
         | K : consume ?x = Ok _ _ |- _ =>
             rewrite consume_eq in K; inversion K; subst; clear K;
             pose proof (first_phase_next_token x)
         | K : expect _ _ = Ok _ _ |- _ => apply expect_keeps_first_phase in K
         | K : parseType _ = Ok _ _ |- _ => apply parseType_keeps_first_phase in K
         | K : self_Block _ _ _ = Ok _ _ |- _ =>
             apply (ok_Block Cn) in K; destruct K as ([body K] & _ & _)
         | K : get_classData _ = Ok _ _ |- _ =>
             apply get_classData_Ok in K; destruct K as [-> K]
         | K : resume_all _ _ = Ok _ _ |- _ =>
             apply (resume_all_ok _ _ _ L _ Kinit) in K; destruct K as [K [rest ?]]
         | K : first_phase _ _ |- _ => apply first_phase_out in K
         end.
  all: repeat match goal with
         | K : modify _ _ = Ok _ _ |- _ => apply modify_Ok in K
         | K : emit _ _ = Ok _ _ |- _ => rewrite emit_eq in K; injection K as K
         | K : table_set _ _ _ _ = Ok _ _ |- _ =>
             unfold table_set in K; apply modify_Ok in K
         end.
  all: subst.
  all: match goal with
       | B : out ?s8 = _ ++ ?body, C : classData ?s8 = Some ?cd,
         E : env ?sf = env (set_out (_ ++ [Out.define_method _ ?l ?i ?rt _]) _),
         R : out ?sf = _ ++ ?rest |- _ =>
           exists body, l, i, rt, rest, cd;
           apply env_fields in E; destruct E as (_ & Es & Ec & _);
           cbn [store classData set_out set_store] in Es, Ec;
           split; [|split]
       end.
  all: try (rewrite Ec; assumption).
  all: try (rewrite Es; intros Hlen; rewrite store_update_length in Hlen;
            rewrite table_store_update by exact Hlen;
            apply dict_lookup_set_same).
  all: match goal with
       | R : out ?sf = _ |- out ?sf = _ => rewrite R; clear R
       end; cbn [out set_out set_store set_locals].
  all: repeat (cbn [out set_out set_store set_locals];
               match goal with
               | K : out _ = _ |- _ => rewrite K; clear K
               end).
  all: unfold name; repeat rewrite <- app_assoc; reflexivity.
Qed.

(** ** Names and calls *)

Lemma in_godot_types_eq name s :
  in_godot_types name s =
  Ok (match name with Some n => dict_mem (godot_types s) n | None => false end) s.
Proof. reflexivity. Qed.

Lemma get_classData_eq s cd : classData s = Some cd -> get_classData s = Ok cd s.
Proof. unfold get_classData, bind, get. now intros ->. Qed.

Lemma table_get_eq a k s : table_get a k s = Ok (dict_get (table (store s) a) k) s.
Proof. reflexivity. Qed.

Lemma godot_type_eq name s c :
  dict_lookup (godot_types s) name = Some c -> godot_type name s = Ok c s.
Proof. unfold godot_type, bind, get. now intros ->. Qed.

Lemma not_in_values2 v a b : in_values v [a; b] = false ->
  String.eqb v a = false /\ String.eqb v b = false.
Proof.
  unfold in_values. cbn [existsb]. intros H.
  apply orb_false_iff in H. destruct H as [H1 H].
  apply orb_false_iff in H. destruct H as [H2 _]. auto.
Qed.

Lemma not_in_values3 v a b c : in_values v [a; b; c] = false ->
  String.eqb v a = false /\ String.eqb v b = false /\ String.eqb v c = false.
Proof.
  unfold in_values. cbn [existsb]. intros H.
  apply orb_false_iff in H. destruct H as [H1 H].
  apply orb_false_iff in H. destruct H as [H2 H].
  apply orb_false_iff in H. destruct H as [H3 _]. auto.
Qed.

(** X17. What a call resolves to.  A name that is a class of the registry
    is a constructor, whatever methods carry the same name: the call yields
    the class and the backend receives [constructor].  Otherwise a method of
    the script's own class data that has a type wins over the calling type
    and over the global functions, and the backend receives [call]. *)
Theorem call_resolves_class_then_own_method (self : Self) (fuel : nat)
    (name : string) (calling_type : PyVal) (s s1 : Parser) (params : list Gen) :
  call_params self fuel [] s = Ok params s1 ->
  in_values (tok_value (current s1)) ["."; "["] = false ->
  (dict_mem (godot_types s) name = true -> name <> "" ->
     call self fuel name calling_type s =
     Ok (Some name, Backend.constructor name params) s1) /\
  (forall cd,
     dict_mem (godot_types s) name = false ->
     classData s = Some cd ->
     truthy (dict_get (table (store s) (methods cd)) name) = true ->
     call self fuel name calling_type s =
     Ok (dict_get (table (store s) (methods cd)) name, Backend.call name params) s1).
Proof.
  intros Hp Hn. apply not_in_values2 in Hn. destruct Hn as [Hdot Hsub].
  split.
  - intros Hreg Hne. unfold call.
    unfold bind at 1. rewrite in_godot_types_eq, Hreg.
    assert (Ht : str_truthy name = true) by (destruct name; [contradiction|reflexivity]).
    rewrite Ht. cbn [andb]. unfold bind at 1. cbn [ret].
    unfold bind at 1. rewrite Hp.
    unfold bind at 1. rewrite expect_eq, Hdot.
    unfold bind at 1. rewrite expect_eq, Hsub. reflexivity.
  - intros cd Hreg Hcd Hm. unfold call.
    unfold bind at 1. rewrite in_godot_types_eq, Hreg. cbn [andb].
    unfold bind at 1. unfold bind at 1. rewrite (get_classData_eq _ _ Hcd).
    unfold bind at 1. rewrite table_get_eq, Hm. cbn [ret].
    unfold bind at 1. rewrite Hp.
    unfold bind at 1. rewrite expect_eq, Hdot.
    unfold bind at 1. rewrite expect_eq, Hsub. reflexivity.
Qed.

(** A lone [self] is a name like any other: [this] needs the dot. *)
Lemma this_lone name s :
  String.eqb (tok_value (current s)) "." = false ->
  (if String.eqb name "self" then expect "." else ret false) s = Ok false s.
Proof.
  intros H. destruct (String.eqb name "self"); [|reflexivity].
  rewrite expect_eq, H. reflexivity.
Qed.

(** X18. What a lone name resolves to: the type under which the class data
    has it as a member, else the type it has as a local, else its type as a
    global constant, else the name itself when it is a class of the
    registry, else nothing.  A member thus shadows a local of the same name,
    and an entry without a type counts as no entry. *)
Theorem textCode_resolves_member_local_global_class (self : Self) (s : Parser)
    (cd g0 : ClassData) :
  let name := tok_value (current s) in
  in_values (tok_value (current (next_token s))) ["("; "."; "["] = false ->
  classData s = Some cd ->
  dict_lookup (godot_types s) "@GlobalScope" = Some g0 ->
  yielded (textCode self s) =
  Ok (py_or (dict_get (table (store s) (members cd)) name)
        (py_or (dict_get (locals s) name)
           (py_or (dict_get (table (store s) (constants g0)) name)
              (if dict_mem (godot_types s) name then Some name else None))))
     (next_token s).
Proof.
  intros name Hn Hcd Hg.
  apply not_in_values3 in Hn. destruct Hn as (Hpar & Hdot & Hsub).
  destruct (env_fields _ _ (proj1 (next_token_env s))) as (El & Es & Ec & Eg).
  unfold textCode.
  unfold bind at 1. rewrite consume_eq. fold name.
  unfold bind at 1. rewrite (this_lone name (next_token s) Hdot).
  unfold bind at 1. cbn [ret].
  unfold bind at 1. rewrite in_godot_types_eq, Eg.
  unfold bind at 1. rewrite (get_classData_eq (next_token s) cd) by congruence.
  unfold bind at 1.
  assert (Ety :
    (m <- table_get (members cd) name ;;
     if truthy m then ret m
     else
       l <- get (fun s => dict_get (locals s) name) ;;
       if truthy l then ret l
       else
         g <- godot_type "@GlobalScope" ;;
         c <- table_get (constants g) name ;;
         if truthy c then ret c
         else ret (if dict_mem (godot_types s) name then Some name else None))
      (next_token s) =
    Ok (py_or (dict_get (table (store s) (members cd)) name)
          (py_or (dict_get (locals s) name)
             (py_or (dict_get (table (store s) (constants g0)) name)
                (if dict_mem (godot_types s) name then Some name else None))))
       (next_token s)).
  { unfold bind at 1. rewrite table_get_eq, Es. unfold py_or at 1.
    destruct (truthy (dict_get (table (store s) (members cd)) name)); [reflexivity|].
    unfold bind at 1. unfold get at 1. rewrite El. unfold py_or at 1.
    destruct (truthy (dict_get (locals s) name)); [reflexivity|].
    unfold bind at 1. rewrite (godot_type_eq _ _ g0) by congruence.
    unfold bind at 1. rewrite table_get_eq, Es. unfold py_or at 1.
    destruct (truthy (dict_get (table (store s) (constants g0)) name)); reflexivity. }
  rewrite Ety. clear Ety.
  unfold bind at 1. rewrite expect_eq, Hpar.
  unfold bind at 1. rewrite expect_eq, Hdot.
  unfold bind at 1. rewrite expect_eq, Hsub.
  reflexivity.
Qed.

(** X15. After a subscript only one side is emitted.  When a reference
    follows ([x[i].name]), the reference is parsed and gives the type, but its
    generator is never resumed: resuming the subscription emits the subscript
    alone.  When a call follows, resuming emits the call alone and the
    subscript is never signalled. *)
Theorem subscription_emits_one_side (self : Self) (type : PyVal) (s s1 : Parser)
    (t0 : PyVal) (key : Gen) :
  self_expression self s = Ok (t0, key) s1 ->
  let s2 := if String.eqb (tok_value (current s1)) "]" then next_token s1 else s1 in
  let elem := if (truthy type && contains "[]" (text_of type))%bool
              then Some (replace "[]" "" (text_of type)) else None in
  (tok_value (current s2) = "." ->
   forall t reference s3,
     self_reference self elem (next_token s2) = Ok (t, reference) s3 ->
     subscription self type s = Ok (t, Backend.subscription key) s3) /\
  (tok_value (current s2) = "(" ->
   forall t call s3,
     self_call self "" elem (next_token s2) = Ok (t, call) s3 ->
     subscription self type s = Ok (t, call) s3).
Proof.
  intros He s2 elem.
  assert (E2 : expect "]" s1 = Ok (String.eqb (tok_value (current s1)) "]") s2).
  { rewrite expect_eq. unfold s2. destruct (String.eqb _ _); reflexivity. }
  split.
  - intros Hdot t reference s3 Hr. unfold subscription. fold elem.
    unfold bind at 1. rewrite He. cbv iota beta.
    unfold bind at 1. rewrite E2.
    unfold bind at 1. rewrite expect_eq, Hdot. cbn [String.eqb Ascii.eqb Bool.eqb andb].
    unfold bind at 1. rewrite expect_eq, Hdot. cbn [String.eqb Ascii.eqb Bool.eqb andb].
    unfold bind at 1. rewrite Hr. reflexivity.
  - intros Hpar t call s3 Hc. unfold subscription. fold elem.
    unfold bind at 1. rewrite He. cbv iota beta.
    unfold bind at 1. rewrite E2.
    unfold bind at 1. rewrite expect_eq, Hpar. cbn [String.eqb Ascii.eqb Bool.eqb andb].
    unfold bind at 1. rewrite Hc. reflexivity.
Qed.

(** X19. A member access on a value whose type is not in the registry
    fails.  [reference] looks the name up among the constants of the type
    with [ref.godot_types[type]] whenever the type is not empty, without
    asking whether the registry has it: for [x.y] with [y] followed by
    neither a call, a reference nor a subscript, the lookup raises
    [KeyError]. *)
Theorem reference_of_unregistered_type_raises (self : Self) (type : string)
    (s : Parser) :
  type <> "" ->
  dict_lookup (godot_types s) type = None ->
  in_values (tok_value (current (next_token s))) ["("; "."; "["] = false ->
  reference self (Some type) s = Raise "KeyError" (next_token s).
Proof.
  intros Hne Hreg Hn.
  apply not_in_values3 in Hn. destruct Hn as (Hpar & Hdot & Hsub).
  destruct (env_fields _ _ (proj1 (next_token_env s))) as (_ & _ & _ & Eg).
  unfold reference.
  unfold bind at 1. rewrite consume_eq.
  unfold bind at 1. rewrite in_godot_types_eq, Eg.
  unfold dict_mem. rewrite Hreg.
  unfold bind at 1. cbn [ret].
  unfold bind at 1. rewrite expect_eq, Hpar.
  unfold bind at 1. rewrite expect_eq, Hdot.
  unfold bind at 1. rewrite expect_eq, Hsub.
  assert (Ht : truthy (Some type) = true) by (destruct type; [contradiction|reflexivity]).
  rewrite Ht. unfold bind at 1. unfold bind at 1.
  unfold godot_type. unfold bind at 1. unfold get at 1. cbn [text_of].
  rewrite Eg, Hreg. reflexivity.
Qed.

(** ** Annotations and panic *)

(** X21. An annotation reaches the backend with the name of the member it
    precedes, before the member is declared: for [@name var member ...]
    (an annotation without parameters, other than [@on_ready]) [member]
    emits [annotation(name, '', member)] and goes on as the declaration of
    the property [member], static or not. *)
Theorem member_passes_the_annotation_on (self : Self) (fuel : nat)
    (static : bool) (s : Parser) (a v m : Token) (r : list Token) :
  tok_value (current s) = "@" ->
  tokens s = a :: v :: m :: r ->
  tok_value a <> "on_ready" ->
  tok_value a <> "" ->
  tok_value v = "var" ->
  blank v = false ->
  member self (S (S fuel)) static s =
  declare self (S (S fuel)) (Some (tok_value m))
    (Z.lor DECL_FLAGS.property
       (if static then DECL_FLAGS.static else DECL_FLAGS.none))
    (set_out (out s ++ [Out.iadd ""; Out.annotation (tok_value a) "" (tok_value m)])
       (skip 4 s)).
Proof.
  intros Hat Htok Hon Hne Hvar Hbl.
  apply String.eqb_neq in Hon.
  set (s1 := next_token s).
  assert (E1 : current s1 = a /\ tokens s1 = v :: m :: r).
  { unfold s1, next_token. rewrite Htok. auto. }
  destruct E1 as [C1 T1].
  set (s2 := next_token s1).
  assert (E2 : current s2 = v /\ tokens s2 = m :: r).
  { unfold s2, next_token. rewrite T1. auto. }
  destruct E2 as [C2 T2].
  set (s2' := set_out (out s2 ++ [Out.iadd ""]) s2).
  set (s3 := next_token s2').
  assert (E3 : current s3 = m).
  { unfold s3, next_token, s2'. cbn [tokens set_out]. rewrite T2. reflexivity. }
  assert (Efinal :
    set_out (out (next_token s3) ++
             [Out.annotation (tok_value a) "" (tok_value m)]) (next_token s3) =
    set_out (out s ++ [Out.iadd ""; Out.annotation (tok_value a) "" (tok_value m)])
      (skip 4 s)).
  { unfold s3, s2', s2, s1. destruct s as [sn o ts c i lv it bc cn cd lo gt st].
    cbn [tokens] in Htok. subst ts.
    destruct r; cbn; rewrite <- app_assoc; reflexivity. }
  rewrite <- Efinal. clear Efinal.
  unfold member. unfold bind at 1.
  cbn [annotations]. unfold bind at 1. rewrite expect_eq, Hat.
  cbn [String.eqb Ascii.eqb Bool.eqb andb]. fold s1.
  unfold bind at 1. rewrite expect_eq, C1, Hon.
  unfold bind at 1. rewrite consume_eq, C1. fold s2.
  unfold bind at 1. rewrite expect_eq, C2, Hvar.
  cbn [String.eqb Ascii.eqb Bool.eqb andb].
  unfold bind at 1. cbn [ret].
  unfold bind at 1. rewrite endline_on_code by (rewrite C2; exact Hbl). fold s2'.
  assert (C2' : current s2' = v) by exact C2.
  cbn [annotations]. unfold bind at 1. rewrite expect_eq, C2', Hvar.
  cbn [String.eqb Ascii.eqb Bool.eqb andb ret].
  unfold bind at 1. rewrite expect_eq, C2', Hvar.
  cbn [String.eqb Ascii.eqb Bool.eqb andb].
  unfold bind at 1. cbn [ret].
  unfold bind at 1. rewrite expect_eq, C2', Hvar.
  cbn [String.eqb Ascii.eqb Bool.eqb andb]. fold s3.
  unfold bind at 1. rewrite consume_eq, E3.
  assert (Ht : truthy (Some (tok_value a)) = true)
    by (destruct (tok_value a); [contradiction|reflexivity]).
  rewrite Ht, emit_eq. reflexivity.
Qed.

(** X22. "drop current line if we can't parse it": [panic] takes the tokens
    up to the next line end, lets [endline] skip that line end and what is
    blank after it, and then reports the dropped texts, joined by spaces and
    with their newlines escaped, in one comment.  The token named in the
    comment is the one [panic] started on, read when the comment is made:
    when the stream has run out on that very token it reads as the end of
    the stream. *)
Theorem panic_drops_the_rest_of_the_line (fuel : nat) (s s2 : Parser) :
  (length (tokens s) + 2 <= fuel)%nat ->
  let pre := before "LINE_END" (current s :: tokens s) in
  endline fuel false (skip (length pre) s) = Ok tt s2 ->
  let token := if Nat.eqb (current_id s) (current_id s2)
               then current s2 else current s in
  panic fuel s =
  Ok tt
    (set_out
       (out s2 ++
        [Out.line_comment
           ("PANIC! <" ++
            replace newline "\n" (String.concat " " (map tok_value pre)) ++
            "> unexpected at " ++ token_repr token)])
       s2).
Proof.
  intros Hf pre He token. unfold panic.
  unfold bind at 1. unfold get at 1.
  unfold bind at 1. unfold get at 1.
  unfold bind at 1. unfold consumeUntil. unfold bind at 1.
  rewrite consumeUntil_loop by (assumption || discriminate).
  cbn [app ret]. fold pre.
  unfold bind at 1. rewrite He.
  reflexivity.
Qed.

(** ** Comments *)

Lemma comments_app x y : comments (x ++ y) = comments x ++ comments y.
Proof. apply filter_app. Qed.

Lemma downscopes_comments n : forall first addBreak s a s',
  downscopes n first addBreak s = Ok a s' -> comments (out s') = comments (out s).
Proof.
  induction n as [|n IH]; intros first addBreak s a s' H; simpl in H.
  - apply ret_Ok in H. now destruct H as [_ <-].
  - destruct (addBreak && first)%bool; cbn in H; apply IH in H; rewrite H;
      cbn [out set_out set_level]; rewrite ?comments_app; cbn;
      rewrite ?app_nil_r; reflexivity.
Qed.

Lemma comment_of_comments t : comments (comment_of t) = comment_of t.
Proof.
  unfold comment_of.
  destruct (String.eqb (tok_type t) "LINE_END"); [reflexivity|].
  destruct (String.eqb (tok_type t) "COMMENT"); reflexivity.
Qed.

(** A round of [endline] hands the token it takes on to the backend. *)
Lemma endline_body_comments addBreak st s st' s' :
  endline_body addBreak st s = Ok st' s' ->
  comments (out s') = comments (out s) ++ comment_of (current s).
Proof.
  unfold endline_body. destruct st as [lvl jumped]. intros H.
  unfold emitComments, comment_of in *.
  mrun H;
    repeat match goal with
           | K : advance _ = Ok _ _ |- _ => apply modify_Ok in K; subst
           | K : emit _ _ = Ok _ _ |- _ =>
               rewrite emit_eq in K; inversion K; subst; clear K
           | K : downscopes _ _ _ _ = Ok _ _ |- _ => apply downscopes_comments in K
           end.
  all: cbn [out set_out] in *.
  all: rewrite ?in_values_one in *.
  all: repeat match goal with
              | K : String.eqb _ _ = _ |- _ => rewrite K
              | K : in_values _ _ = _ |- _ => rewrite K
              end.
  all: rewrite ?comments_app; cbn [comments filter is_comment app].
  all: repeat match goal with
              | K : comments _ = _ |- _ => rewrite K
              end.
  all: try (destruct (next_token_env s) as [_ ->]).
  all: rewrite ?app_nil_r; try reflexivity.
  all: destruct (String.eqb (tok_type (current s)) "COMMENT"); reflexivity.
Qed.

Lemma blank_line_end t : tok_type t = "LINE_END" -> blank t = true.
Proof. unfold blank. now intros ->. Qed.

Lemma endline_loop_comments addBreak : forall fuel last st s st' s',
  last <> Some (current_id s) ->
  doWhile fuel (match_type ["LINE_END"; "COMMENT"; "LONG_STRING"])
    (endline_body addBreak) last st s = Ok st' s' ->
  comments (out s') =
  comments (out s) ++ flat_map comment_of (blanks (current s :: tokens s)).
Proof.
  induction fuel as [|fuel IH]; intros last st s st' s' Hl H; [discriminate H|].
  cbn [doWhile] in H. unfold bind at 1 in H. unfold get at 1 in H.
  assert (E : match last with Some l => Nat.eqb (current_id s) l | None => false end = false).
  { destruct last as [l|]; auto. apply Nat.eqb_neq. congruence. }
  rewrite E in H. clear E.
  unfold bind at 1 in H. rewrite match_type_eq in H.
  cbn [blanks]. unfold blank at 1.
  destruct (in_values (tok_type (current s)) ["LINE_END"; "COMMENT"; "LONG_STRING"]).
  2:{ apply ret_Ok in H. destruct H as [_ <-]. cbn. now rewrite app_nil_r. }
  unfold bind at 1 in H. unfold get at 1 in H.
  apply bind_Ok in H. destruct H as (st1 & s1 & Hb & H).
  pose proof (endline_body_comments _ _ _ _ _ Hb) as Hc.
  apply endline_body_position in Hb. unfold position in Hb.
  injection Hb as Ht Hcur Hid.
  cbn [flat_map]. rewrite app_assoc, <- Hc.
  destruct (tokens s) as [|t r] eqn:Etok.
  - (* the stream has run out: the loop ends on the same token object *)
    assert (Hsame : current_id s1 = current_id s).
    { rewrite Hid. unfold next_token. rewrite Etok. reflexivity. }
    destruct fuel as [|fuel]; [discriminate H|].
    cbn [doWhile] in H. unfold bind at 1 in H. unfold get at 1 in H.
    rewrite Hsame, Nat.eqb_refl in H.
    apply ret_Ok in H. destruct H as [_ <-]. cbn. now rewrite app_nil_r.
  - assert (Hn : current (next_token s) = t /\ tokens (next_token s) = r /\
                 current_id (next_token s) = S (current_id s)).
    { unfold next_token. rewrite Etok. auto. }
    destruct Hn as (Hn1 & Hn2 & Hn3).
    apply IH in H.
    + rewrite H, Hcur, Ht, Hn1, Hn2. reflexivity.
    + rewrite Hid, Hn3. intros [= K]. lia.
Qed.

(** X23. No comment is lost: the backend receives one comment call for every
    comment and long string that [endline] skips, in the order of the
    tokens, a line comment for a comment and a multi-line comment for a long
    string. *)
Theorem endline_hands_every_comment_on (fuel : nat) (addBreak : bool)
    (s s' : Parser) :
  endline fuel addBreak s = Ok tt s' ->
  comments (out s') =
  comments (out s) ++ flat_map comment_of (blanks (current s :: tokens s)).
Proof.
  unfold endline. intros H. apply bind_Ok in H. destruct H as ([lvl j] & s1 & H & He).
  rewrite emit_eq in He. inversion He; subst s'; clear He.
  apply endline_loop_comments in H; [|discriminate].
  cbn [out set_out]. rewrite comments_app, H. cbn. now rewrite app_nil_r.
Qed.

(** ** Members of registry classes *)

Lemma dict_get_mem (d : Dict) k :
  (if dict_mem d k then dict_get d k else None) = dict_get d k.
Proof. unfold dict_mem, dict_get. destruct (dict_lookup d k); reflexivity. Qed.

(** X24. What a lone member access resolves to on a value whose type is a
    class of the registry: a constant of the class when the name is one, with
    the type the registry gives the constant, signalled as [constant]; else
    the member of that name, with its type (none when the class has no such
    member), signalled as [reference].  A constant thus shadows a member of
    the same name. *)
Theorem reference_resolves_constant_then_member (self : Self) (type : string)
    (c : ClassData) (s : Parser) :
  type <> "" ->
  dict_lookup (godot_types s) type = Some c ->
  in_values (tok_value (current (next_token s))) ["("; "."; "["] = false ->
  let name := tok_value (current s) in
  reference self (Some type) s =
  if dict_mem (table (store s) (constants c)) name
  then Ok (dict_get (table (store s) (constants c)) name, emit (Out.constant name))
         (next_token s)
  else Ok (dict_get (table (store s) (members c)) name, emit (Out.reference name))
         (next_token s).
Proof.
  intros Hne Hreg Hn name.
  apply not_in_values3 in Hn. destruct Hn as (Hpar & Hdot & Hsub).
  destruct (env_fields _ _ (proj1 (next_token_env s))) as (_ & Es & _ & Eg).
  assert (Hreg' : dict_lookup (godot_types (next_token s)) type = Some c) by congruence.
  assert (Ht : truthy (Some type) = true) by (destruct type; [contradiction|reflexivity]).
  unfold reference.
  unfold bind at 1. rewrite consume_eq. fold name.
  unfold bind at 1. rewrite in_godot_types_eq.
  unfold dict_mem at 1. rewrite Hreg'.
  unfold bind at 1. unfold bind at 1. cbn [text_of].
  rewrite (godot_type_eq _ _ _ Hreg').
  unfold bind at 1. unfold table_mem at 1. unfold get at 1.
  assert (Em :
    (if dict_mem (table (store (next_token s)) (members c)) name
     then table_get (members c) name else ret None) (next_token s) =
    Ok (dict_get (table (store s) (members c)) name) (next_token s)).
  { rewrite <- (dict_get_mem (table (store s) (members c)) name), <- Es.
    destruct (dict_mem _ _); reflexivity. }
  rewrite Em. clear Em.
  unfold bind at 1. rewrite expect_eq, Hpar.
  unfold bind at 1. rewrite expect_eq, Hdot.
  unfold bind at 1. rewrite expect_eq, Hsub.
  rewrite Ht. unfold bind at 1. unfold bind at 1.
  rewrite (godot_type_eq _ _ _ Hreg').
  unfold table_mem at 1. unfold get at 1. rewrite Es.
  destruct (dict_mem (table (store s) (constants c)) name).
  - unfold bind at 1. rewrite (godot_type_eq _ _ _ Hreg').
    unfold bind at 1. rewrite table_get_eq, Es. reflexivity.
  - reflexivity.
Qed.

(** ** Declaring and finding a local *)

Lemma default_type_not_empty (a : PyVal) : text_of (py_or a (Some "Variant")) <> "".
Proof.
  destruct (truthy_text (py_or a (Some "Variant"))
              (py_or_truthy a (Some "Variant") eq_refl))
    as (t & -> & Ht).
  exact Ht.
Qed.

Lemma second_phase_locals s s' : second_phase s s' -> locals s' = locals s.
Proof. intros [E _]. apply env_fields in E. apply E. Qed.

(** X25. A declared local is found again.  A [var] or [const] statement
    leaves the name that follows the keyword in [locals] with a type that is
    never empty; from then on, as long as that entry is what it was and no
    member of that name has a type, a lone reference to the name resolves to
    this very type. *)
Theorem declared_local_is_resolved (n fuel : nat) (flags : Z) (s s1 : Parser) :
  let name := tok_value (current s) in
  flag_set flags DECL_FLAGS.property = false ->
  declare (parser n) fuel None flags s = Ok tt s1 ->
  exists type,
    type <> "" /\
    dict_lookup (locals s1) name = Some (Some type) /\
    forall (self : Self) (s2 : Parser) (cd : ClassData),
      dict_lookup (locals s2) name = dict_lookup (locals s1) name ->
      classData s2 = Some cd ->
      truthy (dict_get (table (store s2) (members cd)) name) = false ->
      tok_value (current s2) = name ->
      in_values (tok_value (current (next_token s2))) ["("; "."; "["] = false ->
      yielded (textCode self s2) = Ok (Some type) (next_token s2).
Proof.
  pose proof parser_frame as L.
  pose proof (producers_frame n) as Pn.
  intros name Hflag H.
  assert (Hrec : exists type, type <> "" /\ dict_lookup (locals s1) name = Some (Some type)).
  { unfold declare, declare_emit in H. rewrite Hflag in H.
    cbn [truthy] in H. minv H.
    all: repeat match goal with
           | K : consume _ = Ok _ _ |- _ =>
               rewrite consume_eq in K; inversion K; subst; clear K
           | K : assignment _ _ _ _ = Ok _ _ |- _ =>
               apply (assignment_ok _ _ _ L _ _ Pn) in K; destruct K as [_ K]
           | G : gen_ok second_phase ?g, K : ?g _ = Ok _ _ |- _ =>
               apply G in K; apply second_phase_locals in K
           | K : modify _ _ = Ok _ _ |- _ => apply modify_Ok in K
           | K : emit _ _ = Ok _ _ |- _ => rewrite emit_eq in K; injection K as K
           end.
    all: subst; cbn [locals set_out set_locals] in *.
    all: eexists; split; [apply default_type_not_empty|].
    all: repeat match goal with
           | K : locals _ = _ |- _ => rewrite K; cbn [locals set_out set_locals]
           end.
    all: apply dict_lookup_set_same. }
  destruct Hrec as (type & Hty & Hl). exists type. split; [exact Hty|]. split; [exact Hl|].
  intros self s2 cd Hsame Hcd Hm Hcur Hn.
  apply not_in_values3 in Hn. destruct Hn as (Hpar & Hdot & Hsub).
  destruct (env_fields _ _ (proj1 (next_token_env s2))) as (El & Es & Ec & Eg).
  assert (Hloc : dict_get (locals s2) name = Some type).
  { unfold dict_get. rewrite Hsame, Hl. reflexivity. }
  assert (Htt : truthy (Some type) = true) by (destruct type; [contradiction|reflexivity]).
  unfold textCode.
  unfold bind at 1. rewrite consume_eq, Hcur.
  unfold bind at 1. rewrite (this_lone name (next_token s2) Hdot).
  unfold bind at 1. cbn [ret].
  unfold bind at 1. rewrite in_godot_types_eq.
  unfold bind at 1. rewrite (get_classData_eq (next_token s2) cd) by congruence.
  unfold bind at 1. unfold bind at 1. rewrite table_get_eq, Es, Hm.
  unfold bind at 1. unfold get at 1. rewrite El, Hloc, Htt. cbn [ret].
  unfold bind at 1. rewrite expect_eq, Hpar.
  unfold bind at 1. rewrite expect_eq, Hdot.
  unfold bind at 1. rewrite expect_eq, Hsub.
  reflexivity.
Qed.

(** ** A bare return *)

(** X26. A [return] that no expression follows is a return of [Variant]:
    at a token that starts no expression (a line end, say) [returnStmt]
    takes no token, hands [returnStmt] and [end_statement] to the backend and
    reports the type [Variant]. *)
Theorem bare_return_is_Variant (self : Self) (fuel : nat) (s : Parser) :
  inert (current s) = true ->
  returnStmt self fuel s =
  Ok (Some "Variant")
    (set_out (out s ++ [Out.returnStmt; Out.end_statement]) s).
Proof.
  intros H. destruct (expression_inert self fuel s H) as (g & E & Eg).
  unfold returnStmt. unfold bind at 1. rewrite E. cbv iota beta.
  unfold Backend.returnStmt. unfold bind at 1. unfold bind at 1. rewrite emit_eq.
  rewrite Eg by (apply inert_not_if; exact H).
  unfold bind at 1. rewrite emit_eq. cbn [out set_out].
  rewrite <- app_assoc. destruct s; reflexivity.
Qed.

(** ** The order of emission *)

Lemma set_out_app a b s :
  set_out (out (set_out (out s ++ a) s) ++ b) (set_out (out s ++ a) s) =
  set_out (out s ++ a ++ b) s.
Proof. destruct s. cbn. now rewrite <- app_assoc. Qed.

Lemma emits_seq g1 g2 a b : emits g1 a -> emits g2 b -> emits (g1 ;;; g2) (a ++ b).
Proof.
  intros H1 H2 s. unfold bind. rewrite H1, H2, set_out_app. reflexivity.
Qed.

Lemma emits_emit c : emits (emit c) [c].
Proof. intros s. apply emit_eq. Qed.

Lemma value_literal_emits self fuel s ty :
  literal_type (current s) = Some ty ->
  exists g,
    value self fuel s = Ok (Some ty, g) (next_token s) /\
    emits g (literal_call (current s)).
Proof.
  unfold literal_type, literal_call, value. intros H.
  unfold bind at 1. rewrite match_type_eq, in_values_one.
  destruct (String.eqb (tok_type (current s)) "INT").
  { unfold bind at 1. rewrite consume_eq.
    destruct (py_int _); inversion H.
    eexists. split; [reflexivity|]. apply emits_emit. }
  unfold bind at 1. rewrite match_type_eq, in_values_one.
  destruct (String.eqb (tok_type (current s)) "FLOAT").
  { unfold bind at 1. rewrite consume_eq.
    destruct (py_float _); inversion H.
    eexists. split; [reflexivity|]. apply emits_emit. }
  unfold bind at 1. rewrite match_value_eq.
  destruct (in_values (tok_value (current s)) ["true"; "false"]).
  { inversion H. eexists. split; [reflexivity|]. apply emits_emit. }
  unfold bind at 1. rewrite match_type_eq, in_values_one.
  destruct (String.eqb (tok_type (current s)) "LONG_STRING").
  { inversion H. eexists. split; [reflexivity|]. apply emits_emit. }
  unfold bind at 1. rewrite match_type_eq, in_values_one.
  destruct (String.eqb (tok_type (current s)) "STRING").
  { inversion H. eexists. split; [reflexivity|]. apply emits_emit. }
  discriminate H.
Qed.

Lemma literal_chain_emits (c : list (Token * Token)) :
  forall n fuel s rest,
    (length c < n)%nat ->
    chain_ok c ->
    literal_type (current s) <> None ->
    tokens s = chain_tokens c ++ rest ->
    match rest with [] => True | t :: _ => tok_type t <> "ARITHMETIC" end ->
    exists t g,
      _arithmetic (parser n) fuel s = Ok (t, g) (skip (S (2 * length c)) s) /\
      emits g (literal_call (current s) ++ chain_calls c).
Proof.
  induction c as [|[op lit] c IH]; intros n fuel s rest Hn Hc Hlit Htok Hrest.
  - destruct (literal_type (current s)) as [ty|] eqn:Ety; [|contradiction].
    destruct (value_literal_emits (parser n) fuel s ty Ety) as (g & Hv & Hg).
    destruct (_arithmetic_step _ _ _ _ _ _ Hv) as [Hno _].
    exists (Some ty), g. split.
    + apply Hno. rewrite in_values_one. apply String.eqb_neq.
      simpl in Htok. destruct rest as [|t rest].
      * rewrite (next_token_nil _ Htok). discriminate.
      * destruct (next_token_cons _ _ _ Htok) as [-> _]. exact Hrest.
    + cbn [chain_calls]. now rewrite app_nil_r.
  - destruct n as [|n]; [simpl in Hn; lia|].
    destruct (literal_type (current s)) as [ty|] eqn:Ety; [|contradiction].
    destruct (value_literal_emits (parser (S n)) fuel s ty Ety) as (g & Hv & Hg).
    destruct (_arithmetic_step _ _ _ _ _ _ Hv) as [_ Hyes].
    inversion Hc as [|x l [[Hop1 Hop2] Hl] Hc']; subst. simpl in Hop1, Hop2, Hl.
    simpl in Htok.
    destruct (next_token_cons _ _ _ Htok) as [Hc1 Ht1].
    destruct (next_token_cons _ _ _ Ht1) as [Hc2 Ht2].
    assert (Hn' : (length c < n)%nat) by (simpl in Hn; lia).
    assert (Hl' : literal_type (current (next_token (next_token s))) <> None)
      by now rewrite Hc2.
    destruct (IH n (S n) (next_token (next_token s)) rest Hn' Hc' Hl' Ht2 Hrest)
      as (t2 & g2 & E2 & Hg2).
    assert (E1 : in_values (tok_type (current (next_token s))) ["ARITHMETIC"] = true)
      by (rewrite Hc1, Hop1; reflexivity).
    assert (E3 : tok_value (current (next_token s)) <> "") by now rewrite Hc1.
    eexists. eexists. split.
    + rewrite (Hyes _ _ _ E1 E3 E2).
      replace (S (2 * length ((op, lit) :: c)))
        with (S (S (S (2 * length c)))) by (simpl; lia).
      reflexivity.
    + cbn [chain_calls]. rewrite Hc1. rewrite Hc2 in Hg2.
      apply emits_seq; [exact Hg|].
      change (Out.operator (tok_value op) :: literal_call lit ++ chain_calls c)
        with ([Out.operator (tok_value op)] ++ (literal_call lit ++ chain_calls c)).
      apply emits_seq; [apply emits_emit|exact Hg2].
Qed.

(** X27. A chain of literals is emitted in the order it is written.  For
    [lit0 op1 lit1 ... opk litk], where every INT and every FLOAT has a text
    that [int] or [float] accepts, the second resumption of [_arithmetic]
    hands the backend the literal [lit0], then for each step the operator
    and the literal that follows it, and nothing else, whatever the state it
    is resumed in; the first resumption has taken exactly these tokens. *)
Theorem literal_chain_is_emitted_in_order (n fuel : nat) (s : Parser)
    (c : list (Token * Token)) (rest : list Token) :
  (length c < n)%nat ->
  chain_ok c ->
  literal_type (current s) <> None ->
  tokens s = chain_tokens c ++ rest ->
  match rest with [] => True | t :: _ => tok_type t <> "ARITHMETIC" end ->
  exists t g,
    _arithmetic (parser n) fuel s = Ok (t, g) (skip (S (2 * length c)) s) /\
    forall s', g s' = Ok tt (set_out (out s' ++ literal_call (current s) ++ chain_calls c) s').
Proof.
  intros Hn Hc Hl Ht Hr.
  destruct (literal_chain_emits c n fuel s rest Hn Hc Hl Ht Hr) as (t & g & E & Hg).
  exists t, g. split; [exact E|exact Hg].
Qed.

(** * The properties at work *)

(** A top-level line that no construct takes: the class-body loop runs once. *)
Lemma doWhile_stuck_body_runs_once_witness :
  let s := in_method (TEXT "foo") [TEXT "bar"; LINE_END "0"] in
  script_pass (parser 2) 2 s = Ok tt (set_out [Out.iadd ""] s).
Proof.
  intros s. unfold script_pass.
  apply (doWhile_stuck_body_runs_once 0 (ret true)
           (fun _ => class_body (parser 2) 2) None tt tt s s).
  - discriminate.
  - reflexivity.
  - vm_compute. reflexivity.
  - reflexivity.
Defined.

(** [foo bar] up to the end of the line. *)
Lemma consumeUntil_takes_the_tokens_before_witness :
  let s := in_method (TEXT "foo") [TEXT "bar"; LINE_END "0"; TEXT "x"] in
  consumeUntil 5 "LINE_END" " " s = Ok "foo bar" (skip 2 s).
Proof.
  intros s.
  apply (consumeUntil_takes_the_tokens_before 5 "LINE_END" " " s).
  simpl. lia.
Defined.

(** A line end, a comment and a line end before [x]. *)
Lemma endline_stops_on_code_witness :
  let s := in_method (LINE_END "1") [COMMENT "# c"; LINE_END "1"; TEXT "x"] in
  blank (current (final (endline 5 false s) s)) = false.
Proof.
  intros s. apply (endline_stops_on_code 5 false s).
  vm_compute. reflexivity.
Defined.

Lemma endline_returns_witness :
  let s := in_method (LINE_END "1") [COMMENT "# c"; LINE_END "1"; TEXT "x"] in
  exists s', endline 5 true s = Ok tt s'.
Proof.
  intros s. apply (endline_returns 5 true s).
  - repeat constructor; intros H; try discriminate H; vm_compute; discriminate.
  - simpl. lia.
Defined.

(** From level 3 down to the indentation 1: two scopes are closed. *)
Lemma endline_closes_a_scope_per_level_witness :
  let s := set_level 3 (in_method (LINE_END "1") [TEXT "x"]) in
  exists x,
    out (final (endline 5 false s) s) = out s ++ x /\
    level (final (endline 5 false s) s) = level s - closed x /\
    level (final (endline 5 false s) s) <= level s.
Proof.
  intros s. apply (endline_closes_a_scope_per_level 5 false s).
  vm_compute. reflexivity.
Defined.

(** [foo(] at the end of the script. *)
Lemma unclosed_list_never_ends_witness :
  let s := in_method (TEXT "foo") [punct "("] in
  inert (current (skip 2 s)) = true /\
  call_params (parser 3) 9 [] (skip 2 s) = Timeout.
Proof.
  intros s. split; [reflexivity|].
  exact (proj1 (unclosed_list_never_ends 3 9 (skip 2 s) eq_refl) []).
Defined.

(** [@export var x] on the first line. *)
Lemma script_tool_takes_a_leading_at_witness :
  let s := at_start (punct "@") [TEXT "export"; TEXT "var"; TEXT "x"; LINE_END "0"] in
  exists s',
    script_tool 1 s = Ok tt s' /\
    is_tool s' = Some false /\
    current s' = TEXT "export" /\
    tokens s' = [TEXT "var"; TEXT "x"; LINE_END "0"] /\
    out s' = out s ++ [Out.iadd ""; Out.iadd ""].
Proof.
  intros s.
  apply (script_tool_takes_a_leading_at 0 s (TEXT "export")
           [TEXT "var"; TEXT "x"; LINE_END "0"]).
  - reflexivity.
  - reflexivity.
  - reflexivity.
  - discriminate.
  - reflexivity.
Defined.

(** [signal hit(damage: int)] *)
Lemma signal_only_defines_the_signal_witness :
  let s := in_method (TEXT "hit")
             [punct "("; TEXT "damage"; punct ":"; TEXT "int"; punct ")";
              LINE_END "0"] in
  env (final (signal 4 s) s) = env s /\
  exists params, out (final (signal 4 s) s) = out s ++ [Out.define_signal "hit" params].
Proof.
  intros s. apply (signal_only_defines_the_signal 4 s).
  vm_compute. reflexivity.
Defined.

(** [enum Color {RED, BLUE}] *)
Lemma enum_passes_the_definition_through_witness :
  let s := in_method (TEXT "Color")
             [punct "{"; TEXT "RED"; punct ","; TEXT "BLUE"; punct "}";
              LINE_END "0"] in
  enum 8 s = Ok tt (set_out [Out.enum "Color" "{RED,BLUE}"] (skip 6 s)).
Proof.
  intros s.
  apply (enum_passes_the_definition_through 8 s).
  simpl. lia.
Defined.

(** The local [x] is still there after the member [var y]. *)
Lemma locals_are_never_dropped_witness :
  let s := set_locals [("x", Some "int")]
             (in_method (TEXT "var") [TEXT "y"; LINE_END "0"]) in
  dict_mem (locals (final (class_body (parser 3) 3 s) s)) "x" = true.
Proof.
  intros s.
  apply (proj1 (proj2 (locals_are_never_dropped 3 3)) s
           (final (class_body (parser 3) 3 s) s)).
  - vm_compute. reflexivity.
  - reflexivity.
Defined.

(** [1 + 2] *)
Lemma expression_only_moves_and_emits_witness :
  let s := in_method (INT "1") [ARITHMETIC "+"; INT "2"; LINE_END "0"] in
  let g := suspended (expression (parser 3) 3) s in
  env (final (g (skip 3 s)) s) = env s /\
  grows (out s) (out (final (g (skip 3 s)) s)).
Proof.
  intros s g.
  assert (E : yielded (expression (parser 3) 3 s) = Ok (Some "int") (skip 3 s))
    by (vm_compute; reflexivity).
  apply first_resumption_Ok in E.
  apply (expression_only_moves_and_emits 3 3 s (skip 3 s) _ (Some "int") g E).
  vm_compute. reflexivity.
Defined.

(** [x = 1] *)
Lemma reassign_declares_nothing_witness :
  let s := in_method (TEXT "x") [punct "="; INT "1"; LINE_END "0"] in
  env (final (reassign (parser 3) 3 s) s) = env s /\
  exists x,
    out (final (reassign (parser 3) 3 s) s) = out s ++ x ++ [Out.end_statement].
Proof.
  intros s. apply (reassign_declares_nothing 3 3 s).
  vm_compute. reflexivity.
Defined.

(** From level 2 to a line at indentation 1. *)
Lemma endline_dedents_to_the_indentation_witness :
  let s := set_level 2 (in_method (LINE_END "1") [TEXT "x"; LINE_END "0"]) in
  exists s' x,
    endline 2 true s = Ok tt s' /\
    level s' = 1 /\
    current s' = TEXT "x" /\ tokens s' = [LINE_END "0"] /\
    out s' = out s ++ x /\ closed x = level s - level s'.
Proof.
  intros s.
  apply (endline_dedents_to_the_indentation 0 true s (TEXT "x") [LINE_END "0"] 1).
  - reflexivity.
  - reflexivity.
  - discriminate.
  - reflexivity.
  - reflexivity.
Defined.

(** [[0]] after a value of type [int[]]. *)
Lemma subscription_of_a_typed_array_witness :
  let s := in_method (INT "0") [punct "]"; LINE_END "0"] in
  yielded (subscription (parser 2) (Some "int[]") s) = Ok (Some "int") (skip 2 s).
Proof.
  intros s.
  assert (E : yielded (self_expression (parser 2) s) = Ok (Some "int") (next_token s))
    by (vm_compute; reflexivity).
  apply first_resumption_Ok in E.
  apply (proj1 (subscription_of_a_typed_array (parser 2) s (next_token s) _ _ E
                  eq_refl) "int" eq_refl).
Defined.

(** [[0].name] after a value of type [Node[]]. *)
Lemma subscription_emits_one_side_witness :
  let s := in_method (INT "0") [punct "]"; punct "."; TEXT "name"; LINE_END "0"] in
  subscription (parser 2) (Some "Node[]") s =
  Ok (Some "String",
      Backend.subscription (suspended (self_expression (parser 2)) s))
     (skip 4 s).
Proof.
  intros s.
  assert (E : yielded (self_expression (parser 2) s) = Ok (Some "int") (next_token s))
    by (vm_compute; reflexivity).
  apply first_resumption_Ok in E.
  assert (R : yielded (self_reference (parser 2) (Some "Node") (skip 3 s)) =
              Ok (Some "String") (skip 4 s))
    by (vm_compute; reflexivity).
  apply first_resumption_Ok in R.
  exact (proj1 (subscription_emits_one_side (parser 2) (Some "Node[]") s
                  (next_token s) _ _ E) eq_refl _ _ _ R).
Defined.

(** [func f() -> int: pass]: the method table has [f] with the type that
    [define_method] carries. *)
Lemma method_is_recorded_as_announced_witness :
  let s := in_method (TEXT "f")
             [punct "("; punct ")"; punct "->"; TEXT "int"; punct ":";
              LINE_END "2"; TEXT "pass"; LINE_END "0"] in
  let s' := final (method (parser 3) 4 false s) s in
  exists body params inits returnType rest cd,
    out s' = out s ++ Out.addLayer :: body ++
             Out.define_method "f" params inits returnType false :: rest /\
    classData s' = Some cd /\
    dict_lookup (table (store s') (methods cd)) "f" = Some returnType.
Proof.
  intros s s'.
  destruct (method_is_recorded_as_announced 3 4 false s s')
    as (body & params & inits & rt & rest & cd & Ho & Hc & Hl).
  - vm_compute. reflexivity.
  - exists body, params, inits, rt, rest, cd.
    split; [exact Ho|]. split; [exact Hc|]. apply Hl.
    assert (Ecd : Some cd = Some (copy Object_data))
      by (rewrite <- Hc; vm_compute; reflexivity).
    injection Ecd as ->. vm_compute. lia.
Defined.

(** [Node()] *)
Lemma call_resolves_class_then_own_method_witness :
  let s := in_method (punct ")") [LINE_END "0"] in
  call (parser 1) 1 "Node" None s =
  Ok (Some "Node", Backend.constructor "Node" []) (next_token s).
Proof.
  intros s.
  apply (proj1 (call_resolves_class_then_own_method (parser 1) 1 "Node" None s
                  (next_token s) [] eq_refl eq_refl)).
  - reflexivity.
  - discriminate.
Defined.

(** The local [x] of type [int]. *)
Lemma textCode_resolves_member_local_global_class_witness :
  let s := set_locals [("x", Some "int")] (in_method (TEXT "x") [LINE_END "0"]) in
  yielded (textCode (parser 1) s) = Ok (Some "int") (next_token s).
Proof.
  intros s.
  apply (textCode_resolves_member_local_global_class (parser 1) s
           (copy Object_data) (mkClassData 0 1 2)).
  - reflexivity.
  - reflexivity.
  - reflexivity.
Defined.

(** [.foo] on a value of the script's own class [MyClass]. *)
Lemma reference_of_unregistered_type_raises_witness :
  let s := in_method (TEXT "foo") [LINE_END "0"] in
  reference (parser 1) (Some "MyClass") s = Raise "KeyError" (next_token s).
Proof.
  intros s.
  apply (reference_of_unregistered_type_raises (parser 1) "MyClass" s).
  - discriminate.
  - reflexivity.
  - reflexivity.
Defined.

(** A loop that takes every token. *)
Lemma doWhile_ends_witness :
  let s := in_method (TEXT "a") [TEXT "b"; TEXT "c"] in
  exists a' s',
    doWhile 4 (ret true) (fun a : unit => consume ;;; ret a) None tt s = Ok a' s'.
Proof.
  intros s.
  apply (doWhile_ends (ret true) (fun a : unit => consume ;;; ret a)).
  - intros s0. exists true, s0. split; [reflexivity|]. intros _. lia.
  - intros a s0. exists a, (next_token s0). split; [reflexivity|].
    unfold next_token. destruct (tokens s0); simpl; [right; reflexivity|left; lia].
  - simpl. lia.
Defined.

(** [@export var x = 1] as a member. *)
Lemma member_passes_the_annotation_on_witness :
  let s := in_method (punct "@")
             [TEXT "export"; TEXT "var"; TEXT "x"; punct "="; INT "1"; LINE_END "0"] in
  member (parser 3) 3 false s =
  declare (parser 3) 3 (Some "x") (Z.lor DECL_FLAGS.property DECL_FLAGS.none)
    (set_out [Out.iadd ""; Out.annotation "export" "" "x"] (skip 4 s)).
Proof.
  intros s.
  apply (member_passes_the_annotation_on (parser 3) 1 false s
           (TEXT "export") (TEXT "var") (TEXT "x") [punct "="; INT "1"; LINE_END "0"]).
  - reflexivity.
  - reflexivity.
  - discriminate.
  - discriminate.
  - reflexivity.
  - reflexivity.
Defined.

(** The line [foo zip] is dropped. *)
Lemma panic_drops_the_rest_of_the_line_witness :
  let s := in_method (TEXT "foo") [TEXT "zip"; LINE_END "0"; TEXT "var"] in
  let s2 := final (endline 5 false (skip 2 s)) s in
  panic 5 s =
  Ok tt
    (set_out
       (out s2 ++
        [Out.line_comment
           "PANIC! <foo zip> unexpected at Token(type='TEXT', value='foo')"])
       s2).
Proof.
  intros s s2.
  apply (panic_drops_the_rest_of_the_line 5 s s2).
  - simpl. lia.
  - vm_compute. reflexivity.
Defined.

(** [# a], a blank line and a docstring before [x]. *)
Lemma endline_hands_every_comment_on_witness :
  let s := in_method (COMMENT "# a")
             [LINE_END "1"; mkToken "LONG_STRING" "doc"; LINE_END "1"; TEXT "x"] in
  comments (out (final (endline 6 false s) s)) =
  [Out.line_comment "# a"; Out.multiline_comment "doc"].
Proof.
  intros s. apply (endline_hands_every_comment_on 6 false s).
  vm_compute. reflexivity.
Defined.

(** [.name] on a value of type [Node]. *)
Lemma reference_resolves_constant_then_member_witness :
  let s := in_method (TEXT "name") [LINE_END "0"] in
  reference (parser 1) (Some "Node") s =
  Ok (Some "String", emit (Out.reference "name")) (next_token s).
Proof.
  intros s.
  apply (reference_resolves_constant_then_member (parser 1) "Node" Node_data s).
  - discriminate.
  - reflexivity.
  - reflexivity.
Defined.

(** [var x: int] and, later, [x]. *)
Lemma declared_local_is_resolved_witness :
  let s := in_method (TEXT "x") [punct ":"; TEXT "int"; LINE_END "0"] in
  let s1 := final (declare (parser 3) 3 None DECL_FLAGS.none s) s in
  let s2 := set_token [LINE_END "0"] (TEXT "x") 9 s1 in
  dict_lookup (locals s1) "x" = Some (Some "int") /\
  yielded (textCode (parser 1) s2) = Ok (Some "int") (next_token s2).
Proof.
  intros s s1 s2.
  destruct (declared_local_is_resolved 3 3 DECL_FLAGS.none s s1)
    as (type & Hty & Hl & Hr).
  - reflexivity.
  - vm_compute. reflexivity.
  - assert (E : Some (Some type) = Some (Some "int"))
      by (rewrite <- Hl; vm_compute; reflexivity).
    injection E as ->. split; [exact Hl|].
    apply (Hr (parser 1) s2 (copy Object_data)); reflexivity.
Defined.

(** [return] at the end of a line. *)
Lemma bare_return_is_Variant_witness :
  let s := in_method (LINE_END "0") [TEXT "x"] in
  returnStmt (parser 2) 2 s =
  Ok (Some "Variant") (set_out [Out.returnStmt; Out.end_statement] s).
Proof.
  intros s. apply (bare_return_is_Variant (parser 2) 2 s). reflexivity.
Defined.

(** [1 - 2.5 + 3] *)
Lemma literal_chain_is_emitted_in_order_witness :
  let s := in_method (INT "1")
             [ARITHMETIC "-"; FLOAT "2.5"; ARITHMETIC "+"; INT "3"; LINE_END "0"] in
  exists t g,
    _arithmetic (parser 3) 3 s = Ok (t, g) (skip 5 s) /\
    forall s',
      g s' =
      Ok tt
        (set_out
           (out s' ++
            [Out.literal (LInt 1); Out.operator "-"; Out.literal (LFloat (double "2.5"));
             Out.operator "+"; Out.literal (LInt 3)])
           s').
Proof.
  intros s.
  apply (literal_chain_is_emitted_in_order 3 3 s
           [(ARITHMETIC "-", FLOAT "2.5"); (ARITHMETIC "+", INT "3")]
           [LINE_END "0"]).
  - simpl. lia.
  - repeat constructor; simpl; discriminate.
  - simpl. discriminate.
  - reflexivity.
  - simpl. discriminate.
Defined.
